(** * Amlogic Meson IR remote receiver (drivers/media/rc/meson-ir.c)

    A shallow embedding of the driver and the properties of its register
    choreography, interrupt path, inactivity timer and power transitions.

    Conventions.
    - A [u32] is a [Z] in [0, 2^32); conversions to [u32] are written out.
    - The memory-mapped registers are storage cells addressed by bus
      address: a read returns what the cell holds, a write replaces it.
      What the hardware does on its own (the input level in STATUS, say)
      shows as a different [mmio] between two driver calls.
    - Driver functions are computations in a state, failure and trace
      monad.  The trace lists, in program order, every access to the
      outside of the driver: register reads and writes, lock operations,
      calls into rc-core, timer and interrupt-line calls.
    - A computation fails ([None]) when the C code would not return:
      [spin_lock] on a lock that is already held. *)

From Stdlib Require Import ZArith List String Bool Lia.
Import ListNotations.
Local Open Scope string_scope.
Local Open Scope list_scope.
Local Open Scope Z_scope.

(* ------------------------------------------------------------------ *)
(** * Fixed-width integers and bit-field macros *)

Definition U32_MAX : Z := 0xFFFFFFFF.

Definition is_u32 (x : Z) : Prop := 0 <= x < 2 ^ 32.

(** Conversion to [u32]. *)
Definition u32 (x : Z) : Z := Z.land x U32_MAX.

(** [~x] at type [u32]. *)
Definition u32_not (x : Z) : Z := u32 (Z.lnot x).

(** Modelled from the spec: the macro BIT of the kernel headers, which are
    not part of the driver file; "bit 15" is [BIT 15]. *)
Definition BIT (n : Z) : Z := Z.shiftl 1 n.

(** Modelled from the spec: the macro GENMASK of the kernel headers;
    "bits[h:l]" is [GENMASK h l], the bits l..h inclusive. *)
Definition GENMASK (h l : Z) : Z := Z.shiftl (Z.ones (h - l + 1)) l.

Fixpoint ctz_pos (p : positive) : Z :=
  match p with
  | xO q => 1 + ctz_pos q
  | _ => 0
  end.

(** Modelled from the spec: the helper __bf_shf of the kernel's bitfield
    header, the position of the lowest set bit of a mask. *)
Definition __bf_shf (mask : Z) : Z :=
  match mask with
  | Zpos p => ctz_pos p
  | _ => 0
  end.

(** Modelled from the spec: the macro FIELD_PREP of the kernel's bitfield
    header, a value shifted into the position of its field. *)
Definition FIELD_PREP (mask val : Z) : Z :=
  Z.land (Z.shiftl val (__bf_shf mask)) mask.

(** Modelled from the spec: the macro MS_TO_US of rc-core's header,
    milliseconds as microseconds. *)
Definition MS_TO_US (msec : Z) : Z := msec * 1000.

(* ------------------------------------------------------------------ *)
(** * The driver's constants *)

Definition DRIVER_NAME : string := "meson-ir".

Definition IR_DEC_LDR_ACTIVE : Z := 0x00.
Definition IR_DEC_LDR_IDLE : Z := 0x04.
Definition IR_DEC_LDR_REPEAT : Z := 0x08.
Definition IR_DEC_BIT_0 : Z := 0x0c.
Definition IR_DEC_REG0 : Z := 0x10.
Definition IR_DEC_FRAME : Z := 0x14.
Definition IR_DEC_STATUS : Z := 0x18.
Definition IR_DEC_REG1 : Z := 0x1c.
Definition IR_DEC_REG2 : Z := 0x20.

Definition REG0_RATE_MASK : Z := GENMASK 11 0.

Definition DECODE_MODE_NEC : Z := 0x0.
Definition DECODE_MODE_RAW : Z := 0x2.

Definition REG1_MODE_MASK : Z := GENMASK 8 7.
Definition REG1_MODE_SHIFT : Z := 7.

Definition REG2_MODE_MASK : Z := GENMASK 3 0.
Definition REG2_MODE_SHIFT : Z := 0.

Definition REG1_TIME_IV_MASK : Z := GENMASK 28 16.

Definition REG1_IRQSEL_MASK : Z := GENMASK 3 2.
Definition REG1_IRQSEL_NEC_MODE : Z := 0.
Definition REG1_IRQSEL_RISE_FALL : Z := 1.
Definition REG1_IRQSEL_FALL : Z := 2.
Definition REG1_IRQSEL_RISE : Z := 3.

Definition REG1_RESET : Z := BIT 0.
Definition REG1_POL : Z := BIT 1.
Definition REG1_ENABLE : Z := BIT 15.

Definition STATUS_IR_DEC_IN : Z := BIT 8.

Definition MESON_TRATE : Z := 10.

(** Modelled from the spec: two constants of the kernel headers, the
    errno of a failed allocation and the name of the empty key map. *)
Definition ENOMEM : Z := 12.
Definition RC_MAP_EMPTY : string := "rc-empty".

(* ------------------------------------------------------------------ *)
(** * Data *)

(** The module-level variables of the driver: one set for the whole
    module, whatever the number of bound devices. *)
Inductive global : Set :=
| backup_IR_DEC_REG0
| backup_IR_DEC_REG1
| backup_IR_DEC_LDR_ACTIVE
| backup_IR_DEC_LDR_IDLE
| backup_IR_DEC_BIT_0
| backup_IR_DEC_LDR_REPEAT.

Definition global_eqb (g h : global) : bool :=
  match g, h with
  | backup_IR_DEC_REG0, backup_IR_DEC_REG0
  | backup_IR_DEC_REG1, backup_IR_DEC_REG1
  | backup_IR_DEC_LDR_ACTIVE, backup_IR_DEC_LDR_ACTIVE
  | backup_IR_DEC_LDR_IDLE, backup_IR_DEC_LDR_IDLE
  | backup_IR_DEC_BIT_0, backup_IR_DEC_BIT_0
  | backup_IR_DEC_LDR_REPEAT, backup_IR_DEC_LDR_REPEAT => true
  | _, _ => false
  end.

(** The register each module-level variable is a copy of. *)
Definition backup_source (g : global) : Z :=
  match g with
  | backup_IR_DEC_REG0 => IR_DEC_REG0
  | backup_IR_DEC_REG1 => IR_DEC_REG1
  | backup_IR_DEC_LDR_ACTIVE => IR_DEC_LDR_ACTIVE
  | backup_IR_DEC_LDR_IDLE => IR_DEC_LDR_IDLE
  | backup_IR_DEC_BIT_0 => IR_DEC_BIT_0
  | backup_IR_DEC_LDR_REPEAT => IR_DEC_LDR_REPEAT
  end.

(** struct ir_raw_event, the fields the driver sets. *)
Module RawEvent.
Record t : Set := mk { duration : Z; pulse : bool; timeout : bool }.
(** [struct ir_raw_event rawir = {}] *)
Definition zero : t := mk 0 false false.
End RawEvent.

Inductive bus_type : Set := BUS_NONE | BUS_HOST.
Inductive rc_proto_set : Set := RC_PROTO_BIT_NONE | RC_PROTO_BIT_ALL_IR_DECODER.

(** struct rc_dev, the descriptor fields the driver fills in. *)
Record rc_dev : Set := mk_rc_dev {
  device_name : string;
  input_phys : string;
  input_id_bustype : bus_type;
  map_name : string;
  allowed_protocols : rc_proto_set;
  rx_resolution : Z;
  min_timeout : Z;
  timeout : Z;
  max_timeout : Z;
  driver_name : string
}.

Inductive timer_fn : Set := fn_none | fn_flush_timer.

(** struct timer_list: the callback, the deadline in jiffies and whether
    the timer is armed. *)
Record timer_list : Set := mk_timer {
  function : timer_fn;
  expires : Z;
  pending : bool
}.

(** struct meson_ir.  [reg] is the bus address the register block is
    mapped at, [lock] tells whether the spinlock is held, [timer] is the
    member flush_timer (the name is kept for its callback below). *)
Record meson_ir : Set := mk_ir {
  reg : Z;
  rc : rc_dev;
  lock : bool;
  timer : timer_list;
  irq : Z
}.

(** A device-tree node: its compatible strings and its properties. *)
Record device_node : Set := mk_node {
  compatible : list string;
  properties : list (string * string)
}.

(** A platform device: its node, and what the platform answers to each
    acquisition of the attach sequence. *)
Record platform_device : Set := mk_pdev {
  dev_of_node : device_node;
  kzalloc_ok : bool;            (* devm_kzalloc *)
  ioremap_resource : Z + positive; (* devm_ioremap_resource: address or errno *)
  platform_irq : Z;             (* platform_get_irq *)
  rc_allocate_ok : bool;        (* devm_rc_allocate_device *)
  rc_register_ret : Z;          (* devm_rc_register_device *)
  request_irq_ret : Z;          (* devm_request_irq *)
  pinctrl_err : option Z        (* devm_pinctrl_get_select_default *)
}.

(** What a driver call runs in: the bus, the module's variables, the tick
    counter, and the device it was invoked for with its driver data. *)
Record state : Type := mk_state {
  mmio : Z -> Z;
  globals : global -> Z;
  jiffies : Z;
  pdev : platform_device;
  ir : meson_ir
}.

Inductive event : Set :=
| EvSpinLock                        (* spin_lock, spin_lock_irqsave *)
| EvSpinUnlock                      (* spin_unlock, spin_unlock_irqrestore *)
| EvReadl (addr value : Z)
| EvWritel (value addr : Z)
| EvRawStoreEdge (level : bool)     (* ir_raw_event_store_edge *)
| EvRawStore (ev : RawEvent.t)      (* ir_raw_event_store *)
| EvRawHandle                       (* ir_raw_event_handle *)
| EvModTimer (deadline : Z)
| EvDelTimerSync
| EvEnableIrqWake (line : Z)
| EvDisableIrqWake (line : Z)
| EvEnableIrq (line : Z)
| EvDisableIrq (line : Z)
| EvDevInfo (msg : string)
| EvDevErr (msg : string).

(* ------------------------------------------------------------------ *)
(** * The monad of driver code *)

Definition M (A : Type) : Type := state -> option (A * state * list event).

Definition ret {A : Type} (a : A) : M A := fun s => Some (a, s, []).

Definition bind {A B : Type} (m : M A) (f : A -> M B) : M B :=
  fun s =>
    match m s with
    | None => None
    | Some (a, s1, t1) =>
        match f a s1 with
        | None => None
        | Some (b, s2, t2) => Some (b, s2, t1 ++ t2)
        end
    end.

Notation "x <- m ;; k" := (bind m (fun x => k))
  (at level 61, m at next level, right associativity).
Notation "m ;; k" := (bind m (fun _ => k))
  (at level 61, right associativity).

Definition get {A : Type} (f : state -> A) : M A := fun s => Some (f s, s, []).
Definition emit (e : event) : M unit := fun s => Some (tt, s, [e]).
Definition modify (f : state -> state) : M unit := fun s => Some (tt, f s, []).

Definition set_mmio (m : Z -> Z) (s : state) : state :=
  mk_state m (globals s) (jiffies s) (pdev s) (ir s).
Definition set_globals (g : global -> Z) (s : state) : state :=
  mk_state (mmio s) g (jiffies s) (pdev s) (ir s).
Definition set_ir (i : meson_ir) (s : state) : state :=
  mk_state (mmio s) (globals s) (jiffies s) (pdev s) i.

Definition set_reg (a : Z) (i : meson_ir) : meson_ir :=
  mk_ir a (rc i) (lock i) (timer i) (irq i).
Definition set_rc (r : rc_dev) (i : meson_ir) : meson_ir :=
  mk_ir (reg i) r (lock i) (timer i) (irq i).
Definition set_lock (b : bool) (i : meson_ir) : meson_ir :=
  mk_ir (reg i) (rc i) b (timer i) (irq i).
Definition set_timer (t : timer_list) (i : meson_ir) : meson_ir :=
  mk_ir (reg i) (rc i) (lock i) t (irq i).
Definition set_irq (n : Z) (i : meson_ir) : meson_ir :=
  mk_ir (reg i) (rc i) (lock i) (timer i) n.

(** One cell of the bus replaced. *)
Definition poke (m : Z -> Z) (addr v : Z) : Z -> Z :=
  fun a => if a =? addr then v else m a.

Definition store_global (g : global) (v : Z) (m : global -> Z) : global -> Z :=
  fun h => if global_eqb h g then v else m h.

(* ------------------------------------------------------------------ *)
(** * The kernel services the driver calls *)

(** Modelled from the spec: readl of the kernel's I/O accessors, the
    "read(register) -> value" of the Register Interface: a 32-bit read. *)
Definition readl (addr : Z) : M Z :=
  fun s => let v := u32 (mmio s addr) in Some (v, s, [EvReadl addr v]).

(** Modelled from the spec: writel of the kernel's I/O accessors; the
    change of hardware state "is immediate and not buffered". *)
Definition writel (data addr : Z) : M unit :=
  fun s => Some (tt, set_mmio (poke (mmio s) addr (u32 data)) s,
                 [EvWritel (u32 data) addr]).

(** Modelled from the spec: the spinlock of the Device Instance, "a
    spin-style lock": taking a held lock never returns. *)
Definition spin_lock : M unit :=
  fun s => if lock (ir s) then None
           else Some (tt, set_ir (set_lock true (ir s)) s, [EvSpinLock]).

Definition spin_unlock : M unit :=
  fun s => Some (tt, set_ir (set_lock false (ir s)) s, [EvSpinUnlock]).

(** The irqsave variants take the same lock; masking the local interrupts
    has no counterpart in the state. *)
Definition spin_lock_irqsave : M unit := spin_lock.
Definition spin_unlock_irqrestore : M unit := spin_unlock.

(** Modelled from the spec: timer_setup of the kernel's timer interface:
    a disarmed timer with its expiry callback. *)
Definition timer_setup (f : timer_fn) : M unit :=
  modify (fun s => set_ir (set_timer (mk_timer f 0 false) (ir s)) s).

(** Modelled from the spec: mod_timer, "(re-)arm the Inactivity Timer":
    the deadline is replaced and the timer is armed. *)
Definition mod_timer (deadline : Z) : M unit :=
  fun s => Some (tt,
                 set_ir (set_timer (mk_timer (function (timer (ir s))) deadline true)
                                   (ir s)) s,
                 [EvModTimer deadline]).

(** Modelled from the spec: del_timer_sync, "the timer is synchronously
    cancelled": the timer is disarmed. *)
Definition del_timer_sync : M unit :=
  fun s => Some (tt,
                 set_ir (set_timer (mk_timer (function (timer (ir s)))
                                             (expires (timer (ir s))) false)
                                   (ir s)) s,
                 [EvDelTimerSync]).

(** Modelled from the spec: the decoder sink (rc-core), with the contract
    store_edge(level), store_timeout(duration), process_pending_events(),
    consumed as a black box: the calls are recorded in the trace. *)
Definition ir_raw_event_store_edge (level : bool) : M unit := emit (EvRawStoreEdge level).
Definition ir_raw_event_store (ev : RawEvent.t) : M unit := emit (EvRawStore ev).
Definition ir_raw_event_handle : M unit := emit EvRawHandle.

(** Modelled from the spec: the interrupt-line management and the log of
    the environment, black boxes as well. *)
Definition enable_irq_wake (line : Z) : M unit := emit (EvEnableIrqWake line).
Definition disable_irq_wake (line : Z) : M unit := emit (EvDisableIrqWake line).
Definition enable_irq (line : Z) : M unit := emit (EvEnableIrq line).
Definition disable_irq (line : Z) : M unit := emit (EvDisableIrq line).
Definition dev_info (msg : string) : M unit := emit (EvDevInfo msg).
Definition dev_err (msg : string) : M unit := emit (EvDevErr msg).

(** Modelled from the spec: the device-tree lookups of the binding
    metadata: a compatible string matches when the node lists it, a
    boolean property is true when the node has it. *)
Definition of_device_is_compatible (node : device_node) (compat : string) : bool :=
  existsb (String.eqb compat) (compatible node).

Definition of_get_property (node : device_node) (name : string) : option string :=
  match find (fun kv => String.eqb name (fst kv)) (properties node) with
  | Some kv => Some (snd kv)
  | None => None
  end.

Definition of_property_read_bool (node : device_node) (name : string) : bool :=
  match of_get_property node name with
  | Some _ => true
  | None => false
  end.

(* ------------------------------------------------------------------ *)
(** * Register interface *)

Definition meson_ir_get_reg (r : Z) : M Z :=
  base <- get (fun s => reg (ir s)) ;;
  readl (base + r).

Definition meson_ir_set_mask (r mask value : Z) : M unit :=
  data <- meson_ir_get_reg r ;;
  let data := Z.land data (u32_not mask) in
  let data := Z.lor data (Z.land value mask) in
  base <- get (fun s => reg (ir s)) ;;
  writel data (base + r).

(* ------------------------------------------------------------------ *)
(** * The driver *)

Section Driver.

(** What the build fixes: the tick conversion (it depends on HZ), the
    width of [unsigned long], and the vendor switch CONFIG_AMLOGIC_MODIFY
    that selects the suspend policy. *)
Variable usecs_to_jiffies : Z -> Z.
Variable BITS_PER_LONG : Z.
Variable CONFIG_AMLOGIC_MODIFY : bool.

(** Conversion to [unsigned long]. *)
Definition ulong (x : Z) : Z := x mod 2 ^ BITS_PER_LONG.

Inductive irqreturn_t : Set := IRQ_NONE | IRQ_HANDLED | IRQ_WAKE_THREAD.

Definition meson_ir_irq (irqno : Z) : M irqreturn_t :=
  spin_lock ;;
  base <- get (fun s => reg (ir s)) ;;
  status <- readl (base + IR_DEC_STATUS) ;;
  ir_raw_event_store_edge (negb (Z.land status STATUS_IR_DEC_IN =? 0)) ;;
  now <- get jiffies ;;
  tmo <- get (fun s => timeout (rc (ir s))) ;;
  mod_timer (ulong (now + usecs_to_jiffies tmo)) ;;
  ir_raw_event_handle ;;
  spin_unlock ;;
  ret IRQ_HANDLED.

Definition flush_timer : M unit :=
  let rawir := RawEvent.zero in
  let rawir := RawEvent.mk (RawEvent.duration rawir) (RawEvent.pulse rawir) true in
  tmo <- get (fun s => timeout (rc (ir s))) ;;
  let rawir := RawEvent.mk tmo (RawEvent.pulse rawir) (RawEvent.timeout rawir) in
  ir_raw_event_store rawir ;;
  ir_raw_event_handle.

Definition meson_ir_init : M unit :=
  node <- get (fun s => dev_of_node (pdev s)) ;;
  let pulse_inverted := of_property_read_bool node "pulse-inverted" in
  (* Reset the decoder *)
  meson_ir_set_mask IR_DEC_REG1 REG1_RESET REG1_RESET ;;
  meson_ir_set_mask IR_DEC_REG1 REG1_RESET 0 ;;
  (* Set general operation mode (= raw/software decoding) *)
  (if of_device_is_compatible node "amlogic,meson6-ir"
   then meson_ir_set_mask IR_DEC_REG1 REG1_MODE_MASK
          (FIELD_PREP REG1_MODE_MASK DECODE_MODE_RAW)
   else meson_ir_set_mask IR_DEC_REG2 REG2_MODE_MASK
          (FIELD_PREP REG2_MODE_MASK DECODE_MODE_RAW)) ;;
  (* Set rate *)
  meson_ir_set_mask IR_DEC_REG0 REG0_RATE_MASK (MESON_TRATE - 1) ;;
  (* IRQ on rising and falling edges *)
  meson_ir_set_mask IR_DEC_REG1 REG1_IRQSEL_MASK
    (FIELD_PREP REG1_IRQSEL_MASK REG1_IRQSEL_RISE_FALL) ;;
  (* Set polarity *)
  meson_ir_set_mask IR_DEC_REG1 REG1_POL (if pulse_inverted then REG1_POL else 0) ;;
  (* Enable the decoder *)
  meson_ir_set_mask IR_DEC_REG1 REG1_ENABLE REG1_ENABLE ;;
  (* read IR_DEC_STATUS and IR_DEC_FRAME to clear status *)
  meson_ir_get_reg IR_DEC_STATUS ;;
  meson_ir_get_reg IR_DEC_FRAME ;;
  ret tt.

(** [backup_X = meson_ir_get_reg(ir, X)] *)
Definition backup (g : global) : M unit :=
  v <- meson_ir_get_reg (backup_source g) ;;
  modify (fun s => set_globals (store_global g v (globals s)) s).

Definition rc_dev_zero : rc_dev :=
  mk_rc_dev "" "" BUS_NONE "" RC_PROTO_BIT_NONE 0 0 0 0 "".

Definition meson_ir_zero : meson_ir :=
  mk_ir 0 rc_dev_zero false (mk_timer fn_none 0 false) 0.

(** The descriptor as the attach sequence fills it in. *)
Definition probe_rc_dev (node : device_node) : rc_dev :=
  let map_name := of_get_property node "linux,rc-map-name" in
  {| device_name := DRIVER_NAME;
     input_phys := (DRIVER_NAME ++ "/input0")%string;
     input_id_bustype := BUS_HOST;
     map_name := match map_name with Some n => n | None => RC_MAP_EMPTY end;
     allowed_protocols := RC_PROTO_BIT_ALL_IR_DECODER;
     rx_resolution := MESON_TRATE;
     min_timeout := 1;
     timeout := MS_TO_US 125;
     max_timeout := MS_TO_US 1250;
     driver_name := DRIVER_NAME |}.

Definition meson_ir_probe : M Z :=
  p <- get pdev ;;
  let node := dev_of_node p in
  if negb (kzalloc_ok p) then ret (- ENOMEM) else
  modify (set_ir meson_ir_zero) ;;
  match ioremap_resource p with
  | inr errno => ret (Z.neg errno)
  | inl base =>
  modify (fun s => set_ir (set_reg base (ir s)) s) ;;
  modify (fun s => set_ir (set_irq (platform_irq p) (ir s)) s) ;;
  if platform_irq p <? 0 then ret (platform_irq p) else
  if negb (rc_allocate_ok p)
  then dev_err "failed to allocate rc device" ;; ret (- ENOMEM) else
  modify (fun s => set_ir (set_rc (probe_rc_dev node) (ir s)) s) ;;
  (* spin_lock_init *)
  modify (fun s => set_ir (set_lock false (ir s)) s) ;;
  if negb (rc_register_ret p =? 0)
  then dev_err "failed to register rc device" ;; ret (rc_register_ret p) else
  timer_setup fn_flush_timer ;;
  if negb (request_irq_ret p =? 0)
  then dev_err "failed to request irq" ;; ret (request_irq_ret p) else
  match pinctrl_err p with
  | Some _ => dev_err "pinctrl error, %ld" ;; ret (-1)
  | None =>
  meson_ir_init ;;
  (* make register backup *)
  backup backup_IR_DEC_REG0 ;;
  backup backup_IR_DEC_REG1 ;;
  backup backup_IR_DEC_LDR_ACTIVE ;;
  backup backup_IR_DEC_LDR_IDLE ;;
  backup backup_IR_DEC_BIT_0 ;;
  backup backup_IR_DEC_LDR_REPEAT ;;
  dev_info "receiver initialized" ;;
  ret 0
  end
  end.

Definition meson_ir_remove : M Z :=
  (* Disable the decoder *)
  spin_lock_irqsave ;;
  meson_ir_set_mask IR_DEC_REG1 REG1_ENABLE 0 ;;
  spin_unlock_irqrestore ;;
  del_timer_sync ;;
  ret 0.

Definition meson_ir_shutdown : M unit :=
  node <- get (fun s => dev_of_node (pdev s)) ;;
  spin_lock_irqsave ;;
  (* Set operation mode to NEC/hardware decoding *)
  (if of_device_is_compatible node "amlogic,meson6-ir"
   then meson_ir_set_mask IR_DEC_REG1 REG1_MODE_MASK
          (Z.shiftl DECODE_MODE_NEC REG1_MODE_SHIFT)
   else meson_ir_set_mask IR_DEC_REG2 REG2_MODE_MASK
          (Z.shiftl DECODE_MODE_NEC REG2_MODE_SHIFT)) ;;
  (* Set rate to default value *)
  meson_ir_set_mask IR_DEC_REG0 REG0_RATE_MASK 0x13 ;;
  spin_unlock_irqrestore.

(** [meson_ir_set_mask(ir, X, backup_X, backup_X)] *)
Definition restore (g : global) : M unit :=
  v <- get (fun s => globals s g) ;;
  meson_ir_set_mask (backup_source g) v v.

Definition meson_ir_resume : M Z :=
  spin_lock_irqsave ;;
  (* restore register backup *)
  restore backup_IR_DEC_REG0 ;;
  restore backup_IR_DEC_REG1 ;;
  restore backup_IR_DEC_LDR_ACTIVE ;;
  restore backup_IR_DEC_LDR_IDLE ;;
  restore backup_IR_DEC_BIT_0 ;;
  restore backup_IR_DEC_LDR_REPEAT ;;
  meson_ir_init ;;
  line <- get (fun s => irq (ir s)) ;;
  (if CONFIG_AMLOGIC_MODIFY then enable_irq line else enable_irq_wake line) ;;
  spin_unlock_irqrestore ;;
  dev_info "receiver resumed" ;;
  ret 0.

Definition meson_ir_suspend : M Z :=
  line <- get (fun s => irq (ir s)) ;;
  (if CONFIG_AMLOGIC_MODIFY
   then disable_irq line
   else spin_lock_irqsave ;; disable_irq_wake line ;; spin_unlock_irqrestore) ;;
  dev_info "receiver suspend" ;;
  ret 0.

(* ------------------------------------------------------------------ *)
(** * Several devices, time and the hardware *)

(** The machine: one bus, one set of module variables, one tick counter,
    and the bound devices, each with its own driver data. *)
Record world : Type := mk_world {
  w_mmio : Z -> Z;
  w_globals : global -> Z;
  w_jiffies : Z;
  w_devs : list (platform_device * meson_ir)
}.

Inductive callback : Set :=
| CbProbe | CbRemove | CbShutdown | CbSuspend | CbResume | CbIrq | CbTimer.

(** What happens to the machine: the kernel calls the driver for device
    [n]; the hardware changes a register; time passes. *)
Inductive step : Set :=
| Call (n : nat) (cb : callback)
| Hw (addr value : Z)
| Tick (dt : Z).

(** Modelled from the spec: the comparison of two tick counts of the
    timer service; the signed distance is not negative. *)
Definition time_after_eq (a b : Z) : bool :=
  ulong (a - b) <? 2 ^ (BITS_PER_LONG - 1).

(** Modelled from the spec: the timer service; an armed timer whose
    deadline has passed is disarmed and its callback runs, once ("not
    rearmed automatically"). *)
Definition run_timer : M unit :=
  t <- get (fun s => timer (ir s)) ;;
  now <- get jiffies ;;
  if pending t && time_after_eq now (expires t)
  then
    modify (fun s => set_ir (set_timer (mk_timer (function t) (expires t) false)
                                       (ir s)) s) ;;
    match function t with
    | fn_flush_timer => flush_timer
    | fn_none => ret tt
    end
  else ret tt.

Definition irqreturn_code (r : irqreturn_t) : Z :=
  match r with
  | IRQ_NONE => 0
  | IRQ_HANDLED => 1
  | IRQ_WAKE_THREAD => 2
  end.

Definition dispatch (cb : callback) : M Z :=
  match cb with
  | CbProbe => meson_ir_probe
  | CbRemove => meson_ir_remove
  | CbShutdown => meson_ir_shutdown ;; ret 0
  | CbSuspend => meson_ir_suspend
  | CbResume => meson_ir_resume
  | CbIrq => line <- get (fun s => irq (ir s)) ;;
             r <- meson_ir_irq line ;; ret (irqreturn_code r)
  | CbTimer => run_timer ;; ret 0
  end.

Fixpoint replace_nth {A : Type} (n : nat) (x : A) (l : list A) : list A :=
  match l, n with
  | [], _ => []
  | _ :: t, O => x :: t
  | h :: t, S m => h :: replace_nth m x t
  end.

Definition load (w : world) (d : platform_device * meson_ir) : state :=
  mk_state (w_mmio w) (w_globals w) (w_jiffies w) (fst d) (snd d).

Definition save (n : nat) (s : state) (w : world) : world :=
  mk_world (mmio s) (globals s) (jiffies s)
           (replace_nth n (pdev s, ir s) (w_devs w)).

(** One step; a call returns its code and its trace. *)
Definition run_step (st : step) (w : world) : option (Z * world * list event) :=
  match st with
  | Call n cb =>
      match nth_error (w_devs w) n with
      | None => None
      | Some d =>
          match dispatch cb (load w d) with
          | None => None
          | Some (r, s, tr) => Some (r, save n s w, tr)
          end
      end
  | Hw addr value =>
      Some (0, mk_world (poke (w_mmio w) addr (u32 value)) (w_globals w)
                        (w_jiffies w) (w_devs w), [])
  | Tick dt =>
      Some (0, mk_world (w_mmio w) (w_globals w) (ulong (w_jiffies w + dt))
                        (w_devs w), [])
  end.

(** A schedule; the trace tells which device each event belongs to. *)
Fixpoint run (sched : list step) (w : world) : option (world * list (nat * event)) :=
  match sched with
  | [] => Some (w, [])
  | st :: rest =>
      match run_step st w with
      | None => None
      | Some (_, w1, tr) =>
          match run rest w1 with
          | None => None
          | Some (w2, tr2) =>
              Some (w2, map (pair (match st with Call n _ => n | _ => O end)) tr ++ tr2)
          end
      end
  end.

(* ------------------------------------------------------------------ *)
(** * Registers, fields and traces *)

(** What a read of register [r] of the device returns. *)
Definition reg_read (s : state) (r : Z) : Z := u32 (mmio s (reg (ir s) + r)).

(** Modelled from the spec: the macro FIELD_GET of the kernel's bitfield
    header, a field shifted down to bit 0. *)
Definition FIELD_GET (mask v : Z) : Z := Z.shiftr (Z.land v mask) (__bf_shf mask).

(** A masked update on a 32-bit value, and on one cell of the bus. *)
Definition rmw_val (old mask value : Z) : Z :=
  u32 (Z.lor (Z.land (u32 old) (u32_not mask)) (Z.land value mask)).

Definition rmw (m : Z -> Z) (addr mask value : Z) : Z -> Z :=
  poke m addr (rmw_val (m addr) mask value).

Definition is_meson6 (node : device_node) : bool :=
  of_device_is_compatible node "amlogic,meson6-ir".

(** The mode field of the device's variant: REG1 bits[8:7] on Meson 6,
    REG2 bits[3:0] on the later ones. *)
Definition mode_field (s : state) : Z :=
  if is_meson6 (dev_of_node (pdev s))
  then FIELD_GET REG1_MODE_MASK (reg_read s IR_DEC_REG1)
  else FIELD_GET REG2_MODE_MASK (reg_read s IR_DEC_REG2).

Definition rate_field (s : state) : Z := FIELD_GET REG0_RATE_MASK (reg_read s IR_DEC_REG0).
Definition irqsel_field (s : state) : Z := FIELD_GET REG1_IRQSEL_MASK (reg_read s IR_DEC_REG1).
Definition pol_field (s : state) : Z := FIELD_GET REG1_POL (reg_read s IR_DEC_REG1).
Definition enable_field (s : state) : Z := FIELD_GET REG1_ENABLE (reg_read s IR_DEC_REG1).
Definition reset_field (s : state) : Z := FIELD_GET REG1_RESET (reg_read s IR_DEC_REG1).

(** Whether every call into the decoder sink in a trace is made between a
    lock and its unlock; [held] tells whether the caller holds the lock
    when the trace starts. *)
Fixpoint sink_calls_locked (held : bool) (tr : list event) : bool :=
  match tr with
  | [] => true
  | EvSpinLock :: rest => sink_calls_locked true rest
  | EvSpinUnlock :: rest => sink_calls_locked false rest
  | (EvRawStoreEdge _ | EvRawStore _ | EvRawHandle) :: rest =>
      held && sink_calls_locked held rest
  | _ :: rest => sink_calls_locked held rest
  end.

(** The snapshot the resume path reads: the six module variables. *)
Definition snapshot (g : global -> Z) : list Z :=
  map g [backup_IR_DEC_REG0; backup_IR_DEC_REG1; backup_IR_DEC_LDR_ACTIVE;
         backup_IR_DEC_LDR_IDLE; backup_IR_DEC_BIT_0; backup_IR_DEC_LDR_REPEAT].

(** Register programs: the accesses a straight-line piece of the driver
    makes, as data, with their effect on the bus and their trace. *)
Inductive regop : Set :=
| OpUpdate (r mask value : Z)
| OpRead (r : Z).

Fixpoint ops_mmio (base : Z) (ops : list regop) (m : Z -> Z) : Z -> Z :=
  match ops with
  | [] => m
  | OpUpdate r mask value :: rest => ops_mmio base rest (rmw m (base + r) mask value)
  | OpRead _ :: rest => ops_mmio base rest m
  end.

Fixpoint ops_trace (base : Z) (ops : list regop) (m : Z -> Z) : list event :=
  match ops with
  | [] => []
  | OpUpdate r mask value :: rest =>
      EvReadl (base + r) (u32 (m (base + r)))
      :: EvWritel (rmw_val (m (base + r)) mask value) (base + r)
      :: ops_trace base rest (rmw m (base + r) mask value)
  | OpRead r :: rest =>
      EvReadl (base + r) (u32 (m (base + r))) :: ops_trace base rest m
  end.

Definition pulse_inverted (node : device_node) : bool :=
  of_property_read_bool node "pulse-inverted".

(** The accesses of [meson_ir_init]. *)
Definition init_ops (node : device_node) : list regop :=
  [ OpUpdate IR_DEC_REG1 REG1_RESET REG1_RESET;
    OpUpdate IR_DEC_REG1 REG1_RESET 0;
    (if is_meson6 node
     then OpUpdate IR_DEC_REG1 REG1_MODE_MASK (FIELD_PREP REG1_MODE_MASK DECODE_MODE_RAW)
     else OpUpdate IR_DEC_REG2 REG2_MODE_MASK (FIELD_PREP REG2_MODE_MASK DECODE_MODE_RAW));
    OpUpdate IR_DEC_REG0 REG0_RATE_MASK (MESON_TRATE - 1);
    OpUpdate IR_DEC_REG1 REG1_IRQSEL_MASK (FIELD_PREP REG1_IRQSEL_MASK REG1_IRQSEL_RISE_FALL);
    OpUpdate IR_DEC_REG1 REG1_POL (if pulse_inverted node then REG1_POL else 0);
    OpUpdate IR_DEC_REG1 REG1_ENABLE REG1_ENABLE;
    OpRead IR_DEC_STATUS;
    OpRead IR_DEC_FRAME ].

(** The accesses of [meson_ir_shutdown]. *)
Definition shutdown_ops (node : device_node) : list regop :=
  [ (if is_meson6 node
     then OpUpdate IR_DEC_REG1 REG1_MODE_MASK (Z.shiftl DECODE_MODE_NEC REG1_MODE_SHIFT)
     else OpUpdate IR_DEC_REG2 REG2_MODE_MASK (Z.shiftl DECODE_MODE_NEC REG2_MODE_SHIFT));
    OpUpdate IR_DEC_REG0 REG0_RATE_MASK 0x13 ].

(** The accesses of the restore part of [meson_ir_resume]. *)
Definition restore_ops (g : global -> Z) : list regop :=
  map (fun v => OpUpdate (backup_source v) (g v) (g v))
      [backup_IR_DEC_REG0; backup_IR_DEC_REG1; backup_IR_DEC_LDR_ACTIVE;
       backup_IR_DEC_LDR_IDLE; backup_IR_DEC_BIT_0; backup_IR_DEC_LDR_REPEAT].

(** Bit [n] lies in bits[h:l]. *)
Definition in_field (h l n : Z) : bool := (l <=? n) && (n <=? h).

(** The bits [meson_ir_shutdown] may change: the mode field of the
    variant and REG0 bits[11:0]. *)
Definition shutdown_touches (node : device_node) (r n : Z) : bool :=
  (if is_meson6 node
   then (r =? IR_DEC_REG1) && in_field 8 7 n
   else (r =? IR_DEC_REG2) && in_field 3 0 n)
  || ((r =? IR_DEC_REG0) && in_field 11 0 n).

Definition is_attach (st : step) : bool :=
  match st with
  | Call _ CbProbe => true
  | _ => false
  end.

(** A schedule, run from [w], in which no attach succeeds: whatever else
    it does, each attach in it returns an error. *)
Fixpoint attaches_fail (sched : list step) (w : world) : bool :=
  match sched with
  | [] => true
  | st :: rest =>
      match run_step st w with
      | Some (r, w1, _) =>
          (negb (is_attach st) || negb (r =? 0)) && attaches_fail rest w1
      | None => true
      end
  end.

(** A computation that leaves the module variables alone. *)
Definition keeps_globals {A : Type} (m : M A) : Prop :=
  forall s a s' tr, m s = Some (a, s', tr) -> globals s' = globals s.

(** The driver data a successful attach leaves. *)
Definition probed_ir (p : platform_device) (base : Z) : meson_ir :=
  mk_ir base (probe_rc_dev (dev_of_node p)) false (mk_timer fn_flush_timer 0 false)
        (platform_irq p).

(** The event the expiry callback hands to the sink. *)
Definition timeout_event (s : state) : RawEvent.t :=
  RawEvent.mk (timeout (rc (ir s))) false true.

(** The interrupt-line call of resume, by suspend policy. *)
Definition resume_irq_event (line : Z) : event :=
  if CONFIG_AMLOGIC_MODIFY then EvEnableIrq line else EvEnableIrqWake line.

(** A register program seen from one register: the mask of the bits it
    overwrites and the value it leaves under that mask. *)
Fixpoint ops_mask (ops : list regop) (r : Z) : Z :=
  match ops with
  | [] => 0
  | OpUpdate r0 mask _ :: rest =>
      if r =? r0 then Z.lor mask (ops_mask rest r) else ops_mask rest r
  | OpRead _ :: rest => ops_mask rest r
  end.

Fixpoint ops_value (ops : list regop) (r : Z) : Z :=
  match ops with
  | [] => 0
  | OpUpdate r0 mask value :: rest =>
      if r =? r0
      then Z.lor (Z.land (Z.land value mask) (Z.lnot (ops_mask rest r)))
                 (Z.land (ops_value rest r) (ops_mask rest r))
      else ops_value rest r
  | OpRead _ :: rest => ops_value rest r
  end.

(** The register a module variable is restored to, read backwards. *)
Definition backup_of (r : Z) : option global :=
  if r =? IR_DEC_REG0 then Some backup_IR_DEC_REG0
  else if r =? IR_DEC_REG1 then Some backup_IR_DEC_REG1
  else if r =? IR_DEC_LDR_ACTIVE then Some backup_IR_DEC_LDR_ACTIVE
  else if r =? IR_DEC_LDR_IDLE then Some backup_IR_DEC_LDR_IDLE
  else if r =? IR_DEC_BIT_0 then Some backup_IR_DEC_BIT_0
  else if r =? IR_DEC_LDR_REPEAT then Some backup_IR_DEC_LDR_REPEAT
  else None.

(** The bits of each register that [meson_ir_init] overwrites, and what it
    puts there. *)
Definition init_mask (node : device_node) (r : Z) : Z :=
  if r =? IR_DEC_REG0 then 0xfff
  else if r =? IR_DEC_REG1 then (if is_meson6 node then 0x818f else 0x800f)
  else if r =? IR_DEC_REG2 then (if is_meson6 node then 0 else 0xf)
  else 0.

Definition init_value (node : device_node) (r : Z) : Z :=
  if r =? IR_DEC_REG0 then 9
  else if r =? IR_DEC_REG1
       then 0x8004 + (if pulse_inverted node then 2 else 0)
            + (if is_meson6 node then 0x100 else 0)
  else if r =? IR_DEC_REG2 then (if is_meson6 node then 0 else 2)
  else 0.

(** A relation between the state before and after that a computation
    keeps whenever it returns. *)
Definition preserves {A : Type} (R : state -> state -> Prop) (m : M A) : Prop :=
  forall s a s' tr, m s = Some (a, s', tr) -> R s s'.

(** The cells outside the register block of the device are as before, and
    the block is where it was. *)
Definition same_outside_block (s s' : state) : Prop :=
  reg (ir s') = reg (ir s) /\
  forall a, (a < reg (ir s) \/ reg (ir s) + IR_DEC_REG2 < a) -> mmio s' a = mmio s a.

(** The lock as a trace tells it: [Some held] after a well-formed use,
    [None] when a held lock is taken or a free one released. *)
Fixpoint lock_after (held : bool) (tr : list event) : option bool :=
  match tr with
  | [] => Some held
  | EvSpinLock :: rest => if held then None else lock_after true rest
  | EvSpinUnlock :: rest => if held then lock_after false rest else None
  | _ :: rest => lock_after held rest
  end.

(** Whether every register access of a trace is made under the lock. *)
Fixpoint mmio_locked (held : bool) (tr : list event) : bool :=
  match tr with
  | [] => true
  | EvSpinLock :: rest => mmio_locked true rest
  | EvSpinUnlock :: rest => mmio_locked false rest
  | (EvReadl _ _ | EvWritel _ _) :: rest => held && mmio_locked held rest
  | _ :: rest => mmio_locked held rest
  end.

Definition is_mmio (e : event) : bool :=
  match e with
  | EvReadl _ _ | EvWritel _ _ => true
  | _ => false
  end.


Definition is_timeout_event (e : nat * event) : bool :=
  match snd e with
  | EvRawStore _ => true
  | _ => false
  end.

Definition is_edge_event (e : nat * event) : bool :=
  match snd e with
  | EvRawStoreEdge _ => true
  | _ => false
  end.


(** The code attach returns: that of the first acquisition that fails. *)
Definition probe_code (p : platform_device) : Z :=
  if negb (kzalloc_ok p) then - ENOMEM
  else match ioremap_resource p with
       | inr errno => Z.neg errno
       | inl _ =>
           if platform_irq p <? 0 then platform_irq p
           else if negb (rc_allocate_ok p) then - ENOMEM
           else if negb (rc_register_ret p =? 0) then rc_register_ret p
           else if negb (request_irq_ret p =? 0) then request_irq_ret p
           else match pinctrl_err p with
                | Some _ => -1
                | None => 0
                end
       end.

(** A burst of edges: each is handled, then time passes and the timer
    service runs. *)
Definition burst (gaps : list Z) : list step :=
  flat_map (fun dt => [Call 0 CbIrq; Tick dt; Call 0 CbTimer]) gaps.

(* ------------------------------------------------------------------ *)
(** * Bits of 32-bit values *)

Lemma U32_MAX_ones : U32_MAX = Z.ones 32.
Proof. reflexivity. Qed.

Lemma u32_mod (x : Z) : u32 x = x mod 2 ^ 32.
Proof. unfold u32. rewrite U32_MAX_ones. apply Z.land_ones. lia. Qed.

Lemma u32_range (x : Z) : is_u32 (u32 x).
Proof. unfold is_u32. rewrite u32_mod. apply Z.mod_pos_bound. lia. Qed.

Lemma u32_id (x : Z) : is_u32 x -> u32 x = x.
Proof. intros H. rewrite u32_mod. apply Z.mod_small. exact H. Qed.

Lemma testbit_u32 (x n : Z) :
  0 <= n -> Z.testbit (u32 x) n = Z.testbit x n && (n <? 32).
Proof.
  intros Hn. unfold u32. rewrite U32_MAX_ones, Z.land_spec, Z.testbit_ones by lia.
  replace (0 <=? n) with true by (symmetry; apply Z.leb_le; lia).
  reflexivity.
Qed.

Lemma testbit_u32_not (x n : Z) :
  0 <= n -> Z.testbit (u32_not x) n = negb (Z.testbit x n) && (n <? 32).
Proof.
  intros Hn. unfold u32_not. rewrite testbit_u32, Z.lnot_spec by lia. reflexivity.
Qed.

Lemma testbit_is_u32_high (x n : Z) : is_u32 x -> 32 <= n -> Z.testbit x n = false.
Proof.
  intros Hx Hn. rewrite <- (u32_id x Hx), testbit_u32 by lia.
  replace (n <? 32) with false by (symmetry; apply Z.ltb_ge; lia).
  apply andb_false_r.
Qed.

Lemma testbit_rmw_val (old mask value n : Z) :
  0 <= n ->
  Z.testbit (rmw_val old mask value) n =
  ((Z.testbit old n && negb (Z.testbit mask n)) || (Z.testbit value n && Z.testbit mask n))
  && (n <? 32).
Proof.
  intros Hn. unfold rmw_val.
  rewrite testbit_u32, Z.lor_spec, !Z.land_spec, testbit_u32, testbit_u32_not by lia.
  destruct (Z.testbit old n), (Z.testbit mask n), (Z.testbit value n), (n <? 32);
    reflexivity.
Qed.

(** A field of a masked update: the old bits the mask spares, and the new
    bits under the mask. *)
Lemma land_rmw_val (old mask value k c1 c2 : Z) :
  Z.land (u32_not mask) k = c1 ->
  Z.land (Z.land value mask) (u32 k) = c2 ->
  Z.land (rmw_val old mask value) k = Z.lor (Z.land old c1) c2.
Proof.
  intros <- <-. apply Z.bits_inj'. intros n Hn.
  rewrite Z.lor_spec, !Z.land_spec, testbit_rmw_val, testbit_u32_not, testbit_u32 by lia.
  destruct (Z.testbit old n), (Z.testbit mask n), (Z.testbit value n), (n <? 32),
    (Z.testbit k n); reflexivity.
Qed.

Lemma testbit_rmw_val_masked (old mask value n : Z) :
  0 <= n < 32 -> Z.testbit mask n = true ->
  Z.testbit (rmw_val old mask value) n = Z.testbit value n.
Proof.
  intros Hn Hm. rewrite testbit_rmw_val, Hm by lia.
  replace (n <? 32) with true by (symmetry; apply Z.ltb_lt; lia).
  cbn [negb]. now rewrite andb_false_r, !andb_true_r.
Qed.

Lemma testbit_rmw_val_spared (old mask value n : Z) :
  0 <= n -> Z.testbit mask n = false ->
  Z.testbit (rmw_val old mask value) n = Z.testbit (u32 old) n.
Proof.
  intros Hn Hm. rewrite testbit_rmw_val, testbit_u32, Hm by lia.
  cbn [negb]. now rewrite andb_false_r, orb_false_r, andb_true_r.
Qed.

Lemma rmw_val_range (old mask value : Z) : is_u32 (rmw_val old mask value).
Proof. apply u32_range. Qed.

Lemma poke_same (m : Z -> Z) (a v : Z) : poke m a v a = v.
Proof. unfold poke. now rewrite Z.eqb_refl. Qed.

Lemma poke_other (m : Z -> Z) (a v b : Z) : b <> a -> poke m a v b = m b.
Proof. intros H. unfold poke. apply Z.eqb_neq in H. now rewrite H. Qed.

Lemma rmw_same (m : Z -> Z) (a mask value : Z) :
  rmw m a mask value a = rmw_val (m a) mask value.
Proof. apply poke_same. Qed.

Lemma rmw_other (m : Z -> Z) (a mask value b : Z) :
  b <> a -> rmw m a mask value b = m b.
Proof. apply poke_other. Qed.

Lemma land_u32 (x k c : Z) : Z.land U32_MAX k = c -> Z.land (u32 x) k = Z.land x c.
Proof. intros <-. unfold u32. now rewrite Z.land_assoc. Qed.

(* ------------------------------------------------------------------ *)
(** * Running driver code *)

Lemma bind_run {A B : Type} (m : M A) (f : A -> M B) (s : state)
      (a : A) (s1 : state) (t1 : list event) :
  m s = Some (a, s1, t1) ->
  bind m f s =
  match f a s1 with
  | None => None
  | Some (b, s2, t2) => Some (b, s2, t1 ++ t2)
  end.
Proof. intros H. unfold bind. now rewrite H. Qed.

Lemma meson_ir_get_reg_run (r : Z) (s : state) :
  meson_ir_get_reg r s = Some (reg_read s r, s, [EvReadl (reg (ir s) + r) (reg_read s r)]).
Proof. reflexivity. Qed.

Lemma meson_ir_set_mask_run (r mask value : Z) (s : state) :
  meson_ir_set_mask r mask value s =
  Some (tt,
        set_mmio (rmw (mmio s) (reg (ir s) + r) mask value) s,
        [EvReadl (reg (ir s) + r) (reg_read s r);
         EvWritel (rmw_val (mmio s (reg (ir s) + r)) mask value) (reg (ir s) + r)]).
Proof.
  unfold meson_ir_set_mask.
  rewrite (bind_run _ _ _ _ _ _ (meson_ir_get_reg_run r s)).
  unfold bind, get, writel, rmw, rmw_val, reg_read. cbn [app].
  reflexivity.
Qed.

Lemma u32_lor_fits (a b : Z) : is_u32 a -> is_u32 b -> u32 (Z.lor a b) = Z.lor a b.
Proof.
  intros Ha Hb. apply Z.bits_inj'. intros n Hn.
  rewrite testbit_u32, Z.lor_spec by lia.
  destruct (Z.ltb_spec n 32) as [Hlt | Hge].
  - apply andb_true_r.
  - now rewrite (testbit_is_u32_high a n Ha Hge), (testbit_is_u32_high b n Hb Hge).
Qed.

Lemma land_fits_l (a b : Z) : is_u32 a -> is_u32 (Z.land a b).
Proof.
  intros Ha. rewrite <- (u32_id a Ha). unfold u32.
  rewrite <- Z.land_assoc, (Z.land_comm U32_MAX b), Z.land_assoc.
  apply u32_range.
Qed.

Lemma land_fits_r (a b : Z) : is_u32 b -> is_u32 (Z.land a b).
Proof. intros Hb. rewrite Z.land_comm. now apply land_fits_l. Qed.

Lemma rmw_val_formula (old mask value : Z) :
  is_u32 mask ->
  rmw_val old mask value =
  Z.lor (Z.land (u32 old) (u32_not mask)) (Z.land value mask).
Proof.
  intros Hm. unfold rmw_val. apply u32_lor_fits.
  - apply land_fits_l, u32_range.
  - now apply land_fits_r.
Qed.

Lemma reg_read_set_mmio (m : Z -> Z) (s : state) (r : Z) :
  reg_read (set_mmio m s) r = u32 (m (reg (ir s) + r)).
Proof. reflexivity. Qed.

(* ------------------------------------------------------------------ *)
(** * Register interface: the masked update *)

(** C8: for every register, mask, value and prior register state,
    update(register, mask, value) returns and leaves the register holding
    (old & ~mask) | (value & mask): the bits outside the mask keep their
    value, the bits under the mask are those of the value, the bits of the
    value outside the mask play no part, and no other register changes. *)
Theorem meson_ir_set_mask_update (s : state) (r mask value : Z) :
  is_u32 mask ->
  exists s' tr,
    meson_ir_set_mask r mask value s = Some (tt, s', tr) /\
    reg_read s' r =
      Z.lor (Z.land (reg_read s r) (u32_not mask)) (Z.land value mask) /\
    (forall n, 0 <= n -> Z.testbit mask n = false ->
               Z.testbit (reg_read s' r) n = Z.testbit (reg_read s r) n) /\
    (forall n, 0 <= n -> Z.testbit mask n = true ->
               Z.testbit (reg_read s' r) n = Z.testbit value n) /\
    (forall value', Z.land value' mask = Z.land value mask ->
                    meson_ir_set_mask r mask value' s = Some (tt, s', tr)) /\
    (forall r', r' <> r -> reg_read s' r' = reg_read s r') /\
    globals s' = globals s /\ ir s' = ir s.
Proof.
  intros Hm. eexists. eexists. split; [apply meson_ir_set_mask_run|].
  assert (Hread : reg_read (set_mmio (rmw (mmio s) (reg (ir s) + r) mask value) s) r
                  = rmw_val (mmio s (reg (ir s) + r)) mask value).
  { rewrite reg_read_set_mmio, rmw_same. apply u32_id, rmw_val_range. }
  repeat split.
  - rewrite Hread. now apply rmw_val_formula.
  - intros n Hn Hbit. rewrite Hread, testbit_rmw_val by lia.
    unfold reg_read. rewrite testbit_u32, Hbit by lia.
    now rewrite andb_false_r, orb_false_r, andb_true_r.
  - intros n Hn Hbit. rewrite Hread, testbit_rmw_val by lia.
    rewrite Hbit. cbn [negb]. rewrite andb_false_r, andb_true_r. cbn [orb].
    destruct (Z.ltb_spec n 32) as [Hlt | Hge]; [apply andb_true_r|].
    pose proof (testbit_is_u32_high mask n Hm Hge) as Hhi. congruence.
  - intros value' Heq. rewrite meson_ir_set_mask_run.
    unfold rmw, rmw_val. now rewrite Heq.
  - intros r' Hne. rewrite reg_read_set_mmio, rmw_other by lia. reflexivity.
Qed.

Lemma bind_get {A B : Type} (f : state -> A) (k : A -> M B) (s : state) :
  bind (get f) k s = k (f s) s.
Proof. unfold bind, get. destruct (k (f s) s) as [[[b s2] t2]|]; reflexivity. Qed.

Lemma bind_modify {B : Type} (f : state -> state) (k : unit -> M B) (s : state) :
  bind (modify f) k s = k tt (f s).
Proof. unfold bind, modify. destruct (k tt (f s)) as [[[b s2] t2]|]; reflexivity. Qed.

Lemma bind_ret {A B : Type} (a : A) (k : A -> M B) (s : state) :
  bind (ret a) k s = k a s.
Proof. unfold bind, ret. destruct (k a s) as [[[b s2] t2]|]; reflexivity. Qed.

Lemma bind_set_mask {B : Type} (r mask value : Z) (k : unit -> M B) (s : state) :
  bind (meson_ir_set_mask r mask value) k s =
  match k tt (set_mmio (rmw (mmio s) (reg (ir s) + r) mask value) s) with
  | None => None
  | Some (b, s2, t2) =>
      Some (b, s2,
            [EvReadl (reg (ir s) + r) (reg_read s r);
             EvWritel (rmw_val (mmio s (reg (ir s) + r)) mask value) (reg (ir s) + r)]
            ++ t2)
  end.
Proof. apply bind_run, meson_ir_set_mask_run. Qed.

Lemma bind_get_reg {B : Type} (r : Z) (k : Z -> M B) (s : state) :
  bind (meson_ir_get_reg r) k s =
  match k (reg_read s r) s with
  | None => None
  | Some (b, s2, t2) => Some (b, s2, [EvReadl (reg (ir s) + r) (reg_read s r)] ++ t2)
  end.
Proof. apply bind_run, meson_ir_get_reg_run. Qed.

Lemma bind_emit {B : Type} (e : event) (k : unit -> M B) (s : state) :
  bind (emit e) k s =
  match k tt s with
  | None => None
  | Some (b, s2, t2) => Some (b, s2, [e] ++ t2)
  end.
Proof. reflexivity. Qed.

Ltac run_simpl :=
  cbv beta;
  cbn [mmio globals jiffies pdev ir set_mmio set_globals set_ir
       reg rc lock timer irq set_reg set_rc set_lock set_timer set_irq].

Ltac run_one :=
  first [ rewrite bind_get | rewrite bind_modify | rewrite bind_ret
        | rewrite bind_set_mask | rewrite bind_get_reg | rewrite bind_emit ];
  run_simpl.

Lemma meson_ir_init_run (s : state) :
  meson_ir_init s =
  Some (tt,
        set_mmio (ops_mmio (reg (ir s)) (init_ops (dev_of_node (pdev s))) (mmio s)) s,
        ops_trace (reg (ir s)) (init_ops (dev_of_node (pdev s))) (mmio s)).
Proof.
  unfold meson_ir_init, init_ops, pulse_inverted, is_meson6.
  run_one.
  destruct (of_device_is_compatible (dev_of_node (pdev s)) "amlogic,meson6-ir");
    repeat run_one; reflexivity.
Qed.

(* ------------------------------------------------------------------ *)
(** * Fields of the registers after a register program *)

Ltac addr_neq :=
  unfold IR_DEC_LDR_ACTIVE, IR_DEC_LDR_IDLE, IR_DEC_LDR_REPEAT, IR_DEC_BIT_0,
    IR_DEC_REG0, IR_DEC_FRAME, IR_DEC_STATUS, IR_DEC_REG1, IR_DEC_REG2; lia.

(** Peels the updates of a chain off a field, outermost first. *)
Ltac peel :=
  repeat first
    [ rewrite Z.land_0_r
    | rewrite rmw_other by addr_neq
    | rewrite rmw_same; erewrite land_rmw_val by (lazy; reflexivity) ].

Lemma field_get_u32 (mask x c : Z) :
  Z.land U32_MAX mask = mask -> Z.land x mask = c ->
  FIELD_GET mask (u32 x) = Z.shiftr c (__bf_shf mask).
Proof.
  intros Hm Hc. unfold FIELD_GET.
  now rewrite (land_u32 x mask mask Hm), Hc.
Qed.

Lemma init_rate (node : device_node) (base : Z) (m : Z -> Z) :
  Z.land (ops_mmio base (init_ops node) m (base + IR_DEC_REG0)) REG0_RATE_MASK = 9.
Proof.
  unfold init_ops. destruct (is_meson6 node); cbn [ops_mmio]; peel; reflexivity.
Qed.

Lemma init_irqsel (node : device_node) (base : Z) (m : Z -> Z) :
  Z.land (ops_mmio base (init_ops node) m (base + IR_DEC_REG1)) REG1_IRQSEL_MASK = 4.
Proof.
  unfold init_ops. destruct (is_meson6 node), (pulse_inverted node);
    cbn [ops_mmio]; peel; reflexivity.
Qed.

Lemma init_pol (node : device_node) (base : Z) (m : Z -> Z) :
  Z.land (ops_mmio base (init_ops node) m (base + IR_DEC_REG1)) REG1_POL =
  if pulse_inverted node then 2 else 0.
Proof.
  unfold init_ops. destruct (is_meson6 node), (pulse_inverted node);
    cbn [ops_mmio]; peel; reflexivity.
Qed.

Lemma init_enable (node : device_node) (base : Z) (m : Z -> Z) :
  Z.land (ops_mmio base (init_ops node) m (base + IR_DEC_REG1)) REG1_ENABLE = 0x8000.
Proof.
  unfold init_ops. destruct (is_meson6 node), (pulse_inverted node);
    cbn [ops_mmio]; peel; reflexivity.
Qed.

Lemma init_reset (node : device_node) (base : Z) (m : Z -> Z) :
  Z.land (ops_mmio base (init_ops node) m (base + IR_DEC_REG1)) REG1_RESET = 0.
Proof.
  unfold init_ops. destruct (is_meson6 node), (pulse_inverted node);
    cbn [ops_mmio]; peel; reflexivity.
Qed.

Lemma init_mode_meson6 (node : device_node) (base : Z) (m : Z -> Z) :
  is_meson6 node = true ->
  Z.land (ops_mmio base (init_ops node) m (base + IR_DEC_REG1)) REG1_MODE_MASK = 0x100.
Proof.
  intros H. unfold init_ops. rewrite H. destruct (pulse_inverted node);
    cbn [ops_mmio]; peel; reflexivity.
Qed.

Lemma init_mode_meson8b (node : device_node) (base : Z) (m : Z -> Z) :
  is_meson6 node = false ->
  Z.land (ops_mmio base (init_ops node) m (base + IR_DEC_REG2)) REG2_MODE_MASK = 2.
Proof.
  intros H. unfold init_ops. rewrite H. cbn [ops_mmio]; peel; reflexivity.
Qed.

(* ------------------------------------------------------------------ *)
(** * Attach *)

Lemma bind_init {B : Type} (k : unit -> M B) (s : state) :
  bind meson_ir_init k s =
  match k tt (set_mmio (ops_mmio (reg (ir s)) (init_ops (dev_of_node (pdev s))) (mmio s)) s) with
  | None => None
  | Some (b, s2, t2) =>
      Some (b, s2, ops_trace (reg (ir s)) (init_ops (dev_of_node (pdev s))) (mmio s) ++ t2)
  end.
Proof. apply bind_run, meson_ir_init_run. Qed.

Lemma bind_backup {B : Type} (g : global) (k : unit -> M B) (s : state) :
  bind (backup g) k s =
  match k tt (set_globals (store_global g (reg_read s (backup_source g)) (globals s)) s) with
  | None => None
  | Some (b, s2, t2) =>
      Some (b, s2,
            [EvReadl (reg (ir s) + backup_source g) (reg_read s (backup_source g))] ++ t2)
  end.
Proof.
  apply bind_run. unfold backup. rewrite bind_get_reg. reflexivity.
Qed.

(** What a successful attach did: every acquisition succeeded, the
    registers went through [meson_ir_init], and the module variables hold
    the six registers of this device as they read afterwards. *)
Lemma meson_ir_probe_ok (s s' : state) (tr : list event) :
  meson_ir_probe s = Some (0, s', tr) ->
  exists base,
    ioremap_resource (pdev s) = inl base /\
    mmio s' = ops_mmio base (init_ops (dev_of_node (pdev s))) (mmio s) /\
    ir s' = probed_ir (pdev s) base /\
    pdev s' = pdev s /\
    jiffies s' = jiffies s /\
    forall g, globals s' g = reg_read s' (backup_source g).
Proof.
  unfold meson_ir_probe. run_one.
  destruct (kzalloc_ok (pdev s)); cbn [negb];
    [|unfold ret, ENOMEM; intros H; discriminate H].
  run_one.
  destruct (ioremap_resource (pdev s)) as [base | errno];
    [|unfold ret; intros H; discriminate H].
  do 2 run_one.
  destruct (Z.ltb_spec (platform_irq (pdev s)) 0) as [Hneg | Hpos];
    [unfold ret; intros H; injection H as H _ _; lia|].
  destruct (rc_allocate_ok (pdev s)); cbn [negb];
    [|unfold dev_err, ENOMEM; run_one; unfold ret; intros H; discriminate H].
  do 2 run_one.
  destruct (Z.eqb_spec (rc_register_ret (pdev s)) 0) as [Hreg | Hreg]; cbn [negb];
    [|unfold dev_err; run_one; unfold ret; intros H; injection H as H _ _; lia].
  unfold timer_setup. run_one.
  destruct (Z.eqb_spec (request_irq_ret (pdev s)) 0) as [Hirq | Hirq]; cbn [negb];
    [|unfold dev_err; run_one; unfold ret; intros H; injection H as H _ _; lia].
  destruct (pinctrl_err (pdev s));
    [unfold dev_err; run_one; unfold ret; intros H; discriminate H|].
  rewrite bind_init. run_simpl.
  repeat (rewrite bind_backup; run_simpl).
  unfold dev_info. run_one. unfold ret.
  intros H. injection H as <- _. exists base.
  cbn [mmio ir pdev jiffies globals]. repeat split.
  intros g. unfold reg_read, store_global. cbn [mmio ir reg].
  destruct g; reflexivity.
Qed.

Lemma init_final_fields (s : state) :
  let node := dev_of_node (pdev s) in
  let s' := set_mmio (ops_mmio (reg (ir s)) (init_ops node) (mmio s)) s in
  mode_field s' = DECODE_MODE_RAW /\
  rate_field s' = MESON_TRATE - 1 /\
  irqsel_field s' = REG1_IRQSEL_RISE_FALL /\
  pol_field s' = (if pulse_inverted node then 1 else 0) /\
  enable_field s' = 1 /\
  reset_field s' = 0.
Proof.
  intros node s'.
  unfold mode_field, rate_field, irqsel_field, pol_field, enable_field, reset_field.
  subst s'. cbn [pdev set_mmio]. rewrite !reg_read_set_mmio. fold node.
  repeat split.
  - destruct (is_meson6 node) eqn:Hv.
    + erewrite field_get_u32; [|reflexivity|now apply init_mode_meson6]. reflexivity.
    + erewrite field_get_u32; [|reflexivity|now apply init_mode_meson8b]. reflexivity.
  - erewrite field_get_u32; [|reflexivity|apply init_rate]. reflexivity.
  - erewrite field_get_u32; [|reflexivity|apply init_irqsel]. reflexivity.
  - erewrite field_get_u32; [|reflexivity|apply init_pol].
    destruct (pulse_inverted node); reflexivity.
  - erewrite field_get_u32; [|reflexivity|apply init_enable]. reflexivity.
  - erewrite field_get_u32; [|reflexivity|apply init_reset]. reflexivity.
Qed.

Lemma field_get_rmw_val (old mask value k c : Z) :
  Z.land (u32_not mask) k = 0 ->
  Z.shiftr (Z.land (Z.land value mask) (u32 k)) (__bf_shf k) = c ->
  FIELD_GET k (rmw_val old mask value) = c.
Proof.
  intros H0 Hc. unfold FIELD_GET.
  now rewrite (land_rmw_val old mask value k 0 _ H0 eq_refl), Z.land_0_r.
Qed.

Lemma enable_field_bit (v : Z) :
  FIELD_GET REG1_ENABLE v = 1 <-> Z.testbit v 15 = true.
Proof.
  unfold FIELD_GET.
  change (__bf_shf REG1_ENABLE) with 15. change REG1_ENABLE with (2 ^ 15).
  split.
  - intros H.
    assert (Hbit : Z.testbit (Z.shiftr (Z.land v (2 ^ 15)) 15) 0 = true)
      by (rewrite H; reflexivity).
    rewrite Z.shiftr_spec, Z.land_spec in Hbit by lia.
    apply andb_true_iff in Hbit. exact (proj1 Hbit).
  - intros H. apply Z.bits_inj'. intros n Hn.
    rewrite Z.shiftr_spec, Z.land_spec, Z.pow2_bits_eqb by lia.
    destruct (Z.eqb_spec n 0) as [-> | Hne].
    + cbn [Z.add]. rewrite H. reflexivity.
    + replace (15 =? n + 15) with false by (symmetry; apply Z.eqb_neq; lia).
      rewrite andb_false_r. symmetry. apply (Z.bits_above_log2 1 n); cbn; lia.
Qed.

(* ------------------------------------------------------------------ *)
(** * Configuration sequencer *)

(** C5: configure() returns and performs, in this order: the reset pulse
    (REG1 bit 0 written set, then clear); raw mode (2) in REG1 bits[8:7] on
    Meson 6 or in REG2 bits[3:0] on the later variants; the sample period
    minus one (9) in REG0 bits[11:0]; interrupt on both edges (1) in REG1
    bits[3:2]; REG1 bit 1 set exactly when the polarity is inverted; REG1
    bit 15 set; one read of STATUS and one of FRAME.  Afterwards the fields
    read back these values and the reset bit is clear.  A successful attach
    of a later-variant device without inverted polarity leaves REG2 mode
    bits 0b0010, REG1 bit 15 set and REG1 bits[3:2] equal to 01. *)
Theorem meson_ir_init_sequence (s : state) :
  let base := reg (ir s) in
  let node := dev_of_node (pdev s) in
  let mode_reg := if is_meson6 node then IR_DEC_REG1 else IR_DEC_REG2 in
  let mode_mask := if is_meson6 node then REG1_MODE_MASK else REG2_MODE_MASK in
  (exists s' r1 w1 r2 w2 r3 w3 r4 w4 r5 w5 r6 w6 r7 w7 status frame,
     meson_ir_init s =
     Some (tt, s',
           [ EvReadl (base + IR_DEC_REG1) r1; EvWritel w1 (base + IR_DEC_REG1);
             EvReadl (base + IR_DEC_REG1) r2; EvWritel w2 (base + IR_DEC_REG1);
             EvReadl (base + mode_reg) r3; EvWritel w3 (base + mode_reg);
             EvReadl (base + IR_DEC_REG0) r4; EvWritel w4 (base + IR_DEC_REG0);
             EvReadl (base + IR_DEC_REG1) r5; EvWritel w5 (base + IR_DEC_REG1);
             EvReadl (base + IR_DEC_REG1) r6; EvWritel w6 (base + IR_DEC_REG1);
             EvReadl (base + IR_DEC_REG1) r7; EvWritel w7 (base + IR_DEC_REG1);
             EvReadl (base + IR_DEC_STATUS) status;
             EvReadl (base + IR_DEC_FRAME) frame ]) /\
     FIELD_GET REG1_RESET w1 = 1 /\
     FIELD_GET REG1_RESET w2 = 0 /\
     FIELD_GET mode_mask w3 = DECODE_MODE_RAW /\
     FIELD_GET REG0_RATE_MASK w4 = 9 /\
     FIELD_GET REG1_IRQSEL_MASK w5 = 1 /\
     Z.testbit w6 1 = pulse_inverted node /\
     Z.testbit w7 15 = true /\
     status = reg_read s IR_DEC_STATUS /\
     frame = reg_read s IR_DEC_FRAME /\
     mode_field s' = DECODE_MODE_RAW /\
     rate_field s' = 9 /\
     irqsel_field s' = 1 /\
     pol_field s' = (if pulse_inverted node then 1 else 0) /\
     enable_field s' = 1 /\
     reset_field s' = 0 /\
     ir s' = ir s /\ globals s' = globals s)
  /\
  (forall s' tr,
     meson_ir_probe s = Some (0, s', tr) ->
     is_meson6 node = false ->
     pulse_inverted node = false ->
     FIELD_GET REG2_MODE_MASK (reg_read s' IR_DEC_REG2) = 2 /\
     Z.testbit (reg_read s' IR_DEC_REG1) 15 = true /\
     FIELD_GET REG1_IRQSEL_MASK (reg_read s' IR_DEC_REG1) = 1).
Proof.
  intros base node mode_reg mode_mask. split.
  - pose proof (init_final_fields s) as Hfin. cbv zeta in Hfin. fold node base in Hfin.
    destruct Hfin as (Hmode & Hrate & Hsel & Hpol & Hen & Hrst).
    exists (set_mmio (ops_mmio base (init_ops node) (mmio s)) s).
    rewrite meson_ir_init_run. fold node base.
    assert (Hframe : ir (set_mmio (ops_mmio base (init_ops node) (mmio s)) s) = ir s /\
                     globals (set_mmio (ops_mmio base (init_ops node) (mmio s)) s) = globals s)
      by (split; reflexivity).
    revert Hmode Hrate Hsel Hpol Hen Hrst Hframe.
    generalize (set_mmio (ops_mmio base (init_ops node) (mmio s)) s) as s'.
    intros s' Hmode Hrate Hsel Hpol Hen Hrst Hframe.
    subst mode_reg mode_mask. unfold init_ops.
    destruct (is_meson6 node); cbn [ops_trace ops_mmio];
      do 16 eexists;
      (split; [reflexivity|]);
      (split; [apply field_get_rmw_val; reflexivity|]);
      (split; [apply field_get_rmw_val; reflexivity|]);
      (split; [apply field_get_rmw_val; reflexivity|]);
      (split; [apply field_get_rmw_val; reflexivity|]);
      (split; [apply field_get_rmw_val; reflexivity|]);
      (split; [rewrite testbit_rmw_val_masked by (try lia; reflexivity);
               destruct (pulse_inverted node); reflexivity|]);
      (split; [rewrite testbit_rmw_val_masked by (try lia; reflexivity);
               reflexivity|]);
      (split; [unfold reg_read; subst base; f_equal; peel; reflexivity|]);
      (split; [unfold reg_read; subst base; f_equal; peel; reflexivity|]);
      (split; [exact Hmode|]); (split; [exact Hrate|]); (split; [exact Hsel|]);
      (split; [exact Hpol|]); (split; [exact Hen|]); (split; [exact Hrst|]);
      exact Hframe.
  - intros s' tr Hprobe Hvar Hinv.
    destruct (meson_ir_probe_ok s s' tr Hprobe) as (b & _ & Hmm & Hir & Hpd & _ & _).
    pose proof (init_final_fields (set_ir (probed_ir (pdev s) b) s)) as Hfin.
    cbv zeta in Hfin. cbn [pdev ir set_ir mmio probed_ir reg] in Hfin.
    fold node in Hfin.
    destruct Hfin as (Hmode & _ & Hsel & _ & Hen & _).
    unfold mode_field, irqsel_field, enable_field in Hmode, Hsel, Hen.
    cbn [pdev set_mmio set_ir] in Hmode. fold node in Hmode. rewrite Hvar in Hmode.
    unfold reg_read in *.
    cbn [mmio set_mmio set_ir ir reg probed_ir] in Hmode, Hsel, Hen.
    rewrite Hmm, Hir. cbn [probed_ir reg]. fold node.
    repeat split.
    + exact Hmode.
    + apply enable_field_bit. exact Hen.
    + exact Hsel.
Qed.

(* ------------------------------------------------------------------ *)
(** * Shutdown *)

Lemma bind_spin_lock {B : Type} (k : unit -> M B) (s : state) :
  lock (ir s) = false ->
  bind spin_lock k s =
  match k tt (set_ir (set_lock true (ir s)) s) with
  | None => None
  | Some (b, s2, t2) => Some (b, s2, [EvSpinLock] ++ t2)
  end.
Proof. intros H. unfold bind, spin_lock. now rewrite H. Qed.

Lemma bind_spin_unlock {B : Type} (k : unit -> M B) (s : state) :
  bind spin_unlock k s =
  match k tt (set_ir (set_lock false (ir s)) s) with
  | None => None
  | Some (b, s2, t2) => Some (b, s2, [EvSpinUnlock] ++ t2)
  end.
Proof. reflexivity. Qed.

Lemma spin_unlock_run (s : state) :
  spin_unlock s = Some (tt, set_ir (set_lock false (ir s)) s, [EvSpinUnlock]).
Proof. reflexivity. Qed.

(** Taking and releasing a free lock leaves the driver data as it was. *)
Lemma relock_id (i : meson_ir) :
  lock i = false -> mk_ir (reg i) (rc i) false (timer i) (irq i) = i.
Proof. destruct i as [a r l t n]. cbn. now intros ->. Qed.

Lemma testbit_GENMASK (h l n : Z) :
  0 <= l <= h -> 0 <= n -> Z.testbit (GENMASK h l) n = in_field h l n.
Proof.
  intros Hl Hn. unfold GENMASK, in_field.
  rewrite Z.shiftl_spec by lia.
  destruct (Z.leb_spec l n) as [Hle | Hlt].
  - rewrite Z.testbit_ones by lia.
    replace (0 <=? n - l) with true by (symmetry; apply Z.leb_le; lia).
    cbn [andb].
    destruct (Z.leb_spec n h); [apply Z.ltb_lt | apply Z.ltb_ge]; lia.
  - now rewrite Z.testbit_neg_r by lia.
Qed.

Lemma meson_ir_shutdown_run (s : state) :
  lock (ir s) = false ->
  meson_ir_shutdown s =
  Some (tt,
        set_mmio (ops_mmio (reg (ir s)) (shutdown_ops (dev_of_node (pdev s))) (mmio s)) s,
        [EvSpinLock]
          ++ ops_trace (reg (ir s)) (shutdown_ops (dev_of_node (pdev s))) (mmio s)
          ++ [EvSpinUnlock]).
Proof.
  intros Hfree.
  unfold meson_ir_shutdown, shutdown_ops, is_meson6, spin_lock_irqsave,
    spin_unlock_irqrestore.
  run_one. rewrite bind_spin_lock by exact Hfree. run_simpl.
  destruct (of_device_is_compatible (dev_of_node (pdev s)) "amlogic,meson6-ir");
    repeat run_one; rewrite spin_unlock_run;
    cbn [ops_mmio ops_trace app]; unfold reg_read, set_mmio, set_ir, set_lock;
    cbn [mmio globals jiffies pdev ir reg rc lock timer irq];
    rewrite (relock_id (ir s) Hfree); reflexivity.
Qed.

Lemma shutdown_rate (node : device_node) (base : Z) (m : Z -> Z) :
  Z.land (ops_mmio base (shutdown_ops node) m (base + IR_DEC_REG0)) REG0_RATE_MASK = 0x13.
Proof.
  unfold shutdown_ops. destruct (is_meson6 node); cbn [ops_mmio]; peel; reflexivity.
Qed.

Lemma shutdown_mode_meson6 (node : device_node) (base : Z) (m : Z -> Z) :
  is_meson6 node = true ->
  Z.land (ops_mmio base (shutdown_ops node) m (base + IR_DEC_REG1)) REG1_MODE_MASK = 0.
Proof.
  intros H. unfold shutdown_ops. rewrite H. cbn [ops_mmio]. peel. reflexivity.
Qed.

Lemma shutdown_mode_meson8b (node : device_node) (base : Z) (m : Z -> Z) :
  is_meson6 node = false ->
  Z.land (ops_mmio base (shutdown_ops node) m (base + IR_DEC_REG2)) REG2_MODE_MASK = 0.
Proof.
  intros H. unfold shutdown_ops. rewrite H. cbn [ops_mmio]. peel. reflexivity.
Qed.

Lemma shutdown_final_fields (s : state) :
  let node := dev_of_node (pdev s) in
  let s' := set_mmio (ops_mmio (reg (ir s)) (shutdown_ops node) (mmio s)) s in
  mode_field s' = DECODE_MODE_NEC /\ rate_field s' = 0x13.
Proof.
  intros node s'. unfold mode_field, rate_field.
  subst s'. cbn [pdev set_mmio]. rewrite !reg_read_set_mmio. fold node. split.
  - destruct (is_meson6 node) eqn:Hv.
    + erewrite field_get_u32; [|reflexivity|now apply shutdown_mode_meson6]. reflexivity.
    + erewrite field_get_u32; [|reflexivity|now apply shutdown_mode_meson8b]. reflexivity.
  - erewrite field_get_u32; [|reflexivity|apply shutdown_rate]. reflexivity.
Qed.

(** C7: shutdown() returns when the lock is free; under the lock, and with
    no other access than the two masked updates, it sets the mode field to
    hardware (NEC) decoding, 0 in REG1 bits[8:7] on Meson 6 and in REG2
    bits[3:0] on the later variants, and REG0 bits[11:0] to 0x13 whatever
    the rate was; the driver data (lock released, timer, sink) is as
    before. *)
Theorem meson_ir_shutdown_low_power (s : state) :
  lock (ir s) = false ->
  let base := reg (ir s) in
  let node := dev_of_node (pdev s) in
  let mode_reg := if is_meson6 node then IR_DEC_REG1 else IR_DEC_REG2 in
  exists s' r1 w1 r2 w2,
    meson_ir_shutdown s =
    Some (tt, s',
          [ EvSpinLock;
            EvReadl (base + mode_reg) r1; EvWritel w1 (base + mode_reg);
            EvReadl (base + IR_DEC_REG0) r2; EvWritel w2 (base + IR_DEC_REG0);
            EvSpinUnlock ]) /\
    (is_meson6 node = true ->
     FIELD_GET REG1_MODE_MASK (reg_read s' IR_DEC_REG1) = DECODE_MODE_NEC) /\
    (is_meson6 node = false ->
     FIELD_GET REG2_MODE_MASK (reg_read s' IR_DEC_REG2) = DECODE_MODE_NEC) /\
    FIELD_GET REG0_RATE_MASK (reg_read s' IR_DEC_REG0) = 0x13 /\
    ir s' = ir s /\ pdev s' = pdev s /\ globals s' = globals s.
Proof.
  intros Hfree base node mode_reg.
  exists (set_mmio (ops_mmio base (shutdown_ops node) (mmio s)) s).
  rewrite (meson_ir_shutdown_run s Hfree). fold base node.
  assert (Hmode6 : is_meson6 node = true ->
            FIELD_GET REG1_MODE_MASK
              (reg_read (set_mmio (ops_mmio base (shutdown_ops node) (mmio s)) s)
                        IR_DEC_REG1) = DECODE_MODE_NEC).
  { intros Hv. rewrite reg_read_set_mmio.
    erewrite field_get_u32; [|reflexivity|now apply shutdown_mode_meson6]. reflexivity. }
  assert (Hmode8 : is_meson6 node = false ->
            FIELD_GET REG2_MODE_MASK
              (reg_read (set_mmio (ops_mmio base (shutdown_ops node) (mmio s)) s)
                        IR_DEC_REG2) = DECODE_MODE_NEC).
  { intros Hv. rewrite reg_read_set_mmio.
    erewrite field_get_u32; [|reflexivity|now apply shutdown_mode_meson8b]. reflexivity. }
  assert (Hrate : FIELD_GET REG0_RATE_MASK
              (reg_read (set_mmio (ops_mmio base (shutdown_ops node) (mmio s)) s)
                        IR_DEC_REG0) = 0x13).
  { rewrite reg_read_set_mmio.
    erewrite field_get_u32; [|reflexivity|apply shutdown_rate]. reflexivity. }
  revert Hmode6 Hmode8 Hrate.
  assert (Hframe :
            ir (set_mmio (ops_mmio base (shutdown_ops node) (mmio s)) s) = ir s /\
            pdev (set_mmio (ops_mmio base (shutdown_ops node) (mmio s)) s) = pdev s /\
            globals (set_mmio (ops_mmio base (shutdown_ops node) (mmio s)) s) = globals s)
    by (repeat split; reflexivity).
  revert Hframe.
  generalize (set_mmio (ops_mmio base (shutdown_ops node) (mmio s)) s) as s'.
  intros s' Hframe Hmode6 Hmode8 Hrate.
  subst mode_reg. unfold shutdown_ops.
  destruct (is_meson6 node); cbn [ops_trace app]; do 4 eexists;
    (split; [reflexivity|]);
    (split; [exact Hmode6|]); (split; [exact Hmode8|]); (split; [exact Hrate|]);
    exact Hframe.
Qed.

Lemma testbit_read_rmw (m : Z -> Z) (base r0 mask value r n : Z) :
  0 <= n ->
  (r = r0 -> Z.testbit mask n = false) ->
  Z.testbit (u32 (rmw m (base + r0) mask value (base + r))) n =
  Z.testbit (u32 (m (base + r))) n.
Proof.
  intros Hn Hspared. destruct (Z.eq_dec r r0) as [-> | Hne].
  - rewrite rmw_same, (u32_id _ (rmw_val_range _ _ _)).
    apply testbit_rmw_val_spared; auto.
  - now rewrite rmw_other by lia.
Qed.

(** C9: shutdown() changes nothing but the mode field of the variant and
    REG0 bits[11:0]: every other bit of every register of the device reads
    as before, every other cell of the bus is untouched, and REG1 bit 15 in
    particular keeps its value, so a decoder that was enabled is still
    enabled, now in hardware-decode mode. *)
Theorem meson_ir_shutdown_frame (s : state) :
  lock (ir s) = false ->
  let base := reg (ir s) in
  let node := dev_of_node (pdev s) in
  let mode_reg := if is_meson6 node then IR_DEC_REG1 else IR_DEC_REG2 in
  exists s' tr,
    meson_ir_shutdown s = Some (tt, s', tr) /\
    (forall r n, 0 <= n -> shutdown_touches node r n = false ->
                 Z.testbit (reg_read s' r) n = Z.testbit (reg_read s r) n) /\
    (forall a, a <> base + mode_reg -> a <> base + IR_DEC_REG0 ->
               mmio s' a = mmio s a) /\
    Z.testbit (reg_read s' IR_DEC_REG1) 15 = Z.testbit (reg_read s IR_DEC_REG1) 15 /\
    (enable_field s = 1 -> enable_field s' = 1 /\ mode_field s' = DECODE_MODE_NEC).
Proof.
  intros Hfree base node mode_reg.
  pose proof (shutdown_final_fields s) as Hfin. cbv zeta in Hfin.
  destruct Hfin as [Hnec _]. fold base node in Hnec.
  remember (set_mmio (ops_mmio base (shutdown_ops node) (mmio s)) s) as s' eqn:Hs'.
  exists s'. eexists. split; [rewrite Hs'; now apply meson_ir_shutdown_run|].
  assert (Hbits : forall r n, 0 <= n -> shutdown_touches node r n = false ->
             Z.testbit (reg_read s' r) n = Z.testbit (reg_read s r) n).
  { intros r n Hn Hfalse. clear Hnec. rewrite Hs'. unfold reg_read. cbn [set_mmio mmio ir].
    fold base node. unfold shutdown_ops.
    unfold shutdown_touches in Hfalse.
    apply orb_false_iff in Hfalse. destruct Hfalse as [Hmode Hrate].
    destruct (is_meson6 node); cbn [ops_mmio].
    - rewrite !testbit_read_rmw; auto.
      + intros ->. unfold REG1_MODE_MASK. rewrite testbit_GENMASK by lia.
        now rewrite Z.eqb_refl in Hmode.
      + intros ->. unfold REG0_RATE_MASK. rewrite testbit_GENMASK by lia.
        now rewrite Z.eqb_refl in Hrate.
    - rewrite !testbit_read_rmw; auto.
      + intros ->. unfold REG2_MODE_MASK. rewrite testbit_GENMASK by lia.
        now rewrite Z.eqb_refl in Hmode.
      + intros ->. unfold REG0_RATE_MASK. rewrite testbit_GENMASK by lia.
        now rewrite Z.eqb_refl in Hrate. }
  assert (Hen : Z.testbit (reg_read s' IR_DEC_REG1) 15 =
                Z.testbit (reg_read s IR_DEC_REG1) 15).
  { apply Hbits; [lia|]. unfold shutdown_touches. destruct (is_meson6 node); reflexivity. }
  split; [exact Hbits|]. split; [|split; [exact Hen|]].
  - intros a Ha1 Ha2. rewrite Hs'. cbn [set_mmio mmio]. fold base node.
    subst mode_reg. unfold shutdown_ops.
    destruct (is_meson6 node); cbn [ops_mmio]; now rewrite !rmw_other by assumption.
  - intros Hwas. unfold enable_field in *. split.
    + apply enable_field_bit. rewrite Hen. now apply enable_field_bit.
    + exact Hnec.
Qed.

(* ------------------------------------------------------------------ *)
(** * Edge capture handler *)

Lemma BIT_pow2 (n : Z) : 0 <= n -> BIT n = 2 ^ n.
Proof. intros Hn. unfold BIT. now rewrite Z.shiftl_1_l. Qed.

Lemma land_BIT (x n : Z) :
  0 <= n -> Z.land x (BIT n) = if Z.testbit x n then BIT n else 0.
Proof.
  intros Hn. rewrite BIT_pow2 by lia. apply Z.bits_inj'. intros k Hk.
  rewrite Z.land_spec, Z.pow2_bits_eqb by lia.
  destruct (Z.eqb_spec n k) as [-> | Hne].
  - destruct (Z.testbit x k); [now rewrite Z.pow2_bits_true | now rewrite Z.bits_0].
  - rewrite andb_false_r.
    destruct (Z.testbit x n); [now rewrite Z.pow2_bits_false | now rewrite Z.bits_0].
Qed.

Lemma status_level (status : Z) :
  negb (Z.land status STATUS_IR_DEC_IN =? 0) = Z.testbit status 8.
Proof.
  unfold STATUS_IR_DEC_IN. rewrite land_BIT by lia.
  destruct (Z.testbit status 8); reflexivity.
Qed.

Lemma meson_ir_irq_run (irqno : Z) (s : state) :
  lock (ir s) = false ->
  meson_ir_irq irqno s =
  Some (IRQ_HANDLED,
        set_ir (set_timer
                  (mk_timer (function (timer (ir s)))
                            (ulong (jiffies s + usecs_to_jiffies (timeout (rc (ir s)))))
                            true)
                  (ir s)) s,
        [ EvSpinLock;
          EvReadl (reg (ir s) + IR_DEC_STATUS) (reg_read s IR_DEC_STATUS);
          EvRawStoreEdge (Z.testbit (reg_read s IR_DEC_STATUS) 8);
          EvModTimer (ulong (jiffies s + usecs_to_jiffies (timeout (rc (ir s)))));
          EvRawHandle;
          EvSpinUnlock ]).
Proof.
  intros Hfree. unfold meson_ir_irq.
  rewrite bind_spin_lock by exact Hfree. run_simpl. run_one.
  unfold bind at 1. unfold readl at 1. run_simpl.
  unfold ir_raw_event_store_edge, ir_raw_event_handle. run_one. do 2 run_one.
  unfold bind at 1. unfold mod_timer at 1. run_simpl. run_one.
  rewrite bind_spin_unlock. run_simpl. unfold ret. cbn [app].
  rewrite status_level. unfold reg_read, set_ir, set_timer.
  cbn [mmio globals jiffies pdev ir reg rc lock timer irq]. destruct s as [m g j p i].
  cbn [mmio globals jiffies pdev ir] in *. destruct i as [a r l t n].
  cbn [reg rc lock timer irq] in *. subst l. reflexivity.
Qed.

(** C6: for every interrupt the handler takes (the lock is free), the
    level of the emitted edge event is bit 8 of STATUS as read in this
    run, the timer is re-armed with the deadline now + the configured
    timeout (in ticks, at the width of unsigned long), the sink's
    processing entry point is called, and IRQ_HANDLED is returned; no run
    of the handler returns anything else. *)
Theorem meson_ir_irq_handles (irqno : Z) (s : state) :
  (lock (ir s) = false ->
   let status := reg_read s IR_DEC_STATUS in
   let deadline := ulong (jiffies s + usecs_to_jiffies (timeout (rc (ir s)))) in
   exists s',
     meson_ir_irq irqno s =
     Some (IRQ_HANDLED, s',
           [ EvSpinLock;
             EvReadl (reg (ir s) + IR_DEC_STATUS) status;
             EvRawStoreEdge (Z.testbit status 8);
             EvModTimer deadline;
             EvRawHandle;
             EvSpinUnlock ]) /\
     pending (timer (ir s')) = true /\
     expires (timer (ir s')) = deadline /\
     function (timer (ir s')) = function (timer (ir s)) /\
     lock (ir s') = false /\
     rc (ir s') = rc (ir s) /\
     mmio s' = mmio s /\ globals s' = globals s)
  /\
  (forall r s' tr, meson_ir_irq irqno s = Some (r, s', tr) -> r = IRQ_HANDLED).
Proof.
  split.
  - intros Hfree status deadline. eexists. split.
    + apply meson_ir_irq_run. exact Hfree.
    + cbn [ir set_ir set_timer timer pending expires function lock rc mmio globals].
      repeat split. exact Hfree.
  - intros r s' tr Hrun. destruct (lock (ir s)) eqn:Hlock.
    + unfold meson_ir_irq, bind, spin_lock in Hrun. rewrite Hlock in Hrun. discriminate.
    + rewrite (meson_ir_irq_run irqno s Hlock) in Hrun. now injection Hrun as <- _ _.
Qed.

(* ------------------------------------------------------------------ *)
(** * Inactivity timer *)

Lemma flush_timer_run (s : state) :
  flush_timer s = Some (tt, s, [EvRawStore (timeout_event s); EvRawHandle]).
Proof. reflexivity. Qed.

(** The edge path calls the sink under the lock. *)
Lemma meson_ir_irq_sink_locked (irqno : Z) (s s' : state) (r : irqreturn_t)
      (tr : list event) :
  meson_ir_irq irqno s = Some (r, s', tr) -> sink_calls_locked false tr = true.
Proof.
  intros Hrun. destruct (lock (ir s)) eqn:Hlock.
  - unfold meson_ir_irq, bind, spin_lock in Hrun. rewrite Hlock in Hrun. discriminate.
  - rewrite (meson_ir_irq_run irqno s Hlock) in Hrun. injection Hrun as _ _ <-.
    reflexivity.
Qed.

(** C2, as the code has it: the expiry callback builds the timeout event
    and calls the sink twice without ever taking the lock; it runs to the
    end whether or not the lock is held by another context, the lock is
    not changed, and its sink calls are not between a lock and an unlock. *)
Theorem flush_timer_takes_no_lock (s : state) :
  exists tr,
    flush_timer s = Some (tt, s, tr) /\
    tr = [EvRawStore (RawEvent.mk (timeout (rc (ir s))) false true); EvRawHandle] /\
    ~ In EvSpinLock tr /\
    sink_calls_locked false tr = false.
Proof.
  eexists. split; [apply flush_timer_run|]. split; [reflexivity|]. split.
  - cbn. intros [H | [H | []]]; discriminate.
  - reflexivity.
Qed.

(* ------------------------------------------------------------------ *)
(** * Detach *)

Lemma meson_ir_remove_run (s : state) :
  lock (ir s) = false ->
  meson_ir_remove s =
  Some (0,
        set_ir (set_timer (mk_timer (function (timer (ir s))) (expires (timer (ir s))) false)
                          (ir s))
               (set_mmio (rmw (mmio s) (reg (ir s) + IR_DEC_REG1) REG1_ENABLE 0) s),
        [ EvSpinLock;
          EvReadl (reg (ir s) + IR_DEC_REG1) (reg_read s IR_DEC_REG1);
          EvWritel (rmw_val (mmio s (reg (ir s) + IR_DEC_REG1)) REG1_ENABLE 0)
                   (reg (ir s) + IR_DEC_REG1);
          EvSpinUnlock;
          EvDelTimerSync ]).
Proof.
  intros Hfree. unfold meson_ir_remove, spin_lock_irqsave, spin_unlock_irqrestore.
  rewrite bind_spin_lock by exact Hfree. run_simpl. run_one.
  rewrite bind_spin_unlock. run_simpl.
  unfold bind, del_timer_sync, ret. run_simpl. cbn [app].
  unfold reg_read, set_ir, set_timer, set_mmio.
  cbn [mmio globals jiffies pdev ir reg rc lock timer irq].
  destruct s as [m g j p i]. cbn [mmio globals jiffies pdev ir] in *.
  destruct i as [a r l t n]. cbn [reg rc lock timer irq] in *. subst l. reflexivity.
Qed.

(** What detach does on its own: the enable bit is cleared between the
    lock and the unlock, the timer is cancelled after the unlock, and when
    it returns the decoder is disabled and the timer is not armed. *)
Lemma meson_ir_remove_order (s : state) :
  lock (ir s) = false ->
  exists s' r w,
    meson_ir_remove s =
    Some (0, s',
          [ EvSpinLock;
            EvReadl (reg (ir s) + IR_DEC_REG1) r;
            EvWritel w (reg (ir s) + IR_DEC_REG1);
            EvSpinUnlock;
            EvDelTimerSync ]) /\
    Z.testbit w 15 = false /\
    enable_field s' = 0 /\
    pending (timer (ir s')) = false /\
    lock (ir s') = false.
Proof.
  intros Hfree. do 3 eexists. split; [now apply meson_ir_remove_run|].
  split; [|split; [|split]].
  - rewrite testbit_rmw_val_masked by (try lia; reflexivity). reflexivity.
  - unfold enable_field, reg_read. cbn [set_ir set_mmio mmio ir reg set_timer].
    rewrite rmw_same, (u32_id _ (rmw_val_range _ _ _)).
    apply field_get_rmw_val; reflexivity.
  - reflexivity.
  - exact Hfree.
Qed.

Lemma run_timer_idle (s : state) :
  pending (timer (ir s)) = false -> run_timer s = Some (tt, s, []).
Proof.
  intros Hidle. unfold run_timer. do 2 run_one. rewrite Hidle. reflexivity.
Qed.

(** With no handler left to run, the timer stays silent after detach. *)
Lemma meson_ir_remove_then_silent (s : state) :
  lock (ir s) = false ->
  exists s' tr,
    meson_ir_remove s = Some (0, s', tr) /\
    run_timer s' = Some (tt, s', []).
Proof.
  intros Hfree. do 2 eexists. split; [now apply meson_ir_remove_run|].
  now apply run_timer_idle.
Qed.

Lemma run_timer_fires (s : state) :
  pending (timer (ir s)) = true ->
  time_after_eq (jiffies s) (expires (timer (ir s))) = true ->
  function (timer (ir s)) = fn_flush_timer ->
  run_timer s =
  Some (tt,
        set_ir (set_timer (mk_timer fn_flush_timer (expires (timer (ir s))) false) (ir s)) s,
        [EvRawStore (timeout_event s); EvRawHandle]).
Proof.
  intros Hp Ht Hf. unfold run_timer. do 2 run_one. rewrite Hp, Ht, Hf. cbn [andb].
  run_one. reflexivity.
Qed.

Lemma time_after_eq_refl (a : Z) : 0 < BITS_PER_LONG -> time_after_eq a a = true.
Proof.
  intros Hbits. unfold time_after_eq, ulong. rewrite Z.sub_diag, Z.mod_0_l.
  - apply Z.ltb_lt. apply Z.pow_pos_nonneg; lia.
  - apply Z.pow_nonzero; lia.
Qed.

Lemma run_step_call (w : world) (d : platform_device * meson_ir)
      (rest : list (platform_device * meson_ir)) (cb : callback)
      (r : Z) (s : state) (tr : list event) :
  w_devs w = d :: rest ->
  dispatch cb (load w d) = Some (r, s, tr) ->
  run_step (Call 0 cb) w =
  Some (r, mk_world (mmio s) (globals s) (jiffies s) ((pdev s, ir s) :: rest), tr).
Proof.
  intros Hd Hrun. unfold run_step, save. rewrite Hd. cbn [nth_error replace_nth].
  now rewrite Hrun.
Qed.

Lemma run_cons (st : step) (rest : list step) (w w1 : world) (r : Z) (tr : list event) :
  run_step st w = Some (r, w1, tr) ->
  run (st :: rest) w =
  match run rest w1 with
  | None => None
  | Some (w2, tr2) =>
      Some (w2, map (pair (match st with Call n _ => n | _ => O end)) tr ++ tr2)
  end.
Proof. intros H. cbn [run]. now rewrite H. Qed.

Lemma dispatch_irq_run (s : state) :
  lock (ir s) = false ->
  dispatch CbIrq s =
  Some (1,
        set_ir (set_timer
                  (mk_timer (function (timer (ir s)))
                            (ulong (jiffies s + usecs_to_jiffies (timeout (rc (ir s)))))
                            true)
                  (ir s)) s,
        [ EvSpinLock;
          EvReadl (reg (ir s) + IR_DEC_STATUS) (reg_read s IR_DEC_STATUS);
          EvRawStoreEdge (Z.testbit (reg_read s IR_DEC_STATUS) 8);
          EvModTimer (ulong (jiffies s + usecs_to_jiffies (timeout (rc (ir s)))));
          EvRawHandle;
          EvSpinUnlock ]).
Proof.
  intros Hfree. cbn [dispatch]. rewrite bind_get.
  rewrite (bind_run _ _ _ _ _ _ (meson_ir_irq_run (irq (ir s)) s Hfree)).
  reflexivity.
Qed.

Lemma dispatch_timer_fires (s : state) :
  pending (timer (ir s)) = true ->
  time_after_eq (jiffies s) (expires (timer (ir s))) = true ->
  function (timer (ir s)) = fn_flush_timer ->
  dispatch CbTimer s =
  Some (0,
        set_ir (set_timer (mk_timer fn_flush_timer (expires (timer (ir s))) false) (ir s)) s,
        [EvRawStore (timeout_event s); EvRawHandle]).
Proof.
  intros Hp Ht Hf. cbn [dispatch].
  rewrite (bind_run _ _ _ _ _ _ (run_timer_fires s Hp Ht Hf)). reflexivity.
Qed.

(** C4, as the code has it: detach clears the enable bit under the lock
    and cancels the timer afterwards, and yet an edge handler that was
    already in flight and gets to run after the cancellation re-arms the
    timer: it then fires after detach has returned.  The schedule is
    detach, the pending handler, the timeout interval, the timer service;
    the trace ends with the timeout event delivered to the sink. *)
Theorem detach_then_inflight_edge_fires (w : world) (d : platform_device * meson_ir)
        (rest : list (platform_device * meson_ir)) :
  w_devs w = d :: rest ->
  lock (snd d) = false ->
  function (timer (snd d)) = fn_flush_timer ->
  0 < BITS_PER_LONG ->
  let base := reg (snd d) in
  let tmo := timeout (rc (snd d)) in
  exists w' r1 w1 status deadline,
    run [Call 0 CbRemove; Call 0 CbIrq; Tick (usecs_to_jiffies tmo); Call 0 CbTimer] w =
    Some (w',
          map (pair O)
              [ EvSpinLock;
                EvReadl (base + IR_DEC_REG1) r1;
                EvWritel w1 (base + IR_DEC_REG1);
                EvSpinUnlock;
                EvDelTimerSync;
                EvSpinLock;
                EvReadl (base + IR_DEC_STATUS) status;
                EvRawStoreEdge (Z.testbit status 8);
                EvModTimer deadline;
                EvRawHandle;
                EvSpinUnlock;
                EvRawStore (RawEvent.mk tmo false true);
                EvRawHandle ]) /\
    Z.testbit w1 15 = false.
Proof.
  intros Hd Hfree Hfn Hbits base tmo.
  destruct d as [p i]. cbn [snd] in *.
  (* detach *)
  pose proof (meson_ir_remove_run (load w (p, i)) Hfree) as Hrm.
  cbn [load ir mmio fst snd] in Hrm.
  erewrite run_cons;
    [|eapply run_step_call; [exact Hd|]; cbn [dispatch]; exact Hrm].
  cbn [mmio globals jiffies pdev ir set_ir set_mmio load fst snd].
  (* the handler that was in flight *)
  erewrite run_cons;
    [|eapply run_step_call; [reflexivity|]; apply dispatch_irq_run; exact Hfree].
  cbn [mmio globals jiffies pdev ir set_ir set_mmio set_timer load fst snd w_mmio
       w_globals w_jiffies w_devs reg rc lock timer irq].
  (* the timeout interval passes *)
  erewrite run_cons; [|reflexivity].
  cbn [w_mmio w_globals w_jiffies w_devs].
  (* the timer service *)
  erewrite run_cons;
    [|eapply run_step_call; [reflexivity|]; apply dispatch_timer_fires;
      [reflexivity
      |cbn [load jiffies ir timer expires w_jiffies fst snd];
       apply time_after_eq_refl; exact Hbits
      |exact Hfn]].
  cbn [run map app].
  do 5 eexists. split; [reflexivity|].
  rewrite testbit_rmw_val_masked by (try lia; reflexivity). reflexivity.
Qed.

(* ------------------------------------------------------------------ *)
(** * The sink's descriptor *)

(** When every acquisition succeeds, attach returns 0. *)
Lemma meson_ir_probe_succeeds (s : state) (base : Z) :
  kzalloc_ok (pdev s) = true ->
  ioremap_resource (pdev s) = inl base ->
  0 <= platform_irq (pdev s) ->
  rc_allocate_ok (pdev s) = true ->
  rc_register_ret (pdev s) = 0 ->
  request_irq_ret (pdev s) = 0 ->
  pinctrl_err (pdev s) = None ->
  exists s' tr, meson_ir_probe s = Some (0, s', tr).
Proof.
  intros Hk Hio Hirq Hrc Hreg Hreq Hpin.
  unfold meson_ir_probe. run_one. rewrite Hk, Hio. cbn [negb]. do 3 run_one.
  replace (platform_irq (pdev s) <? 0) with false by (symmetry; apply Z.ltb_ge; lia).
  rewrite Hrc, Hreg, Hreq, Hpin. cbn [negb Z.eqb]. do 2 run_one.
  unfold timer_setup. run_one.
  rewrite bind_init. run_simpl.
  repeat (rewrite bind_backup; run_simpl).
  unfold dev_info. run_one. unfold ret. do 2 eexists. reflexivity.
Qed.

(** C10: every successful attach leaves the sink's descriptor with
    rx_resolution 10 us, min_timeout 1 us, timeout 125000 us and
    max_timeout 1250000 us; the default timeout lies within the bounds. *)
Theorem meson_ir_probe_descriptor (s s' : state) (tr : list event) :
  meson_ir_probe s = Some (0, s', tr) ->
  rx_resolution (rc (ir s')) = 10 /\
  min_timeout (rc (ir s')) = 1 /\
  timeout (rc (ir s')) = 125000 /\
  max_timeout (rc (ir s')) = 1250000 /\
  min_timeout (rc (ir s')) <= timeout (rc (ir s')) <= max_timeout (rc (ir s')).
Proof.
  intros Hprobe.
  destruct (meson_ir_probe_ok s s' tr Hprobe) as (base & _ & _ & Hir & _).
  rewrite Hir. cbn [probed_ir rc probe_rc_dev rx_resolution min_timeout timeout max_timeout].
  unfold MESON_TRATE, MS_TO_US. repeat split; lia.
Qed.

(* ------------------------------------------------------------------ *)
(** * Resume *)

Lemma bind_restore {B : Type} (g : global) (k : unit -> M B) (s : state) :
  bind (restore g) k s =
  match k tt (set_mmio (rmw (mmio s) (reg (ir s) + backup_source g)
                            (globals s g) (globals s g)) s) with
  | None => None
  | Some (b, s2, t2) =>
      Some (b, s2,
            [EvReadl (reg (ir s) + backup_source g) (reg_read s (backup_source g));
             EvWritel (rmw_val (mmio s (reg (ir s) + backup_source g))
                               (globals s g) (globals s g))
                      (reg (ir s) + backup_source g)] ++ t2)
  end.
Proof.
  apply bind_run. unfold restore. rewrite bind_get. apply meson_ir_set_mask_run.
Qed.

Lemma meson_ir_resume_run (s : state) :
  lock (ir s) = false ->
  let base := reg (ir s) in
  let restored := ops_mmio base (restore_ops (globals s)) (mmio s) in
  meson_ir_resume s =
  Some (0,
        set_mmio (ops_mmio base (init_ops (dev_of_node (pdev s))) restored) s,
        [EvSpinLock]
          ++ ops_trace base (restore_ops (globals s)) (mmio s)
          ++ ops_trace base (init_ops (dev_of_node (pdev s))) restored
          ++ [resume_irq_event (irq (ir s)); EvSpinUnlock; EvDevInfo "receiver resumed"]).
Proof.
  intros Hfree base restored. subst base restored.
  unfold meson_ir_resume, spin_lock_irqsave, spin_unlock_irqrestore, resume_irq_event.
  rewrite bind_spin_lock by exact Hfree. run_simpl.
  repeat (rewrite bind_restore; run_simpl).
  rewrite bind_init. run_simpl. run_one.
  unfold enable_irq, enable_irq_wake, dev_info.
  destruct CONFIG_AMLOGIC_MODIFY; run_one; rewrite bind_spin_unlock; run_simpl;
    run_one; unfold ret; cbn [restore_ops map ops_mmio ops_trace app];
    unfold reg_read, set_mmio, set_ir, set_lock;
    cbn [mmio globals jiffies pdev ir reg rc lock timer irq];
    rewrite (relock_id (ir s) Hfree); reflexivity.
Qed.

(** Whatever the registers and the snapshot hold when resume starts, it
    leaves the four configuration fields as [meson_ir_init] sets them. *)
Lemma meson_ir_resume_fields (s : state) :
  lock (ir s) = false ->
  exists s' tr,
    meson_ir_resume s = Some (0, s', tr) /\
    mode_field s' = DECODE_MODE_RAW /\
    rate_field s' = MESON_TRATE - 1 /\
    irqsel_field s' = REG1_IRQSEL_RISE_FALL /\
    pol_field s' = (if pulse_inverted (dev_of_node (pdev s)) then 1 else 0) /\
    ir s' = ir s /\ pdev s' = pdev s /\ globals s' = globals s.
Proof.
  intros Hfree. do 2 eexists. split; [now apply meson_ir_resume_run|].
  pose proof (init_final_fields
                (set_mmio (ops_mmio (reg (ir s)) (restore_ops (globals s)) (mmio s)) s))
    as Hfin.
  cbv zeta in Hfin. cbn [set_mmio pdev ir mmio] in Hfin.
  destruct Hfin as (Hmode & Hrate & Hsel & Hpol & _).
  repeat split; assumption.
Qed.

Lemma fields_ext (s t : state) :
  mmio s = mmio t -> pdev s = pdev t -> reg (ir s) = reg (ir t) ->
  mode_field s = mode_field t /\ rate_field s = rate_field t /\
  irqsel_field s = irqsel_field t /\ pol_field s = pol_field t /\
  enable_field s = enable_field t.
Proof.
  intros Hm Hp Hr.
  unfold mode_field, rate_field, irqsel_field, pol_field, enable_field, reg_read.
  rewrite Hm, Hp, Hr. repeat split.
Qed.

(** The fields a successful attach leaves. *)
Lemma meson_ir_probe_fields (s s' : state) (tr : list event) :
  meson_ir_probe s = Some (0, s', tr) ->
  mode_field s' = DECODE_MODE_RAW /\
  rate_field s' = MESON_TRATE - 1 /\
  irqsel_field s' = REG1_IRQSEL_RISE_FALL /\
  pol_field s' = (if pulse_inverted (dev_of_node (pdev s)) then 1 else 0) /\
  enable_field s' = 1.
Proof.
  intros Hprobe.
  destruct (meson_ir_probe_ok s s' tr Hprobe) as (b & _ & Hmm & Hir & Hpd & _ & _).
  pose proof (init_final_fields (set_ir (probed_ir (pdev s) b) s)) as Hfin.
  cbv zeta in Hfin. cbn [pdev ir set_ir mmio probed_ir reg] in Hfin.
  destruct Hfin as (Hmode & Hrate & Hsel & Hpol & Hen & _).
  destruct (fields_ext s'
              (set_mmio (ops_mmio b (init_ops (dev_of_node (pdev s))) (mmio s))
                        (set_ir (probed_ir (pdev s) b) s)))
    as (E1 & E2 & E3 & E4 & E5).
  - exact Hmm.
  - exact Hpd.
  - now rewrite Hir.
  - rewrite E1, E2, E3, E4, E5. repeat split; assumption.
Qed.

(** C3: after a successful attach (configure(), then the capture of the
    snapshot from the six registers), resume returns; it is the masked
    restore of the six captured registers with mask = value followed by
    configure() again for the same device, and it leaves the mode,
    sample-rate, irq-select and polarity fields equal to what they were
    right after the first configure(). *)
Theorem resume_round_trip (s0 s1 : state) (tr1 : list event) :
  meson_ir_probe s0 = Some (0, s1, tr1) ->
  exists s2 tr2,
    meson_ir_resume s1 = Some (0, s2, tr2) /\
    (forall g, globals s1 g = reg_read s1 (backup_source g)) /\
    mmio s2 =
      ops_mmio (reg (ir s1)) (init_ops (dev_of_node (pdev s1)))
               (ops_mmio (reg (ir s1)) (restore_ops (globals s1)) (mmio s1)) /\
    mode_field s2 = mode_field s1 /\
    rate_field s2 = rate_field s1 /\
    irqsel_field s2 = irqsel_field s1 /\
    pol_field s2 = pol_field s1.
Proof.
  intros Hprobe.
  destruct (meson_ir_probe_fields s0 s1 tr1 Hprobe) as (Hmode & Hrate & Hsel & Hpol & _).
  destruct (meson_ir_probe_ok s0 s1 tr1 Hprobe) as (b & _ & _ & Hir & Hpd & _ & Hsnap).
  assert (Hfree : lock (ir s1) = false) by now rewrite Hir.
  destruct (meson_ir_resume_fields s1 Hfree)
    as (s2 & tr2 & Hrun & Hmode2 & Hrate2 & Hsel2 & Hpol2 & _).
  exists s2, tr2. split; [exact Hrun|]. split; [exact Hsnap|]. split.
  - pose proof (meson_ir_resume_run s1 Hfree) as Hrun'. cbv zeta in Hrun'.
    rewrite Hrun in Hrun'. now injection Hrun' as -> _.
  - rewrite Hmode, Hrate, Hsel, Hpol, Hmode2, Hrate2, Hsel2, Hpol2, Hpd.
    repeat split.
Qed.

(* ------------------------------------------------------------------ *)
(** * The snapshot *)

Lemma keeps_bind {A B : Type} (m : M A) (k : A -> M B) :
  keeps_globals m -> (forall a, keeps_globals (k a)) -> keeps_globals (bind m k).
Proof.
  intros Hm Hk s b s' tr. unfold bind.
  destruct (m s) as [[[a s1] t1]|] eqn:E1; [|discriminate].
  destruct (k a s1) as [[[b' s2] t2]|] eqn:E2; [|discriminate].
  intros H. injection H as <- <- <-.
  rewrite (Hk a _ _ _ _ E2). exact (Hm _ _ _ _ E1).
Qed.

Lemma keeps_ret {A : Type} (a : A) : keeps_globals (ret a).
Proof. intros s b s' tr H. now injection H as _ <- _. Qed.

Lemma keeps_get {A : Type} (f : state -> A) : keeps_globals (get f).
Proof. intros s b s' tr H. now injection H as _ <- _. Qed.

Lemma keeps_emit (e : event) : keeps_globals (emit e).
Proof. intros s b s' tr H. now injection H as _ <- _. Qed.

Lemma keeps_modify (f : state -> state) :
  (forall s, globals (f s) = globals s) -> keeps_globals (modify f).
Proof. intros Hf s b s' tr H. injection H as _ <- _. apply Hf. Qed.

Lemma keeps_readl (a : Z) : keeps_globals (readl a).
Proof. intros s b s' tr H. now injection H as _ <- _. Qed.

Lemma keeps_writel (v a : Z) : keeps_globals (writel v a).
Proof. intros s b s' tr H. now injection H as _ <- _. Qed.

Lemma keeps_spin_lock : keeps_globals spin_lock.
Proof.
  intros s b s' tr. unfold spin_lock. destruct (lock (ir s)); [discriminate|].
  intros H. now injection H as _ <- _.
Qed.

Lemma keeps_spin_unlock : keeps_globals spin_unlock.
Proof. intros s b s' tr H. now injection H as _ <- _. Qed.

Lemma keeps_mod_timer (d : Z) : keeps_globals (mod_timer d).
Proof. intros s b s' tr H. now injection H as _ <- _. Qed.

Lemma keeps_del_timer_sync : keeps_globals del_timer_sync.
Proof. intros s b s' tr H. now injection H as _ <- _. Qed.

Lemma keeps_if {A : Type} (c : bool) (m1 m2 : M A) :
  keeps_globals m1 -> keeps_globals m2 -> keeps_globals (if c then m1 else m2).
Proof. now destruct c. Qed.

Ltac keeps :=
  repeat first
    [ apply keeps_bind; [|intros ?]
    | apply keeps_if
    | apply keeps_ret | apply keeps_get | apply keeps_emit
    | apply keeps_readl | apply keeps_writel
    | apply keeps_spin_lock | apply keeps_spin_unlock
    | apply keeps_mod_timer | apply keeps_del_timer_sync
    | apply keeps_modify; intros ?; reflexivity ].

Lemma keeps_set_mask (r mask value : Z) : keeps_globals (meson_ir_set_mask r mask value).
Proof. unfold meson_ir_set_mask, meson_ir_get_reg. keeps. Qed.

Lemma keeps_get_reg (r : Z) : keeps_globals (meson_ir_get_reg r).
Proof. unfold meson_ir_get_reg. keeps. Qed.

Lemma keeps_init : keeps_globals meson_ir_init.
Proof.
  unfold meson_ir_init.
  repeat first [ apply keeps_set_mask | apply keeps_get_reg | progress keeps ].
Qed.

Lemma keeps_flush_timer : keeps_globals flush_timer.
Proof. unfold flush_timer, ir_raw_event_store, ir_raw_event_handle. keeps. Qed.

(** Every entry point of the driver but attach leaves the snapshot as it
    finds it. *)
Lemma keeps_dispatch (cb : callback) : cb <> CbProbe -> keeps_globals (dispatch cb).
Proof.
  intros Hcb. destruct cb; [congruence| | | | | |]; cbn [dispatch].
  - unfold meson_ir_remove, spin_lock_irqsave, spin_unlock_irqrestore.
    repeat first [ apply keeps_set_mask | progress keeps ].
  - unfold meson_ir_shutdown, spin_lock_irqsave, spin_unlock_irqrestore.
    repeat first [ apply keeps_set_mask | progress keeps ].
  - unfold meson_ir_suspend, spin_lock_irqsave, spin_unlock_irqrestore,
      disable_irq, disable_irq_wake, dev_info.
    keeps.
  - unfold meson_ir_resume, restore, spin_lock_irqsave, spin_unlock_irqrestore,
      enable_irq, enable_irq_wake, dev_info.
    repeat first [ apply keeps_set_mask | apply keeps_init | progress keeps ].
  - unfold meson_ir_irq, ir_raw_event_store_edge, ir_raw_event_handle. keeps.
  - unfold run_timer. keeps. destruct (function a); [apply keeps_ret | apply keeps_flush_timer].
Qed.

Lemma run_step_call_inv (n : nat) (cb : callback) (w w' : world) (r : Z) (tr : list event) :
  run_step (Call n cb) w = Some (r, w', tr) ->
  exists d s',
    nth_error (w_devs w) n = Some d /\
    dispatch cb (load w d) = Some (r, s', tr) /\
    w' = save n s' w.
Proof.
  unfold run_step. destruct (nth_error (w_devs w) n) as [d|]; [|discriminate].
  destruct (dispatch cb (load w d)) as [[[r' s'] tr']|] eqn:E; [|discriminate].
  intros H. injection H as <- <- <-. now exists d, s'.
Qed.

Lemma meson_ir_probe_returns (s : state) :
  exists s' tr,
    meson_ir_probe s = Some (probe_code (pdev s), s', tr) /\
    (probe_code (pdev s) <> 0 ->
     mmio s' = mmio s /\ globals s' = globals s /\ filter is_mmio tr = []).
Proof.
  unfold meson_ir_probe, probe_code. run_one.
  destruct (kzalloc_ok (pdev s)); cbn [negb];
    [|do 2 eexists; split; [reflexivity|]; intros _; repeat split].
  run_one.
  destruct (ioremap_resource (pdev s)) as [base | errno];
    [|do 2 eexists; split; [reflexivity|]; intros _; repeat split].
  do 2 run_one.
  destruct (platform_irq (pdev s) <? 0);
    [do 2 eexists; split; [reflexivity|]; intros _; repeat split|].
  destruct (rc_allocate_ok (pdev s)); cbn [negb];
    [|unfold dev_err; run_one; do 2 eexists; split; [reflexivity|]; intros _; repeat split].
  do 2 run_one.
  destruct (rc_register_ret (pdev s) =? 0); cbn [negb];
    [|unfold dev_err; run_one; do 2 eexists; split; [reflexivity|]; intros _; repeat split].
  unfold timer_setup. run_one.
  destruct (request_irq_ret (pdev s) =? 0); cbn [negb];
    [|unfold dev_err; run_one; do 2 eexists; split; [reflexivity|]; intros _; repeat split].
  destruct (pinctrl_err (pdev s));
    [unfold dev_err; run_one; do 2 eexists; split; [reflexivity|]; intros _; repeat split|].
  rewrite bind_init. run_simpl.
  repeat (rewrite bind_backup; run_simpl).
  unfold dev_info. run_one. unfold ret. do 2 eexists. split; [reflexivity|].
  intros H. now contradiction H.
Qed.

(** A step that is not a successful attach leaves the snapshot as it
    finds it. *)
Lemma run_step_keeps_globals (st : step) (w w' : world) (r : Z) (tr : list event) :
  negb (is_attach st) || negb (r =? 0) = true ->
  run_step st w = Some (r, w', tr) ->
  w_globals w' = w_globals w.
Proof.
  intros Hst Hrun. destruct st as [n cb | a v | dt].
  - destruct (run_step_call_inv n cb w w' r tr Hrun) as (d & s' & _ & Hd & ->).
    cbn [save w_globals].
    assert (Hcases : cb = CbProbe \/ cb <> CbProbe)
      by (destruct cb; (now left) || (right; discriminate)).
    destruct Hcases as [-> | Hcb].
    + cbn [is_attach negb orb] in Hst. apply negb_true_iff, Z.eqb_neq in Hst.
      cbn [dispatch] in Hd.
      destruct (meson_ir_probe_returns (load w d)) as (s1 & tr1 & Hrun1 & Hfail).
      rewrite Hrun1 in Hd. injection Hd as Hr <- _. subst r.
      destruct (Hfail Hst) as (_ & Hg & _). exact Hg.
    + exact (keeps_dispatch cb Hcb _ _ _ _ Hd).
  - cbn in Hrun. now injection Hrun as _ <- _.
  - cbn in Hrun. now injection Hrun as _ <- _.
Qed.

Lemma run_keeps_globals (sched : list step) (w w' : world) (tr : list (nat * event)) :
  attaches_fail sched w = true ->
  run sched w = Some (w', tr) ->
  w_globals w' = w_globals w.
Proof.
  revert w tr. induction sched as [|st rest IH]; intros w tr Hno Hrun.
  - cbn in Hrun. now injection Hrun as <- _.
  - cbn [attaches_fail] in Hno. cbn [run] in Hrun.
    destruct (run_step st w) as [[[r w1] t1]|] eqn:E1; [|discriminate].
    apply andb_true_iff in Hno. destruct Hno as [Hst Hrest].
    destruct (run rest w1) as [[w2 t2]|] eqn:E2; [|discriminate].
    injection Hrun as <- _.
    rewrite (IH w1 t2 Hrest E2).
    exact (run_step_keeps_globals st w w1 r t1 Hst E1).
Qed.

Lemma nth_error_replace_nth {A : Type} (n : nat) (x y : A) (l : list A) :
  nth_error l n = Some y -> nth_error (replace_nth n x l) n = Some x.
Proof.
  revert n. induction l as [|h t IH]; intros [|n]; cbn; try discriminate; auto.
Qed.

(** C1, as the code has it: the snapshot is one set of module variables
    shared by all devices.  Whatever happened before (another device's
    attach, say), once device [b] has attached, and for any later activity
    of any device in which no attach succeeds (interrupts, timer expiries,
    suspends, resumes, shutdowns, detaches, attaches that fail, register
    changes by the hardware, the passing of time), the snapshot holds the
    six registers of [b] as its attach read them; and the resume of any
    device [a] restores these values onto its own registers before it
    configures them again. *)
Theorem snapshot_of_last_attach (w1 w2 w3 : world) (b : nat) (tr2 : list event)
        (post : list step) (tr3 : list (nat * event)) :
  run_step (Call b CbProbe) w1 = Some (0, w2, tr2) ->
  attaches_fail post w2 = true ->
  run post w2 = Some (w3, tr3) ->
  exists db,
    nth_error (w_devs w2) b = Some db /\
    (forall g, w_globals w3 g = u32 (w_mmio w2 (reg (snd db) + backup_source g))) /\
    (forall a da r w4 tr4,
        nth_error (w_devs w3) a = Some da ->
        run_step (Call a CbResume) w3 = Some (r, w4, tr4) ->
        w_mmio w4 =
        ops_mmio (reg (snd da)) (init_ops (dev_of_node (fst da)))
                 (ops_mmio (reg (snd da)) (restore_ops (w_globals w2)) (w_mmio w3))).
Proof.
  intros Hprobe Hno Hpost.
  destruct (run_step_call_inv b CbProbe w1 w2 0 tr2 Hprobe) as (d & s' & Hd & Hrun & ->).
  cbn [dispatch] in Hrun.
  destruct (meson_ir_probe_ok _ _ _ Hrun) as (base & _ & _ & _ & _ & _ & Hsnap).
  pose proof (run_keeps_globals post _ w3 tr3 Hno Hpost) as Hkeep.
  exists (pdev s', ir s'). split; [|split].
  - cbn [save w_devs]. eapply nth_error_replace_nth. exact Hd.
  - intros g. rewrite Hkeep. cbn [save w_globals w_mmio snd]. apply Hsnap.
  - intros a da r w4 tr4 Hda Hres.
    destruct (run_step_call_inv a CbResume w3 w4 r tr4 Hres) as (d' & s4 & Hd' & Hrun4 & ->).
    rewrite Hda in Hd'. injection Hd' as <-.
    cbn [dispatch] in Hrun4.
    destruct (lock (snd da)) eqn:Hlock.
    + unfold meson_ir_resume, spin_lock_irqsave, bind, spin_lock in Hrun4.
      cbn [load ir] in Hrun4. rewrite Hlock in Hrun4. discriminate.
    + rewrite (meson_ir_resume_run (load w3 da) Hlock) in Hrun4.
      injection Hrun4 as _ <- _.
      cbn [save w_mmio set_mmio mmio load ir pdev globals]. now rewrite Hkeep.
Qed.

(* ------------------------------------------------------------------ *)
(** * Register programs, register by register *)

Lemma rmw_val_compose (x m1 v1 m2 v2 : Z) :
  rmw_val (rmw_val x m1 v1) m2 v2 =
  rmw_val x (Z.lor m1 m2)
          (Z.lor (Z.land (Z.land v1 m1) (Z.lnot m2)) (Z.land v2 m2)).
Proof.
  apply Z.bits_inj'. intros n Hn.
  rewrite !testbit_rmw_val, !Z.lor_spec, !Z.land_spec, Z.lnot_spec by lia.
  destruct (Z.testbit x n), (Z.testbit m1 n), (Z.testbit v1 n), (Z.testbit m2 n),
    (Z.testbit v2 n), (n <? 32); reflexivity.
Qed.

Lemma rmw_val_none (x : Z) : rmw_val x 0 0 = u32 x.
Proof.
  apply Z.bits_inj'. intros n Hn.
  rewrite testbit_rmw_val, testbit_u32, Z.bits_0 by lia.
  destruct (Z.testbit x n), (n <? 32); reflexivity.
Qed.

Lemma rmw_val_u32 (x m v : Z) : rmw_val (u32 x) m v = rmw_val x m v.
Proof.
  apply Z.bits_inj'. intros n Hn.
  rewrite !testbit_rmw_val, testbit_u32 by lia.
  destruct (Z.testbit x n), (Z.testbit m n), (Z.testbit v n), (n <? 32); reflexivity.
Qed.

Lemma rmw_val_twice (x m v : Z) : rmw_val (rmw_val x m v) m v = rmw_val x m v.
Proof.
  apply Z.bits_inj'. intros n Hn.
  rewrite !testbit_rmw_val by lia.
  destruct (Z.testbit x n), (Z.testbit m n), (Z.testbit v n), (n <? 32); reflexivity.
Qed.

(** Restoring with mask = value sets bits and clears none. *)
Lemma rmw_val_or (x v : Z) : rmw_val x v v = Z.lor (u32 x) (u32 v).
Proof.
  apply Z.bits_inj'. intros n Hn.
  rewrite testbit_rmw_val, Z.lor_spec, !testbit_u32 by lia.
  destruct (Z.testbit x n), (Z.testbit v n), (n <? 32); reflexivity.
Qed.

Lemma add_cancel_eqb (base r r0 : Z) : (base + r =? base + r0) = (r =? r0).
Proof.
  destruct (Z.eqb_spec r r0) as [-> | Hne].
  - apply Z.eqb_refl.
  - apply Z.eqb_neq. lia.
Qed.

(** What a register reads after a register program: one masked update of
    what it held. *)
Lemma ops_read (base : Z) (ops : list regop) (m : Z -> Z) (r : Z) :
  u32 (ops_mmio base ops m (base + r)) =
  rmw_val (m (base + r)) (ops_mask ops r) (ops_value ops r).
Proof.
  revert m. induction ops as [|[r0 mask value | r0] rest IH]; intros m.
  - cbn [ops_mmio ops_mask ops_value]. now rewrite rmw_val_none.
  - cbn [ops_mmio ops_mask ops_value]. rewrite IH.
    destruct (Z.eqb_spec r r0) as [-> | Hne].
    + now rewrite rmw_same, rmw_val_compose.
    + now rewrite rmw_other by lia.
  - cbn [ops_mmio ops_mask ops_value]. apply IH.
Qed.

(** A register program leaves the cells it does not name alone. *)
Lemma ops_mmio_frame (base : Z) (ops : list regop) (m : Z -> Z) (a : Z) :
  (forall r0 mask value, In (OpUpdate r0 mask value) ops -> a <> base + r0) ->
  ops_mmio base ops m a = m a.
Proof.
  revert m. induction ops as [|[r0 mask value | r0] rest IH]; intros m Hout.
  - reflexivity.
  - cbn [ops_mmio]. rewrite IH.
    + apply rmw_other. apply (Hout r0 mask value). now left.
    + intros r1 m1 v1 Hin. apply (Hout r1 m1 v1). now right.
  - cbn [ops_mmio]. apply IH. intros r1 m1 v1 Hin. apply (Hout r1 m1 v1). now right.
Qed.

Lemma init_ops_mask (node : device_node) (r : Z) :
  ops_mask (init_ops node) r = init_mask node r.
Proof.
  unfold init_ops, init_mask.
  destruct (is_meson6 node); cbn [ops_mask];
    destruct (Z.eqb_spec r IR_DEC_REG0) as [-> | H0]; try reflexivity;
    destruct (Z.eqb_spec r IR_DEC_REG1) as [-> | H1]; try reflexivity;
    destruct (Z.eqb_spec r IR_DEC_REG2) as [-> | H2]; reflexivity.
Qed.

Lemma init_ops_value (node : device_node) (r : Z) :
  ops_value (init_ops node) r = init_value node r.
Proof.
  unfold init_ops, init_value.
  destruct (is_meson6 node), (pulse_inverted node); cbn [ops_value ops_mask];
    destruct (Z.eqb_spec r IR_DEC_REG0) as [-> | H0]; try reflexivity;
    destruct (Z.eqb_spec r IR_DEC_REG1) as [-> | H1]; try reflexivity;
    destruct (Z.eqb_spec r IR_DEC_REG2) as [-> | H2]; reflexivity.
Qed.

Lemma init_mask_u32 (node : device_node) (r : Z) : is_u32 (init_mask node r).
Proof.
  unfold init_mask, is_u32.
  destruct (r =? IR_DEC_REG0), (r =? IR_DEC_REG1), (r =? IR_DEC_REG2), (is_meson6 node);
    lia.
Qed.

Lemma init_value_under_mask (node : device_node) (r : Z) :
  Z.land (init_value node r) (init_mask node r) = init_value node r.
Proof.
  unfold init_mask, init_value.
  destruct (r =? IR_DEC_REG0), (r =? IR_DEC_REG1), (r =? IR_DEC_REG2), (is_meson6 node),
    (pulse_inverted node); reflexivity.
Qed.

Lemma init_read (node : device_node) (base : Z) (m : Z -> Z) (r : Z) :
  u32 (ops_mmio base (init_ops node) m (base + r)) =
  rmw_val (m (base + r)) (init_mask node r) (init_value node r).
Proof. now rewrite ops_read, init_ops_mask, init_ops_value. Qed.


(** X2: configure() is idempotent on the registers: run twice in a row,
    the second run leaves every cell of the bus reading what the first one
    left. *)
Theorem meson_ir_init_idempotent (s : state) :
  exists s1 tr1 s2 tr2,
    meson_ir_init s = Some (tt, s1, tr1) /\
    meson_ir_init s1 = Some (tt, s2, tr2) /\
    forall r, reg_read s2 r = reg_read s1 r.
Proof.
  do 4 eexists. split; [apply meson_ir_init_run|]. split; [apply meson_ir_init_run|].
  intros r. rewrite !reg_read_set_mmio. cbn [set_mmio mmio ir pdev].
  rewrite (init_read _ _ (ops_mmio _ _ _)), <- rmw_val_u32, !init_read.
  apply rmw_val_twice.
Qed.

Lemma backup_of_source (r : Z) (g : global) : backup_of r = Some g -> backup_source g = r.
Proof.
  unfold backup_of.
  repeat match goal with
         | |- context [?a =? ?b] => destruct (Z.eqb_spec a b) as [-> | ?]
         end; intros H; try discriminate H; injection H as <-; reflexivity.
Qed.

(** What a register reads after the restore part of resume. *)
Lemma restore_read (base : Z) (g : global -> Z) (m : Z -> Z) (r : Z) :
  u32 (ops_mmio base (restore_ops g) m (base + r)) =
  match backup_of r with
  | Some v => Z.lor (u32 (m (base + r))) (u32 (g v))
  | None => u32 (m (base + r))
  end.
Proof.
  unfold restore_ops, backup_of. cbn [map ops_mmio backup_source].
  destruct (Z.eqb_spec r IR_DEC_REG0) as [-> | H0];
    [repeat first [rewrite rmw_other by addr_neq | rewrite rmw_same];
     rewrite u32_id by apply rmw_val_range; apply rmw_val_or|].
  destruct (Z.eqb_spec r IR_DEC_REG1) as [-> | H1];
    [repeat first [rewrite rmw_other by addr_neq | rewrite rmw_same];
     rewrite u32_id by apply rmw_val_range; apply rmw_val_or|].
  destruct (Z.eqb_spec r IR_DEC_LDR_ACTIVE) as [-> | H2];
    [repeat first [rewrite rmw_other by addr_neq | rewrite rmw_same];
     rewrite u32_id by apply rmw_val_range; apply rmw_val_or|].
  destruct (Z.eqb_spec r IR_DEC_LDR_IDLE) as [-> | H3];
    [repeat first [rewrite rmw_other by addr_neq | rewrite rmw_same];
     rewrite u32_id by apply rmw_val_range; apply rmw_val_or|].
  destruct (Z.eqb_spec r IR_DEC_BIT_0) as [-> | H4];
    [repeat first [rewrite rmw_other by addr_neq | rewrite rmw_same];
     rewrite u32_id by apply rmw_val_range; apply rmw_val_or|].
  destruct (Z.eqb_spec r IR_DEC_LDR_REPEAT) as [-> | H5];
    [repeat first [rewrite rmw_other by addr_neq | rewrite rmw_same];
     rewrite u32_id by apply rmw_val_range; apply rmw_val_or|].
  now rewrite !rmw_other by lia.
Qed.

(** What a register reads after resume, from what it read before and the
    snapshot. *)
Lemma meson_ir_resume_read (s : state) (r : Z) :
  reg_read
    (set_mmio (ops_mmio (reg (ir s)) (init_ops (dev_of_node (pdev s)))
                        (ops_mmio (reg (ir s)) (restore_ops (globals s)) (mmio s))) s) r =
  rmw_val (match backup_of r with
           | Some v => Z.lor (reg_read s r) (u32 (globals s v))
           | None => reg_read s r
           end)
          (init_mask (dev_of_node (pdev s)) r) (init_value (dev_of_node (pdev s)) r).
Proof.
  rewrite reg_read_set_mmio, init_read, <- rmw_val_u32, restore_read. reflexivity.
Qed.

(** X3: resume returns when the lock is free, and on the registers it is
    this: each of the six saved registers gets the bits of its snapshot
    value set (none is cleared), then configure() does its masked update.
    The four timing registers, which configure() does not touch, read
    old | snapshot; a bit that was set in one of them stays set. *)
Theorem meson_ir_resume_effect (s : state) :
  lock (ir s) = false ->
  let node := dev_of_node (pdev s) in
  exists s' tr,
    meson_ir_resume s = Some (0, s', tr) /\
    (forall r,
        reg_read s' r =
        Z.lor (Z.land (match backup_of r with
                       | Some v => Z.lor (reg_read s r) (u32 (globals s v))
                       | None => reg_read s r
                       end)
                      (u32_not (init_mask node r)))
              (init_value node r)) /\
    (forall g, g <> backup_IR_DEC_REG0 -> g <> backup_IR_DEC_REG1 ->
               reg_read s' (backup_source g) =
               Z.lor (reg_read s (backup_source g)) (u32 (globals s g))) /\
    (forall g n, g <> backup_IR_DEC_REG0 -> g <> backup_IR_DEC_REG1 -> 0 <= n ->
                 Z.testbit (reg_read s (backup_source g)) n = true ->
                 Z.testbit (reg_read s' (backup_source g)) n = true).
Proof.
  intros Hfree node.
  do 2 eexists. split; [now apply meson_ir_resume_run|].
  assert (Hall : forall r,
            reg_read
              (set_mmio (ops_mmio (reg (ir s)) (init_ops node)
                          (ops_mmio (reg (ir s)) (restore_ops (globals s)) (mmio s))) s) r =
            Z.lor (Z.land (match backup_of r with
                           | Some v => Z.lor (reg_read s r) (u32 (globals s v))
                           | None => reg_read s r
                           end)
                          (u32_not (init_mask node r)))
                  (init_value node r)).
  { intros r. unfold node. rewrite meson_ir_resume_read.
    rewrite rmw_val_formula by apply init_mask_u32.
    rewrite init_value_under_mask. f_equal. f_equal.
    destruct (backup_of r).
    - apply u32_lor_fits; apply u32_range.
    - apply u32_id, u32_range. }
  assert (Htiming : forall g, g <> backup_IR_DEC_REG0 -> g <> backup_IR_DEC_REG1 ->
            reg_read
              (set_mmio (ops_mmio (reg (ir s)) (init_ops node)
                          (ops_mmio (reg (ir s)) (restore_ops (globals s)) (mmio s))) s)
              (backup_source g) =
            Z.lor (reg_read s (backup_source g)) (u32 (globals s g))).
  { intros g H0 H1. rewrite Hall.
    destruct g; try congruence; cbn [backup_source];
      unfold backup_of, init_mask, init_value; cbn [Z.eqb IR_DEC_LDR_ACTIVE
        IR_DEC_LDR_IDLE IR_DEC_BIT_0 IR_DEC_LDR_REPEAT IR_DEC_REG0 IR_DEC_REG1 IR_DEC_REG2
        Pos.eqb];
      change (u32_not 0) with U32_MAX; rewrite Z.lor_0_r;
      apply (u32_lor_fits _ _ (u32_range _) (u32_range _)). }
  subst node. split; [exact Hall|]. split; [exact Htiming|].
  intros g n H0 H1 Hn Hbit. rewrite (Htiming g H0 H1), Z.lor_spec, Hbit. reflexivity.
Qed.

(** X4: when resume finds the registers reading as attach left them and
    the snapshot of that attach, it leaves every register reading exactly
    that again: the restore sets no new bit and configure() changes
    nothing. *)
Theorem resume_restores_attached_registers (s0 s1 s : state) (tr1 : list event) :
  meson_ir_probe s0 = Some (0, s1, tr1) ->
  pdev s = pdev s1 ->
  reg (ir s) = reg (ir s1) ->
  lock (ir s) = false ->
  (forall g, globals s g = globals s1 g) ->
  (forall r, reg_read s r = reg_read s1 r) ->
  exists s2 tr2,
    meson_ir_resume s = Some (0, s2, tr2) /\
    forall r, reg_read s2 r = reg_read s1 r.
Proof.
  intros Hprobe Hpd Hreg Hfree Hglob Hregs.
  destruct (meson_ir_probe_ok s0 s1 tr1 Hprobe) as (b & _ & Hmm & Hir & Hpd1 & _ & Hsnap).
  do 2 eexists. split; [now apply meson_ir_resume_run|].
  intros r. rewrite meson_ir_resume_read.
  assert (Hsame : match backup_of r with
                  | Some v => Z.lor (reg_read s r) (u32 (globals s v))
                  | None => reg_read s r
                  end = reg_read s1 r).
  { destruct (backup_of r) as [v|] eqn:Hb; [|apply Hregs].
    rewrite Hglob, Hsnap, (backup_of_source r v Hb), Hregs.
    unfold reg_read. rewrite (u32_id (u32 _) (u32_range _)). apply Z.lor_diag. }
  rewrite Hsame, Hpd, Hpd1.
  unfold reg_read at 1. rewrite Hmm, Hir. cbn [probed_ir reg].
  rewrite init_read. rewrite rmw_val_twice.
  unfold reg_read. rewrite Hmm, Hir. cbn [probed_ir reg]. now rewrite init_read.
Qed.

(* ------------------------------------------------------------------ *)
(** * Attach: the failure paths *)



(* ------------------------------------------------------------------ *)
(** * Detach and suspend: what they change *)

(** X6: detach returns when the lock is free; it clears REG1 bit 15 and
    changes no other bit of any register, leaves the timer disarmed, and
    leaves the sink's descriptor and the snapshot alone. *)
Theorem meson_ir_remove_effect (s : state) :
  lock (ir s) = false ->
  exists s' tr,
    meson_ir_remove s = Some (0, s', tr) /\
    reg_read s' IR_DEC_REG1 = Z.land (reg_read s IR_DEC_REG1) (u32_not REG1_ENABLE) /\
    (forall n, 0 <= n -> n <> 15 ->
               Z.testbit (reg_read s' IR_DEC_REG1) n = Z.testbit (reg_read s IR_DEC_REG1) n) /\
    Z.testbit (reg_read s' IR_DEC_REG1) 15 = false /\
    (forall a, a <> reg (ir s) + IR_DEC_REG1 -> mmio s' a = mmio s a) /\
    pending (timer (ir s')) = false /\
    rc (ir s') = rc (ir s) /\
    globals s' = globals s.
Proof.
  intros Hfree. do 2 eexists. split; [now apply meson_ir_remove_run|].
  assert (Hread :
            reg_read
              (set_ir (set_timer (mk_timer (function (timer (ir s)))
                                           (expires (timer (ir s))) false) (ir s))
                      (set_mmio (rmw (mmio s) (reg (ir s) + IR_DEC_REG1) REG1_ENABLE 0) s))
              IR_DEC_REG1 =
            rmw_val (mmio s (reg (ir s) + IR_DEC_REG1)) REG1_ENABLE 0).
  { unfold reg_read. cbn [set_ir set_mmio set_timer mmio ir reg].
    rewrite rmw_same. apply u32_id, rmw_val_range. }
  split; [|split; [|split; [|split; [|repeat split]]]].
  - rewrite Hread, rmw_val_formula by (unfold is_u32; cbn; lia).
    change (Z.land 0 REG1_ENABLE) with 0. now rewrite Z.lor_0_r.
  - intros n Hn Hne. rewrite Hread, testbit_rmw_val_spared; [reflexivity|lia|].
    unfold REG1_ENABLE. rewrite BIT_pow2, Z.pow2_bits_eqb by lia.
    apply Z.eqb_neq. lia.
  - rewrite Hread, testbit_rmw_val_masked by (try lia; reflexivity). reflexivity.
  - intros a Ha. cbn [set_ir set_mmio mmio]. now apply rmw_other.
Qed.

Lemma meson_ir_suspend_run (s : state) :
  (CONFIG_AMLOGIC_MODIFY = false -> lock (ir s) = false) ->
  meson_ir_suspend s =
  Some (0, s,
        (if CONFIG_AMLOGIC_MODIFY
         then [EvDisableIrq (irq (ir s))]
         else [EvSpinLock; EvDisableIrqWake (irq (ir s)); EvSpinUnlock])
          ++ [EvDevInfo "receiver suspend"]).
Proof.
  intros Hfree.
  unfold meson_ir_suspend, spin_lock_irqsave, spin_unlock_irqrestore, disable_irq,
    disable_irq_wake, dev_info.
  run_one. destruct CONFIG_AMLOGIC_MODIFY.
  - do 2 run_one. reflexivity.
  - specialize (Hfree eq_refl). rewrite (bind_run _ _ s tt s
      [EvSpinLock; EvDisableIrqWake (irq (ir s)); EvSpinUnlock]).
    + run_one. reflexivity.
    + rewrite bind_spin_lock by exact Hfree. run_simpl. run_one.
      rewrite spin_unlock_run. unfold set_ir, set_lock.
      cbn [mmio globals jiffies pdev ir reg rc lock timer irq].
      rewrite (relock_id (ir s) Hfree). destruct s; reflexivity.
Qed.


(* ------------------------------------------------------------------ *)
(** * Lock discipline *)

Lemma lock_after_app (h : bool) (t1 t2 : list event) :
  lock_after h (t1 ++ t2) =
  match lock_after h t1 with
  | Some h' => lock_after h' t2
  | None => None
  end.
Proof.
  revert h. induction t1 as [|e t1 IH]; intros h; [reflexivity|].
  destruct e; cbn [app lock_after]; try apply IH; destruct h; try reflexivity; apply IH.
Qed.

Lemma lock_after_ops (h : bool) (base : Z) (ops : list regop) (m : Z -> Z) :
  lock_after h (ops_trace base ops m) = Some h.
Proof.
  revert m. induction ops as [|[r0 mk v | r0] rest IH]; intros m;
    cbn [ops_trace lock_after]; auto.
Qed.

Lemma mmio_locked_ops (base : Z) (ops : list regop) (m : Z -> Z) (rest : list event) :
  mmio_locked true (ops_trace base ops m ++ rest) = mmio_locked true rest.
Proof.
  revert m. induction ops as [|[r0 mk v | r0] ops IH]; intros m;
    cbn [ops_trace app mmio_locked andb]; auto.
Qed.

Lemma spin_lock_held {B : Type} (k : unit -> M B) (s : state) :
  lock (ir s) = true -> bind spin_lock k s = None.
Proof. intros H. unfold bind, spin_lock. now rewrite H. Qed.

(** What the timer service does, whatever the state. *)
Lemma run_timer_cases (s s' : state) (tr : list event) :
  run_timer s = Some (tt, s', tr) ->
  lock (ir s') = lock (ir s) /\ mmio s' = mmio s /\ reg (ir s') = reg (ir s) /\
  pending (timer (ir s')) = false \/ s' = s /\ tr = [].
Proof.
  unfold run_timer. do 2 run_one.
  destruct (pending (timer (ir s)) && time_after_eq (jiffies s) (expires (timer (ir s)))).
  - run_one. destruct (function (timer (ir s))).
    + unfold ret. intros H. injection H as <- _. left. repeat split.
    + rewrite flush_timer_run. intros H. injection H as <- _. left. repeat split.
  - unfold ret. intros H. injection H as <- <-. right. split; reflexivity.
Qed.

Lemma run_timer_trace (s s' : state) (tr : list event) :
  run_timer s = Some (tt, s', tr) ->
  tr = [] \/ tr = [EvRawStore (timeout_event s); EvRawHandle].
Proof.
  unfold run_timer. do 2 run_one.
  destruct (pending (timer (ir s)) && time_after_eq (jiffies s) (expires (timer (ir s)))).
  - run_one. destruct (function (timer (ir s))).
    + unfold ret. intros H. injection H as _ <-. now left.
    + rewrite flush_timer_run. intros H. injection H as _ <-. now right.
  - unfold ret. intros H. injection H as _ <-. now left.
Qed.

(** X8: every entry point of the driver other than attach returns with
    the lock as it found it; in its trace no held lock is taken and no
    free lock is released, and every register access lies between a lock
    and its unlock. *)
Theorem entry_points_lock_discipline (cb : callback) (s s' : state) (r : Z)
        (tr : list event) :
  cb <> CbProbe ->
  dispatch cb s = Some (r, s', tr) ->
  lock (ir s') = lock (ir s) /\
  lock_after (lock (ir s)) tr = Some (lock (ir s)) /\
  mmio_locked false tr = true.
Proof.
  intros Hcb Hrun. destruct cb; [congruence| | | | | |]; cbn [dispatch] in Hrun.
  - (* detach *)
    destruct (lock (ir s)) eqn:Hlock.
    + unfold meson_ir_remove, spin_lock_irqsave in Hrun.
      rewrite spin_lock_held in Hrun by exact Hlock. discriminate.
    + rewrite (meson_ir_remove_run s Hlock) in Hrun. injection Hrun as _ <- <-.
      repeat split. exact Hlock.
  - (* shutdown *)
    destruct (lock (ir s)) eqn:Hlock.
    + assert (Hnone : meson_ir_shutdown s = None).
      { unfold meson_ir_shutdown, spin_lock_irqsave. rewrite bind_get.
        now apply spin_lock_held. }
      unfold bind in Hrun. rewrite Hnone in Hrun. discriminate.
    + pose proof (meson_ir_shutdown_run s Hlock) as Hsd.
      pose proof (lock_after_ops true (reg (ir s)) (shutdown_ops (dev_of_node (pdev s)))
                                 (mmio s)) as Hla.
      pose proof (mmio_locked_ops (reg (ir s)) (shutdown_ops (dev_of_node (pdev s)))
                                  (mmio s) [EvSpinUnlock]) as Hml.
      remember (ops_trace (reg (ir s)) (shutdown_ops (dev_of_node (pdev s))) (mmio s))
        as T eqn:HT.
      rewrite (bind_run _ _ _ _ _ _ Hsd) in Hrun.
      unfold ret in Hrun. injection Hrun as _ <- <-.
      cbn [set_mmio ir]. split; [exact Hlock|]. rewrite app_nil_r. split.
      * cbn [app lock_after]. now rewrite lock_after_app, Hla.
      * cbn [app mmio_locked]. exact Hml.
  - (* suspend *)
    destruct CONFIG_AMLOGIC_MODIFY eqn:Hcfg.
    + rewrite meson_ir_suspend_run in Hrun by (intros H; congruence).
      injection Hrun as _ <- <-. rewrite Hcfg. repeat split.
    + destruct (lock (ir s)) eqn:Hlock.
      * unfold meson_ir_suspend, spin_lock_irqsave in Hrun.
        rewrite bind_get, Hcfg in Hrun. unfold bind at 1 in Hrun.
        rewrite spin_lock_held in Hrun by exact Hlock. discriminate.
      * rewrite meson_ir_suspend_run in Hrun by (intros _; exact Hlock).
        injection Hrun as _ <- <-. rewrite Hcfg. repeat split. exact Hlock.
  - (* resume *)
    destruct (lock (ir s)) eqn:Hlock.
    + unfold meson_ir_resume, spin_lock_irqsave in Hrun.
      rewrite spin_lock_held in Hrun by exact Hlock. discriminate.
    + pose proof (meson_ir_resume_run s Hlock) as Hrs. cbv zeta in Hrs.
      set (m1 := ops_mmio (reg (ir s)) (restore_ops (globals s)) (mmio s)) in *.
      pose proof (lock_after_ops true (reg (ir s)) (restore_ops (globals s)) (mmio s))
        as Hla1.
      pose proof (lock_after_ops true (reg (ir s)) (init_ops (dev_of_node (pdev s))) m1)
        as Hla2.
      pose proof (fun rest => mmio_locked_ops (reg (ir s)) (restore_ops (globals s))
                                              (mmio s) rest) as Hml1.
      pose proof (fun rest => mmio_locked_ops (reg (ir s))
                                              (init_ops (dev_of_node (pdev s))) m1 rest)
        as Hml2.
      remember (ops_trace (reg (ir s)) (restore_ops (globals s)) (mmio s)) as T1 eqn:HT1.
      remember (ops_trace (reg (ir s)) (init_ops (dev_of_node (pdev s))) m1) as T2 eqn:HT2.
      rewrite Hrs in Hrun.
      injection Hrun as _ <- <-. cbn [set_mmio ir]. split; [exact Hlock|]. split.
      * cbn [app lock_after].
        rewrite lock_after_app, Hla1, lock_after_app, Hla2.
        unfold resume_irq_event. destruct CONFIG_AMLOGIC_MODIFY; reflexivity.
      * cbn [app mmio_locked]. rewrite Hml1, Hml2.
        unfold resume_irq_event. destruct CONFIG_AMLOGIC_MODIFY; reflexivity.
  - (* edge interrupt *)
    destruct (lock (ir s)) eqn:Hlock.
    + assert (Hnone : forall n, meson_ir_irq n s = None).
      { intros n. unfold meson_ir_irq. now apply spin_lock_held. }
      rewrite bind_get in Hrun. unfold bind in Hrun. rewrite Hnone in Hrun.
      discriminate.
    + change (dispatch CbIrq s = Some (r, s', tr)) in Hrun.
      rewrite (dispatch_irq_run s Hlock) in Hrun. injection Hrun as _ <- <-.
      repeat split. exact Hlock.
  - (* timer expiry *)
    unfold bind in Hrun.
    destruct (run_timer s) as [[[[] s1] t1]|] eqn:Ht; [|discriminate].
    unfold ret in Hrun. injection Hrun as _ <- <-. rewrite app_nil_r.
    pose proof (run_timer_trace s s1 t1 Ht) as Htr.
    destruct (run_timer_cases s s1 t1 Ht) as [(Hl & _) | (-> & _)];
      (split; [assumption || reflexivity|]);
      destruct Htr as [-> | ->]; split; reflexivity.
Qed.

(* ------------------------------------------------------------------ *)
(** * Each device keeps to its own registers *)

Lemma same_outside_refl (s : state) : same_outside_block s s.
Proof. split; auto. Qed.

Lemma same_outside_trans (s1 s2 s3 : state) :
  same_outside_block s1 s2 -> same_outside_block s2 s3 -> same_outside_block s1 s3.
Proof.
  intros [Hr1 Hm1] [Hr2 Hm2]. split; [congruence|].
  intros a Ha. rewrite Hm2 by (rewrite Hr1; exact Ha). now apply Hm1.
Qed.

Lemma preserves_bind {A B : Type} (R : state -> state -> Prop) (m : M A) (k : A -> M B) :
  (forall s1 s2 s3, R s1 s2 -> R s2 s3 -> R s1 s3) ->
  preserves R m -> (forall a, preserves R (k a)) -> preserves R (bind m k).
Proof.
  intros Htrans Hm Hk s b s' tr. unfold bind.
  destruct (m s) as [[[a s1] t1]|] eqn:E1; [|discriminate].
  destruct (k a s1) as [[[b' s2] t2]|] eqn:E2; [|discriminate].
  intros H. injection H as <- <- <-.
  exact (Htrans _ _ _ (Hm _ _ _ _ E1) (Hk a _ _ _ _ E2)).
Qed.

Lemma block_set_mask (r mask value : Z) :
  0 <= r <= IR_DEC_REG2 ->
  preserves same_outside_block (meson_ir_set_mask r mask value).
Proof.
  intros Hr s a s' tr. rewrite meson_ir_set_mask_run. intros H. injection H as _ <- _.
  split; [reflexivity|]. intros b Hb. cbn [set_mmio mmio]. apply rmw_other. lia.
Qed.

Lemma block_quiet {A : Type} (m : M A) :
  (forall s a s' tr, m s = Some (a, s', tr) -> mmio s' = mmio s /\ reg (ir s') = reg (ir s)) ->
  preserves same_outside_block m.
Proof.
  intros Hq s a s' tr Hrun. destruct (Hq s a s' tr Hrun) as [Hm Hr].
  split; [exact Hr|]. intros b _. now rewrite Hm.
Qed.

Lemma block_get_reg (r : Z) : preserves same_outside_block (meson_ir_get_reg r).
Proof.
  apply block_quiet. intros s a s' tr. rewrite meson_ir_get_reg_run.
  intros H. injection H as _ <- _. split; reflexivity.
Qed.

Lemma block_spin_lock : preserves same_outside_block spin_lock.
Proof.
  apply block_quiet. intros s a s' tr. unfold spin_lock.
  destruct (lock (ir s)); [discriminate|]. intros H. injection H as _ <- _.
  split; reflexivity.
Qed.

Ltac block1 :=
  lazymatch goal with
  | |- preserves _ (meson_ir_set_mask _ _ _) =>
      apply block_set_mask; unfold IR_DEC_REG0, IR_DEC_REG1, IR_DEC_REG2; lia
  | |- preserves _ (meson_ir_get_reg _) => apply block_get_reg
  | |- preserves _ spin_lock => apply block_spin_lock
  | |- preserves _ (bind _ _) =>
      apply preserves_bind; [exact same_outside_trans| |intros ?]
  | |- preserves _ _ =>
      apply block_quiet; intros ? ? ? ? H; injection H as _ <- _; split; reflexivity
  end.

Ltac block := repeat block1.

Lemma block_init : preserves same_outside_block meson_ir_init.
Proof.
  unfold meson_ir_init.
  apply preserves_bind; [exact same_outside_trans|block|intros node].
  destruct (of_device_is_compatible node "amlogic,meson6-ir"); block.
Qed.

Lemma block_restore (g : global) : preserves same_outside_block (restore g).
Proof.
  unfold restore. apply preserves_bind; [exact same_outside_trans|block|intros v].
  apply block_set_mask.
  destruct g; cbn [backup_source];
    unfold IR_DEC_REG0, IR_DEC_REG1, IR_DEC_REG2, IR_DEC_LDR_ACTIVE, IR_DEC_LDR_IDLE,
      IR_DEC_BIT_0, IR_DEC_LDR_REPEAT; lia.
Qed.

Lemma block_dispatch (cb : callback) :
  cb <> CbProbe -> preserves same_outside_block (dispatch cb).
Proof.
  intros Hcb. destruct cb; [congruence| | | | | |]; cbn [dispatch].
  - unfold meson_ir_remove, spin_lock_irqsave, spin_unlock_irqrestore, spin_unlock,
      del_timer_sync. block.
  - unfold meson_ir_shutdown, spin_lock_irqsave, spin_unlock_irqrestore, spin_unlock.
    apply preserves_bind; [exact same_outside_trans| |intros ?; block].
    apply preserves_bind; [exact same_outside_trans|block|intros node].
    destruct (of_device_is_compatible node "amlogic,meson6-ir"); block.
  - unfold meson_ir_suspend, spin_lock_irqsave, spin_unlock_irqrestore, spin_unlock,
      disable_irq, disable_irq_wake, dev_info.
    destruct CONFIG_AMLOGIC_MODIFY; block.
  - unfold meson_ir_resume, spin_lock_irqsave, spin_unlock_irqrestore, spin_unlock,
      enable_irq, enable_irq_wake, dev_info.
    repeat first [ apply block_restore | apply block_init
                 | apply preserves_bind; [exact same_outside_trans| |intros ?] ];
      try (destruct CONFIG_AMLOGIC_MODIFY); block.
  - unfold meson_ir_irq, ir_raw_event_store_edge, ir_raw_event_handle, spin_unlock,
      mod_timer, readl. block.
  - unfold run_timer.
    apply preserves_bind; [exact same_outside_trans| |intros ?; block].
    apply preserves_bind; [exact same_outside_trans|block|intros t].
    apply preserves_bind; [exact same_outside_trans|block|intros now].
    destruct (pending t && time_after_eq now (expires t)); [|block].
    apply preserves_bind; [exact same_outside_trans|block|intros ?].
    destruct (function t); [block|].
    unfold flush_timer, ir_raw_event_store, ir_raw_event_handle. block.
Qed.

(** X9: a call into the driver for one device, whatever the entry point,
    changes no cell of the bus outside the nine registers of that device
    (for attach: of the block it maps): the registers of every other
    device are as before. *)
Theorem call_keeps_to_own_registers (n : nat) (cb : callback) (w w' : world)
        (d : platform_device * meson_ir) (r : Z) (tr : list event) (a : Z) :
  nth_error (w_devs w) n = Some d ->
  run_step (Call n cb) w = Some (r, w', tr) ->
  (if match cb with CbProbe => true | _ => false end
   then forall base, ioremap_resource (fst d) = inl base ->
                     a < base \/ base + IR_DEC_REG2 < a
   else a < reg (snd d) \/ reg (snd d) + IR_DEC_REG2 < a) ->
  w_mmio w' a = w_mmio w a.
Proof.
  intros Hd Hrun Hout.
  destruct (run_step_call_inv n cb w w' r tr Hrun) as (d' & s' & Hd' & Hdisp & ->).
  rewrite Hd in Hd'. injection Hd' as <-. cbn [save w_mmio].
  destruct cb;
    try (pose proof (fun H => block_dispatch _ H _ _ _ _ Hdisp) as Hb;
         destruct Hb as [_ Hm]; [discriminate|]; exact (Hm a Hout)).
  cbn [dispatch] in Hdisp.
  destruct (meson_ir_probe_returns (load w d)) as (s1 & t1 & Hret & Hfail).
  rewrite Hret in Hdisp. injection Hdisp as <- <- <-.
  destruct (Z.eq_dec (probe_code (pdev (load w d))) 0) as [Hz | Hnz].
  - rewrite Hz in Hret.
    destruct (meson_ir_probe_ok _ _ _ Hret) as (base & Hio & Hmm & _).
    rewrite Hmm. cbn [load pdev mmio fst] in *.
    specialize (Hout base Hio).
    apply ops_mmio_frame. intros r0 mask value Hin.
    assert (Hr0 : 0 <= r0 <= IR_DEC_REG2).
    { unfold init_ops in Hin. destruct (is_meson6 (dev_of_node (fst d))); cbn [In] in Hin;
        repeat (destruct Hin as [Hin | Hin];
                [try discriminate Hin; injection Hin as <- _ _;
                 unfold IR_DEC_REG0, IR_DEC_REG1, IR_DEC_REG2; lia|]);
        contradiction. }
    lia.
  - destruct (Hfail Hnz) as (Hm & _). now rewrite Hm.
Qed.

(* ------------------------------------------------------------------ *)
(** * Edges, silence and the timeout event *)

Lemma run_app (a b : list step) (w : world) :
  run (a ++ b) w =
  match run a w with
  | None => None
  | Some (w1, t1) =>
      match run b w1 with
      | None => None
      | Some (w2, t2) => Some (w2, t1 ++ t2)
      end
  end.
Proof.
  revert w. induction a as [|st a IH]; intros w.
  - cbn [app run]. destruct (run b w) as [[w2 t2]|]; reflexivity.
  - cbn [app run]. destruct (run_step st w) as [[[r w1] t1]|]; [|reflexivity].
    rewrite IH. destruct (run a w1) as [[w2 t2]|]; [|reflexivity].
    destruct (run b w2) as [[w3 t3]|]; [|reflexivity].
    now rewrite app_assoc.
Qed.

Lemma ulong_sub (a b : Z) : ulong (ulong a - ulong b) = ulong (a - b).
Proof. unfold ulong. now rewrite Zminus_mod_idemp_l, Zminus_mod_idemp_r. Qed.

(** Before the deadline the timer is not due. *)
Lemma time_before_deadline (now dt span : Z) :
  0 < BITS_PER_LONG ->
  0 <= dt < span ->
  span <= 2 ^ (BITS_PER_LONG - 1) ->
  time_after_eq (ulong (now + dt)) (ulong (now + span)) = false.
Proof.
  intros Hbits Hdt Hspan. unfold time_after_eq. rewrite ulong_sub.
  replace (now + dt - (now + span)) with (dt - span) by lia.
  assert (Hpow : 2 ^ BITS_PER_LONG = 2 * 2 ^ (BITS_PER_LONG - 1)).
  { replace BITS_PER_LONG with (Z.succ (BITS_PER_LONG - 1)) at 1 by lia.
    apply Z.pow_succ_r. lia. }
  assert (Hpos : 0 < 2 ^ (BITS_PER_LONG - 1)) by (apply Z.pow_pos_nonneg; lia).
  unfold ulong.
  rewrite <- (Z_mod_plus_full (dt - span) 1 (2 ^ BITS_PER_LONG)).
  rewrite Z.mod_small by lia.
  apply Z.ltb_ge. lia.
Qed.

Lemma dispatch_timer_waits (s : state) :
  time_after_eq (jiffies s) (expires (timer (ir s))) = false ->
  dispatch CbTimer s = Some (0, s, []).
Proof.
  intros Hwait. cbn [dispatch]. unfold run_timer. unfold bind at 1. do 2 run_one.
  rewrite Hwait, andb_false_r. reflexivity.
Qed.

Lemma dispatch_timer_idle (s : state) :
  pending (timer (ir s)) = false -> dispatch CbTimer s = Some (0, s, []).
Proof.
  intros Hidle. cbn [dispatch]. now rewrite (bind_run _ _ _ _ _ _ (run_timer_idle s Hidle)).
Qed.

(** Edges that follow one another within the timeout produce no timeout
    event. *)
Lemma burst_quiet (gaps : list Z) :
  forall (w : world) (p : platform_device) (i : meson_ir)
         (rest : list (platform_device * meson_ir)),
    w_devs w = (p, i) :: rest ->
    lock i = false ->
    function (timer i) = fn_flush_timer ->
    0 < BITS_PER_LONG ->
    usecs_to_jiffies (timeout (rc i)) <= 2 ^ (BITS_PER_LONG - 1) ->
    Forall (fun dt => 0 <= dt < usecs_to_jiffies (timeout (rc i))) gaps ->
    exists w1 i1 tr,
      run (burst gaps) w = Some (w1, tr) /\
      w_devs w1 = (p, i1) :: rest /\
      lock i1 = false /\
      function (timer i1) = fn_flush_timer /\
      rc i1 = rc i /\
      filter is_timeout_event tr = [] /\
      List.length (filter is_edge_event tr) = List.length gaps.
Proof.
  induction gaps as [|dt gaps IH]; intros w p i rest Hd Hfree Hfn Hbits Hspan Hgaps.
  - exists w, i, []. repeat split; assumption.
  - inversion Hgaps as [|? ? Hdt Hrest]; subst.
    change (burst (dt :: gaps)) with ([Call 0 CbIrq; Tick dt; Call 0 CbTimer] ++ burst gaps).
    rewrite run_app.
    (* the edge *)
    erewrite run_cons;
      [|eapply run_step_call; [exact Hd|]; apply dispatch_irq_run; exact Hfree].
    cbn [mmio globals jiffies pdev ir set_ir set_timer load fst snd reg rc lock timer irq].
    (* time passes, short of the timeout *)
    erewrite run_cons; [|reflexivity].
    cbn [w_mmio w_globals w_jiffies w_devs].
    (* the timer service finds the timer not due *)
    erewrite run_cons;
      [|eapply run_step_call; [reflexivity|]; apply dispatch_timer_waits;
        cbn [load jiffies ir timer expires w_jiffies fst snd];
        apply time_before_deadline; assumption].
    cbn [run mmio globals jiffies pdev ir load fst snd w_mmio w_globals w_jiffies app map].
    match goal with
    | |- context [run (burst gaps) ?w2] =>
        destruct (IH w2 p
                     (mk_ir (reg i) (rc i) (lock i)
                            (mk_timer (function (timer i))
                                      (ulong (w_jiffies w + usecs_to_jiffies (timeout (rc i))))
                                      true)
                            (irq i))
                     rest eq_refl Hfree Hfn Hbits Hspan Hrest)
          as (w1 & i1 & tr & Hrun & Hd1 & Hfree1 & Hfn1 & Hrc1 & Hno & Hcount)
    end.
    cbn [rc] in *. rewrite Hrun.
    exists w1, i1. eexists. split; [reflexivity|].
    split; [exact Hd1|]. split; [exact Hfree1|]. split; [exact Hfn1|].
    split; [exact Hrc1|]. split; [exact Hno|].
    cbn [app filter is_timeout_event is_edge_event snd List.length].
    now rewrite Hcount.
Qed.

(** X10: a burst of edges, each following the previous one within the
    timeout, then silence: every edge is handed to the sink, no timeout
    event fires during the burst however often the timer service runs,
    and the silence produces exactly one timeout event, of the configured
    duration, at the end of the trace; the timer service finds nothing
    to do afterwards, whatever time has passed. *)
Theorem burst_then_one_timeout (w : world) (p : platform_device) (i : meson_ir)
        (rest : list (platform_device * meson_ir)) (gaps : list Z) (later : Z) :
  w_devs w = (p, i) :: rest ->
  lock i = false ->
  function (timer i) = fn_flush_timer ->
  0 < BITS_PER_LONG ->
  usecs_to_jiffies (timeout (rc i)) <= 2 ^ (BITS_PER_LONG - 1) ->
  Forall (fun dt => 0 <= dt < usecs_to_jiffies (timeout (rc i))) gaps ->
  exists w' tr,
    run (burst gaps ++
         [Call 0 CbIrq; Tick (usecs_to_jiffies (timeout (rc i))); Call 0 CbTimer;
          Tick later; Call 0 CbTimer]) w = Some (w', tr) /\
    List.length (filter is_edge_event tr) = S (List.length gaps) /\
    filter is_timeout_event tr = [(O, EvRawStore (RawEvent.mk (timeout (rc i)) false true))] /\
    skipn (List.length tr - 2) tr =
      [(O, EvRawStore (RawEvent.mk (timeout (rc i)) false true)); (O, EvRawHandle)].
Proof.
  intros Hd Hfree Hfn Hbits Hspan Hgaps.
  destruct (burst_quiet gaps w p i rest Hd Hfree Hfn Hbits Hspan Hgaps)
    as (w1 & i1 & tr1 & Hrun & Hd1 & Hfree1 & Hfn1 & Hrc1 & Hno & Hcount).
  rewrite run_app, Hrun, <- Hrc1.
  erewrite run_cons;
    [|eapply run_step_call; [exact Hd1|]; apply dispatch_irq_run; exact Hfree1].
  cbn [mmio globals jiffies pdev ir set_ir set_timer load fst snd reg rc lock timer irq].
  erewrite run_cons; [|reflexivity].
  cbn [w_mmio w_globals w_jiffies w_devs].
  erewrite run_cons;
    [|eapply run_step_call; [reflexivity|]; apply dispatch_timer_fires;
      [reflexivity
      |cbn [load jiffies ir timer expires w_jiffies fst snd];
       apply time_after_eq_refl; exact Hbits
      |exact Hfn1]].
  cbn [mmio globals jiffies pdev ir set_ir set_timer load fst snd reg rc lock timer irq
       timeout_event].
  erewrite run_cons; [|reflexivity].
  cbn [w_mmio w_globals w_jiffies w_devs].
  erewrite run_cons;
    [|eapply run_step_call; [reflexivity|]; apply dispatch_timer_idle; reflexivity].
  cbn [run map app].
  do 2 eexists. split; [reflexivity|].
  rewrite !filter_app, Hno, List.length_app, Hcount.
  cbn [filter is_edge_event is_timeout_event snd app List.length].
  split; [lia|]. split; [reflexivity|].
  rewrite List.length_app. cbn [List.length].
  replace (List.length tr1 + 8 - 2)%nat with (List.length tr1 + 6)%nat by lia.
  rewrite skipn_app, skipn_all2 by lia.
  replace (List.length tr1 + 6 - List.length tr1)%nat with 6%nat by lia.
  reflexivity.
Qed.

End Driver.

(* ------------------------------------------------------------------ *)
(** * Concrete machines *)

(** A build with HZ = 250 on a 64-bit kernel, with the vendor switch on. *)
Definition hz250 (us : Z) : Z := (us + 3999) / 4000.

Definition node_meson6 : device_node :=
  mk_node ["amlogic,meson6-ir"] [("pulse-inverted", "")].

Definition node_gxbb : device_node :=
  mk_node ["amlogic,meson-gxbb-ir"] [("linux,rc-map-name", "rc-odroid")].

Definition pdev_a : platform_device :=
  mk_pdev node_meson6 true (inl 0xc8100580) 15 true 0 0 None.

Definition pdev_b : platform_device :=
  mk_pdev node_gxbb true (inl 0xc8100480) 16 true 0 0 None.

(** The registers at boot: all zero but the leader timing of the second
    receiver. *)
Definition boot_mmio : Z -> Z :=
  fun a => if a =? 0xc8100480 + IR_DEC_LDR_ACTIVE then 0x01d801ac else 0.

Definition boot_b : state :=
  mk_state boot_mmio (fun _ => 0) 1000 pdev_b meson_ir_zero.

Definition attached_b : state :=
  match meson_ir_probe boot_b with
  | Some (_, s, _) => s
  | None => boot_b
  end.

Definition attach_trace_b : list event :=
  match meson_ir_probe boot_b with
  | Some (_, _, tr) => tr
  | None => []
  end.

(** Two receivers, [pdev_a] in slot 0 and [pdev_b] in slot 1. *)
Definition two_receivers : world :=
  mk_world boot_mmio (fun _ => 0) 1000
           [(pdev_a, meson_ir_zero); (pdev_b, meson_ir_zero)].

(** A receiver whose pins cannot be configured: its attach fails. *)
Definition pdev_nopins : platform_device :=
  mk_pdev node_gxbb true (inl 0xc8100680) 17 true 0 0 (Some (-19)).

(** The two receivers, and [pdev_nopins] in slot 2. *)
Definition three_receivers : world :=
  mk_world boot_mmio (fun _ => 0) 1000
           [(pdev_a, meson_ir_zero); (pdev_b, meson_ir_zero); (pdev_nopins, meson_ir_zero)].

Definition world_after (sched : list step) (w : world) : world :=
  match run hz250 64 true sched w with
  | Some (w', _) => w'
  | None => w
  end.

Definition trace_after (sched : list step) (w : world) : list (nat * event) :=
  match run hz250 64 true sched w with
  | Some (_, tr) => tr
  | None => []
  end.

Definition call_trace (st : step) (w : world) : list event :=
  match run_step hz250 64 true st w with
  | Some (_, _, tr) => tr
  | None => []
  end.

(** One receiver, attached. *)
Definition one_receiver : world :=
  world_after [Call 0 CbProbe] (mk_world boot_mmio (fun _ => 0) 1000 [(pdev_b, meson_ir_zero)]).

Lemma attach_b_ok : meson_ir_probe boot_b = Some (0, attached_b, attach_trace_b).
Proof. vm_compute. reflexivity. Qed.

(* ------------------------------------------------------------------ *)
(** * The theorems at work *)

Lemma meson_ir_set_mask_update_witness :
  is_u32 REG1_MODE_MASK /\
  exists s' tr,
    meson_ir_set_mask IR_DEC_REG1 REG1_MODE_MASK 0x100 attached_b = Some (tt, s', tr) /\
    reg_read s' IR_DEC_REG1 =
      Z.lor (Z.land (reg_read attached_b IR_DEC_REG1) (u32_not REG1_MODE_MASK))
            (Z.land 0x100 REG1_MODE_MASK).
Proof.
  assert (H : is_u32 REG1_MODE_MASK) by (unfold is_u32; cbn; lia).
  split; [exact H|].
  destruct (meson_ir_set_mask_update attached_b IR_DEC_REG1 REG1_MODE_MASK 0x100 H)
    as (s' & tr & Hrun & Hval & _).
  exists s', tr. split; assumption.
Defined.

Lemma meson_ir_init_sequence_witness :
  meson_ir_probe boot_b = Some (0, attached_b, attach_trace_b) /\
  is_meson6 (dev_of_node (pdev boot_b)) = false /\
  pulse_inverted (dev_of_node (pdev boot_b)) = false /\
  FIELD_GET REG2_MODE_MASK (reg_read attached_b IR_DEC_REG2) = 2 /\
  Z.testbit (reg_read attached_b IR_DEC_REG1) 15 = true /\
  FIELD_GET REG1_IRQSEL_MASK (reg_read attached_b IR_DEC_REG1) = 1.
Proof.
  split; [vm_compute; reflexivity|]. split; [reflexivity|]. split; [reflexivity|].
  apply (proj2 (meson_ir_init_sequence boot_b) attached_b attach_trace_b);
    vm_compute; reflexivity.
Defined.

Lemma meson_ir_shutdown_low_power_witness :
  lock (ir attached_b) = false /\
  exists s' tr,
    meson_ir_shutdown attached_b = Some (tt, s', tr) /\
    FIELD_GET REG2_MODE_MASK (reg_read s' IR_DEC_REG2) = DECODE_MODE_NEC /\
    FIELD_GET REG0_RATE_MASK (reg_read s' IR_DEC_REG0) = 0x13.
Proof.
  assert (H : lock (ir attached_b) = false) by reflexivity.
  split; [exact H|].
  destruct (meson_ir_shutdown_low_power attached_b H)
    as (s' & r1 & w1 & r2 & w2 & Hrun & _ & Hmode & Hrate & _).
  exists s'. eexists. split; [exact Hrun|]. split; [apply Hmode; reflexivity|exact Hrate].
Defined.

Lemma meson_ir_shutdown_frame_witness :
  lock (ir attached_b) = false /\
  exists s' tr,
    meson_ir_shutdown attached_b = Some (tt, s', tr) /\
    Z.testbit (reg_read s' IR_DEC_REG1) 15 = Z.testbit (reg_read attached_b IR_DEC_REG1) 15.
Proof.
  assert (H : lock (ir attached_b) = false) by reflexivity.
  split; [exact H|].
  destruct (meson_ir_shutdown_frame attached_b H) as (s' & tr & Hrun & _ & _ & Hen & _).
  exists s', tr. split; assumption.
Defined.

Lemma meson_ir_irq_handles_witness :
  lock (ir attached_b) = false /\
  exists s' tr,
    meson_ir_irq hz250 64 16 attached_b = Some (IRQ_HANDLED, s', tr) /\
    pending (timer (ir s')) = true /\
    expires (timer (ir s')) = 1032.
Proof.
  assert (H : lock (ir attached_b) = false) by reflexivity.
  split; [exact H|].
  destruct (proj1 (meson_ir_irq_handles hz250 64 16 attached_b) H)
    as (s' & Hrun & Hpend & Hexp & _).
  exists s'. eexists. split; [exact Hrun|]. split; [exact Hpend|]. exact Hexp.
Defined.

Lemma meson_ir_probe_descriptor_witness :
  meson_ir_probe boot_b = Some (0, attached_b, attach_trace_b) /\
  timeout (rc (ir attached_b)) = 125000.
Proof.
  split; [vm_compute; reflexivity|].
  apply (meson_ir_probe_descriptor boot_b attached_b attach_trace_b).
  vm_compute. reflexivity.
Defined.

Lemma resume_round_trip_witness :
  meson_ir_probe boot_b = Some (0, attached_b, attach_trace_b) /\
  exists s2 tr2,
    meson_ir_resume true attached_b = Some (0, s2, tr2) /\
    (forall g, globals attached_b g = reg_read attached_b (backup_source g)) /\
    mmio s2 =
      ops_mmio (reg (ir attached_b)) (init_ops (dev_of_node (pdev attached_b)))
               (ops_mmio (reg (ir attached_b)) (restore_ops (globals attached_b))
                         (mmio attached_b)) /\
    mode_field s2 = mode_field attached_b /\
    rate_field s2 = rate_field attached_b /\
    irqsel_field s2 = irqsel_field attached_b /\
    pol_field s2 = pol_field attached_b.
Proof.
  split; [vm_compute; reflexivity|].
  apply (resume_round_trip true boot_b attached_b attach_trace_b).
  vm_compute. reflexivity.
Defined.

Lemma detach_then_inflight_edge_fires_witness :
  w_devs one_receiver = (pdev_b, ir attached_b) :: [] /\
  lock (ir attached_b) = false /\
  function (timer (ir attached_b)) = fn_flush_timer /\
  0 < 64 /\
  exists w' r1 w1 status deadline,
    run hz250 64 true [Call 0 CbRemove; Call 0 CbIrq; Tick 32; Call 0 CbTimer] one_receiver =
    Some (w',
          map (pair O)
              [ EvSpinLock;
                EvReadl (0xc8100480 + IR_DEC_REG1) r1;
                EvWritel w1 (0xc8100480 + IR_DEC_REG1);
                EvSpinUnlock;
                EvDelTimerSync;
                EvSpinLock;
                EvReadl (0xc8100480 + IR_DEC_STATUS) status;
                EvRawStoreEdge (Z.testbit status 8);
                EvModTimer deadline;
                EvRawHandle;
                EvSpinUnlock;
                EvRawStore (RawEvent.mk 125000 false true);
                EvRawHandle ]) /\
    Z.testbit w1 15 = false.
Proof.
  assert (H1 : w_devs one_receiver = (pdev_b, ir attached_b) :: [])
    by (vm_compute; reflexivity).
  assert (H2 : lock (ir attached_b) = false) by reflexivity.
  assert (H3 : function (timer (ir attached_b)) = fn_flush_timer) by reflexivity.
  assert (H4 : 0 < 64) by lia.
  repeat (split; [assumption|]).
  exact (detach_then_inflight_edge_fires hz250 64 true one_receiver
           (pdev_b, ir attached_b) [] H1 H2 H3 H4).
Defined.

(** The same schedule, evaluated: after detach has returned (the
    cancellation is the fifth event), the handler arms the timer for tick
    1032 and the timeout event reaches the sink. *)
Lemma detach_race_trace :
  skipn 4 (trace_after [Call 0 CbRemove; Call 0 CbIrq; Tick 32; Call 0 CbTimer]
                       one_receiver) =
  map (pair O)
      [ EvDelTimerSync;
        EvSpinLock; EvReadl (0xc8100480 + IR_DEC_STATUS) 0; EvRawStoreEdge false;
        EvModTimer 1032; EvRawHandle; EvSpinUnlock;
        EvRawStore (RawEvent.mk 125000 false true); EvRawHandle ].
Proof. vm_compute. reflexivity. Qed.

Lemma snapshot_of_last_attach_witness :
  let w1 := world_after [Call 0 CbProbe] three_receivers in
  let w2 := world_after [Call 1 CbProbe] w1 in
  let post := [Call 0 CbIrq; Tick 32; Call 0 CbTimer; Call 2 CbProbe; Call 0 CbSuspend] in
  let w3 := world_after post w2 in
  run_step hz250 64 true (Call 1 CbProbe) w1 = Some (0, w2, call_trace (Call 1 CbProbe) w1) /\
  attaches_fail hz250 64 true post w2 = true /\
  run hz250 64 true post w2 = Some (w3, trace_after post w2) /\
  exists db,
    nth_error (w_devs w2) 1 = Some db /\
    forall g, w_globals w3 g = u32 (w_mmio w2 (reg (snd db) + backup_source g)).
Proof.
  intros w1 w2 post w3.
  assert (H1 : run_step hz250 64 true (Call 1 CbProbe) w1 =
               Some (0, w2, call_trace (Call 1 CbProbe) w1)) by (vm_compute; reflexivity).
  assert (H2 : attaches_fail hz250 64 true post w2 = true) by (vm_compute; reflexivity).
  assert (H3 : run hz250 64 true post w2 = Some (w3, trace_after post w2))
    by (vm_compute; reflexivity).
  repeat (split; [assumption|]).
  destruct (snapshot_of_last_attach hz250 64 true w1 w2 w3 1 _ post _ H1 H2 H3)
    as (db & Hdb & Hsnap & _).
  exists db. split; assumption.
Defined.

(** C1 as stated fails: the first receiver attaches, then the second; the
    snapshot the first one finds at its resume is the second one's, not
    the one captured at its own attach, and its resume puts the second
    receiver's leader timing into its own register. *)
Lemma snapshot_overwritten_by_second_attach :
  let w1 := world_after [Call 0 CbProbe] two_receivers in
  let w2 := world_after [Call 1 CbProbe] w1 in
  let w3 := world_after [Call 0 CbResume] w2 in
  run hz250 64 true [Call 0 CbProbe; Call 1 CbProbe; Call 0 CbResume] two_receivers =
    Some (w3, trace_after [Call 0 CbProbe; Call 1 CbProbe; Call 0 CbResume] two_receivers) /\
  snapshot (w_globals w1) = [9; 0x8106; 0; 0; 0; 0] /\
  snapshot (w_globals w2) = [9; 0x8004; 0x01d801ac; 0; 0; 0] /\
  snapshot (w_globals w2) <> snapshot (w_globals w1) /\
  u32 (w_mmio w1 (0xc8100580 + IR_DEC_LDR_ACTIVE)) = 0 /\
  u32 (w_mmio w3 (0xc8100580 + IR_DEC_LDR_ACTIVE)) = 0x01d801ac.
Proof.
  intros w1 w2 w3.
  split; [vm_compute; reflexivity|].
  split; [vm_compute; reflexivity|].
  split; [vm_compute; reflexivity|].
  split; [vm_compute; intros H; discriminate H|].
  split; vm_compute; reflexivity.
Qed.

(* ------------------------------------------------------------------ *)
(** * More of the driver at work *)

Lemma meson_ir_resume_effect_witness :
  lock (ir attached_b) = false /\
  exists s' tr,
    meson_ir_resume true attached_b = Some (0, s', tr) /\
    reg_read s' IR_DEC_LDR_ACTIVE =
      Z.lor (reg_read attached_b IR_DEC_LDR_ACTIVE)
            (u32 (globals attached_b backup_IR_DEC_LDR_ACTIVE)).
Proof.
  assert (H : lock (ir attached_b) = false) by reflexivity.
  split; [exact H|].
  destruct (meson_ir_resume_effect true attached_b H) as (s' & tr & Hrun & _ & Htim & _).
  exists s', tr. split; [exact Hrun|].
  apply (Htim backup_IR_DEC_LDR_ACTIVE); discriminate.
Defined.

Lemma resume_restores_attached_registers_witness :
  meson_ir_probe boot_b = Some (0, attached_b, attach_trace_b) /\
  lock (ir attached_b) = false /\
  exists s2 tr2,
    meson_ir_resume true attached_b = Some (0, s2, tr2) /\
    forall r, reg_read s2 r = reg_read attached_b r.
Proof.
  assert (H1 : meson_ir_probe boot_b = Some (0, attached_b, attach_trace_b))
    by (vm_compute; reflexivity).
  assert (H2 : lock (ir attached_b) = false) by reflexivity.
  split; [exact H1|]. split; [exact H2|].
  apply (resume_restores_attached_registers true boot_b attached_b attached_b
           attach_trace_b H1 eq_refl eq_refl H2); reflexivity.
Defined.


Lemma meson_ir_remove_effect_witness :
  lock (ir attached_b) = false /\
  exists s' tr,
    meson_ir_remove attached_b = Some (0, s', tr) /\
    Z.testbit (reg_read s' IR_DEC_REG1) 15 = false /\
    pending (timer (ir s')) = false.
Proof.
  assert (H : lock (ir attached_b) = false) by reflexivity.
  split; [exact H|].
  destruct (meson_ir_remove_effect attached_b H)
    as (s' & tr & Hrun & _ & _ & Hbit & _ & Hpend & _).
  exists s', tr. repeat split; assumption.
Defined.


Lemma entry_points_lock_discipline_witness :
  CbShutdown <> CbProbe /\
  exists s' tr,
    dispatch hz250 64 true CbShutdown attached_b = Some (0, s', tr) /\
    lock (ir s') = lock (ir attached_b) /\
    lock_after (lock (ir attached_b)) tr = Some (lock (ir attached_b)) /\
    mmio_locked false tr = true.
Proof.
  assert (H : CbShutdown <> CbProbe) by discriminate.
  split; [exact H|].
  exists (match dispatch hz250 64 true CbShutdown attached_b with
          | Some (_, s', _) => s' | None => attached_b end).
  exists (match dispatch hz250 64 true CbShutdown attached_b with
          | Some (_, _, tr) => tr | None => [] end).
  assert (Hrun : dispatch hz250 64 true CbShutdown attached_b =
                 Some (0,
                       match dispatch hz250 64 true CbShutdown attached_b with
                       | Some (_, s', _) => s' | None => attached_b end,
                       match dispatch hz250 64 true CbShutdown attached_b with
                       | Some (_, _, tr) => tr | None => [] end))
    by (vm_compute; reflexivity).
  split; [exact Hrun|].
  exact (entry_points_lock_discipline hz250 64 true CbShutdown attached_b _ 0 _ H Hrun).
Defined.

(** Both receivers attached, the first one first. *)
Definition both_attached : world := world_after [Call 0 CbProbe; Call 1 CbProbe] two_receivers.

Definition first_receiver : platform_device * meson_ir :=
  nth 0 (w_devs both_attached) (pdev_a, meson_ir_zero).

Lemma call_keeps_to_own_registers_witness :
  nth_error (w_devs both_attached) 0 = Some first_receiver /\
  run_step hz250 64 true (Call 0 CbShutdown) both_attached =
    Some (0, world_after [Call 0 CbShutdown] both_attached,
          call_trace (Call 0 CbShutdown) both_attached) /\
  (0xc8100480 + IR_DEC_REG0 < reg (snd first_receiver) \/
   reg (snd first_receiver) + IR_DEC_REG2 < 0xc8100480 + IR_DEC_REG0) /\
  w_mmio (world_after [Call 0 CbShutdown] both_attached) (0xc8100480 + IR_DEC_REG0) =
  w_mmio both_attached (0xc8100480 + IR_DEC_REG0).
Proof.
  assert (H1 : nth_error (w_devs both_attached) 0 = Some first_receiver)
    by (vm_compute; reflexivity).
  assert (H2 : run_step hz250 64 true (Call 0 CbShutdown) both_attached =
               Some (0, world_after [Call 0 CbShutdown] both_attached,
                     call_trace (Call 0 CbShutdown) both_attached))
    by (vm_compute; reflexivity).
  assert (H3 : 0xc8100480 + IR_DEC_REG0 < reg (snd first_receiver) \/
               reg (snd first_receiver) + IR_DEC_REG2 < 0xc8100480 + IR_DEC_REG0)
    by (left; vm_compute; reflexivity).
  split; [exact H1|]. split; [exact H2|]. split; [exact H3|].
  exact (call_keeps_to_own_registers hz250 64 true 0 CbShutdown both_attached
           (world_after [Call 0 CbShutdown] both_attached) first_receiver 0
           (call_trace (Call 0 CbShutdown) both_attached)
           (0xc8100480 + IR_DEC_REG0) H1 H2 H3).
Defined.

Lemma burst_then_one_timeout_witness :
  w_devs one_receiver = (pdev_b, ir attached_b) :: [] /\
  lock (ir attached_b) = false /\
  function (timer (ir attached_b)) = fn_flush_timer /\
  0 < 64 /\
  hz250 (timeout (rc (ir attached_b))) <= 2 ^ (64 - 1) /\
  Forall (fun dt => 0 <= dt < hz250 (timeout (rc (ir attached_b)))) [1; 2] /\
  exists w' tr,
    run hz250 64 true
        (burst [1; 2] ++
         [Call 0 CbIrq; Tick (hz250 (timeout (rc (ir attached_b)))); Call 0 CbTimer;
          Tick 500; Call 0 CbTimer]) one_receiver = Some (w', tr) /\
    List.length (filter is_edge_event tr) = 3%nat /\
    filter is_timeout_event tr = [(O, EvRawStore (RawEvent.mk 125000 false true))].
Proof.
  assert (H1 : w_devs one_receiver = (pdev_b, ir attached_b) :: [])
    by (vm_compute; reflexivity).
  assert (H2 : lock (ir attached_b) = false) by reflexivity.
  assert (H3 : function (timer (ir attached_b)) = fn_flush_timer) by reflexivity.
  assert (H4 : 0 < 64) by lia.
  assert (H5 : hz250 (timeout (rc (ir attached_b))) <= 2 ^ (64 - 1))
    by (vm_compute; discriminate).
  assert (H6 : Forall (fun dt => 0 <= dt < hz250 (timeout (rc (ir attached_b)))) [1; 2])
    by (repeat constructor; vm_compute; try reflexivity; discriminate).
  repeat (split; [assumption|]).
  destruct (burst_then_one_timeout hz250 64 true one_receiver pdev_b (ir attached_b) []
              [1; 2] 500 H1 H2 H3 H4 H5 H6) as (w' & tr & Hrun & Hedges & Htmo & _).
  exists w', tr. split; [exact Hrun|]. split; [exact Hedges|exact Htmo].
Defined.

(* ------------------------------------------------------------------ *)
(** * The interrupt controller's common routines
      (drivers/irqchip/irq-gic-common.c)

    The distributor is a bus of 32-bit cells and the controller lock.
    What a cell keeps of a write is the hardware's answer, [hw_write]: the
    code itself reads the configuration back because a write may not take.
    The constants of the controller's headers, the vendor switch
    CONFIG_AMLOGIC_FREERTOS and its helper are taken as given. *)

Module Gic.

Record gic : Type := mk_gic {
  gmmio : Z -> Z;
  irq_controller_lock : bool
}.

Inductive gevent : Set :=
| GLock                      (* raw_spin_lock_irqsave(&irq_controller_lock) *)
| GUnlock                    (* raw_spin_unlock_irqrestore *)
| GRead (addr value : Z)     (* readl_relaxed *)
| GWrite (value addr : Z)    (* writel_relaxed *)
| GSync.                     (* sync_access() *)

Definition G (A : Type) : Type := gic -> option (A * gic * list gevent).

Definition gret {A : Type} (a : A) : G A := fun g => Some (a, g, []).

Definition gbind {A B : Type} (m : G A) (f : A -> G B) : G B :=
  fun g =>
    match m g with
    | None => None
    | Some (a, g1, t1) =>
        match f a g1 with
        | None => None
        | Some (b, g2, t2) => Some (b, g2, t1 ++ t2)
        end
    end.

Declare Scope gic_scope.
Notation "x <- m ;; k" := (gbind m (fun x => k))
  (at level 61, m at next level, right associativity) : gic_scope.
Notation "m ;; k" := (gbind m (fun _ => k))
  (at level 61, right associativity) : gic_scope.
Local Open Scope gic_scope.

(** struct gic_quirk; [D] is what the data pointer points to. *)
Record gic_quirk (D : Type) : Type := mk_quirk {
  desc : option string;
  compatible : option string;
  property : option string;
  init : D -> bool * D;
  iidr : Z;
  mask : Z
}.
Arguments desc {D}.
Arguments compatible {D}.
Arguments property {D}.
Arguments init {D}.
Arguments iidr {D}.
Arguments mask {D}.

Definition is_some {A : Type} (o : option A) : bool :=
  match o with
  | Some _ => true
  | None => false
  end.

(** [quirks->init(data)], and pr_info with the description when it
    returns true: the new data and the descriptions logged. *)
Definition enable_quirk {D : Type} (q : gic_quirk D) (d : string) (data : D)
  : D * list string :=
  let (ok, data') := init q data in
  (data', if ok then [d] else []).

(** The table is walked up to the entry without a description; a table
    without one is walked past its end. *)
Fixpoint gic_enable_of_quirks {D : Type} (np : device_node)
         (quirks : list (gic_quirk D)) (data : D) : option (D * list string) :=
  match quirks with
  | [] => None
  | q :: rest =>
      match desc q with
      | None => Some (data, [])
      | Some d =>
          if negb (is_some (compatible q)) && negb (is_some (property q))
          then gic_enable_of_quirks np rest data
          else if match compatible q with
                  | Some c => negb (of_device_is_compatible np c)
                  | None => false
                  end
          then gic_enable_of_quirks np rest data
          else if match property q with
                  | Some p => negb (of_property_read_bool np p)
                  | None => false
                  end
          then gic_enable_of_quirks np rest data
          else
            let (data', log) := enable_quirk q d data in
            match gic_enable_of_quirks np rest data' with
            | Some (data'', log') => Some (data'', log ++ log')
            | None => None
            end
      end
  end.

Fixpoint gic_enable_quirks {D : Type} (iidr0 : Z)
         (quirks : list (gic_quirk D)) (data : D) : option (D * list string) :=
  match quirks with
  | [] => None
  | q :: rest =>
      match desc q with
      | None => Some (data, [])
      | Some d =>
          if is_some (compatible q) || is_some (property q)
          then gic_enable_quirks iidr0 rest data
          else if negb (iidr q =? Z.land (mask q) iidr0)
          then gic_enable_quirks iidr0 rest data
          else
            let (data', log) := enable_quirk q d data in
            match gic_enable_quirks iidr0 rest data' with
            | Some (data'', log') => Some (data'', log ++ log')
            | None => None
            end
      end
  end.

(** ** The indices of the loops *)

(** The indices a loop from [start] in steps of [step] up to [bound]
    visits. *)
Definition visited (start step bound i : Z) : Prop :=
  start <= i < bound /\ (i - start) mod step = 0.

Lemma visited_first (start step bound : Z) :
  0 < step -> start < bound -> visited start step bound start.
Proof.
  intros Hs Hlt. split; [lia|]. now rewrite Z.sub_diag, Z.mod_0_l by lia.
Qed.

Lemma visited_next (start step bound i : Z) :
  0 < step -> visited (start + step) step bound i -> visited start step bound i.
Proof.
  intros Hs [Hr Hm]. split; [lia|].
  replace (i - start) with ((i - (start + step)) + 1 * step) by lia.
  now rewrite Z.mod_add by lia.
Qed.

Lemma visited_cases (start step bound i : Z) :
  0 < step -> visited start step bound i ->
  i = start \/ visited (start + step) step bound i.
Proof.
  intros Hs [Hr Hm].
  destruct (Z.eq_dec i start) as [-> | Hne]; [now left | right].
  assert (Hd : i - start = step * ((i - start) / step))
    by (pose proof (Z.div_mod (i - start) step ltac:(lia)); lia).
  assert (Hq : 1 <= (i - start) / step) by nia.
  split; [nia|].
  replace (i - (start + step)) with ((i - start) + (-1) * step) by lia.
  now rewrite Z.mod_add by lia.
Qed.

Lemma visited_range (start step bound i : Z) :
  visited start step bound i -> start <= i < bound.
Proof. now intros [H _]. Qed.

Lemma visited_16 (n i : Z) : visited 32 16 n i -> 32 <= i < n /\ i / 4 = i / 16 * 4.
Proof. intros [Hr Hm]. split; [exact Hr|]. Z.div_mod_to_equations. lia. Qed.

Lemma visited_4 (s n i : Z) : s = 0 \/ s = 32 -> visited s 4 n i -> s <= i < n /\ i = i / 4 * 4.
Proof. intros Hs [Hr Hm]. split; [exact Hr|]. Z.div_mod_to_equations. lia. Qed.

Lemma visited_32 (s n i : Z) :
  s = 0 \/ s = 32 -> visited s 32 n i -> s <= i < n /\ i / 8 = i / 32 * 4.
Proof. intros Hs [Hr Hm]. split; [exact Hr|]. Z.div_mod_to_equations. lia. Qed.

Lemma visits_16 (n irq : Z) :
  32 <= irq < n -> visited 32 16 n (irq / 16 * 16) /\ irq / 16 * 16 / 4 = irq / 16 * 4.
Proof. intros Hr. unfold visited. Z.div_mod_to_equations. lia. Qed.

Lemma visits_4 (s n irq : Z) :
  s = 0 \/ s = 32 -> s <= irq < n ->
  visited s 4 n (irq / 4 * 4) /\ irq / 4 * 4 / 4 * 4 = irq / 4 * 4.
Proof. intros Hs Hr. unfold visited. Z.div_mod_to_equations. lia. Qed.

Lemma visits_32 (s n irq : Z) :
  s = 0 \/ s = 32 -> s <= irq < n ->
  visited s 32 n (irq / 32 * 32) /\ irq / 32 * 32 / 8 = irq / 32 * 4.
Proof. intros Hs Hr. unfold visited. Z.div_mod_to_equations. lia. Qed.

Section Distributor.

Variable hw_write : Z -> Z -> Z -> Z.
Variables IRQ_TYPE_LEVEL_MASK IRQ_TYPE_EDGE_BOTH EINVAL INT_MAX : Z.
Variables GIC_DIST_CONFIG GIC_DIST_PRI GIC_DIST_ACTIVE_CLEAR GIC_DIST_ENABLE_CLEAR : Z.
Variables GICD_INT_ACTLOW_LVLTRIG GICD_INT_DEF_PRI_X4 GICD_INT_EN_CLR_X32 : Z.
Variable CONFIG_AMLOGIC_FREERTOS : bool.
Variable freertos_get_irqregval : Z -> Z -> Z -> Z -> Z.

Definition readl_relaxed (addr : Z) : G Z :=
  fun g => Some (u32 (gmmio g addr), g, [GRead addr (u32 (gmmio g addr))]).

Definition writel_relaxed (data addr : Z) : G unit :=
  fun g => Some (tt,
                 mk_gic (poke (gmmio g) addr (hw_write addr (gmmio g addr) (u32 data)))
                        (irq_controller_lock g),
                 [GWrite (u32 data) addr]).

Definition raw_spin_lock_irqsave : G unit :=
  fun g => if irq_controller_lock g then None
           else Some (tt, mk_gic (gmmio g) true, [GLock]).

Definition raw_spin_unlock_irqrestore : G unit :=
  fun g => Some (tt, mk_gic (gmmio g) false, [GUnlock]).

(** [if (sync_access) sync_access();] with [sync_access] given or NULL. *)
Definition call_sync_access (sync_access : bool) : G unit :=
  fun g => Some (tt, g, if sync_access then [GSync] else []).

Definition gic_configure_irq (irq type base : Z) (sync_access : bool) : G Z :=
  let confmask := u32 (Z.shiftl 0x2 ((irq mod 16) * 2)) in
  let confoff := u32 ((irq / 16) * 4) in
  raw_spin_lock_irqsave ;;
  oldval <- readl_relaxed (base + confoff) ;;
  let val :=
    if negb (Z.land type IRQ_TYPE_LEVEL_MASK =? 0)
    then Z.land oldval (u32_not confmask)
    else if negb (Z.land type IRQ_TYPE_EDGE_BOTH =? 0)
         then Z.lor oldval confmask
         else oldval in
  (* If the current configuration is the same, then we are done *)
  if val =? oldval
  then raw_spin_unlock_irqrestore ;; gret 0
  else
    writel_relaxed val (base + confoff) ;;
    back <- readl_relaxed (base + confoff) ;;
    let ret := if negb (back =? val) then - EINVAL else 0 in
    raw_spin_unlock_irqrestore ;;
    call_sync_access sync_access ;;
    gret ret.

(** [for (i = start; i < bound; i += step) body(i)] on [unsigned int];
    [fuel] bounds the number of rounds. *)
Fixpoint for_uint (fuel : nat) (i step bound : Z) (body : Z -> G unit) : G unit :=
  match fuel with
  | O => fun _ => None
  | S fuel' =>
      if i <? bound
      then body i ;; for_uint fuel' (u32 (i + step)) step bound body
      else gret tt
  end.

(** The same on [int]: an overflow of [i] is undefined, the run fails. *)
Fixpoint for_int (fuel : nat) (i step bound : Z) (body : Z -> G unit) : G unit :=
  match fuel with
  | O => fun _ => None
  | S fuel' =>
      if i <? bound
      then body i ;;
           (if i + step <=? INT_MAX
            then for_int fuel' (i + step) step bound body
            else fun _ => None)
      else gret tt
  end.

Definition gic_dist_config (fuel : nat) (base gic_irqs : Z) (sync_access : bool)
  : G unit :=
  (* Set all global interrupts to be level triggered, active low. *)
  for_uint fuel 32 16 (u32 gic_irqs)
    (fun i =>
       if CONFIG_AMLOGIC_FREERTOS
       then tmp <- readl_relaxed (base + GIC_DIST_CONFIG + i / 4) ;;
            let tmp := freertos_get_irqregval GICD_INT_ACTLOW_LVLTRIG tmp i 16 in
            writel_relaxed tmp (base + GIC_DIST_CONFIG + i / 4)
       else writel_relaxed GICD_INT_ACTLOW_LVLTRIG (base + GIC_DIST_CONFIG + i / 4)) ;;
  (* Set priority on all global interrupts. *)
  for_uint fuel 32 4 (u32 gic_irqs)
    (fun i =>
       if CONFIG_AMLOGIC_FREERTOS
       then tmp <- readl_relaxed (base + GIC_DIST_PRI + i) ;;
            let tmp := freertos_get_irqregval GICD_INT_DEF_PRI_X4 tmp i 4 in
            writel_relaxed tmp (base + GIC_DIST_PRI + i)
       else writel_relaxed GICD_INT_DEF_PRI_X4 (base + GIC_DIST_PRI + i)) ;;
  (* Deactivate and disable all SPIs. *)
  for_uint fuel 32 32 (u32 gic_irqs)
    (fun i =>
       if CONFIG_AMLOGIC_FREERTOS
       then writel_relaxed (freertos_get_irqregval GICD_INT_EN_CLR_X32 0 i 32)
                           (base + GIC_DIST_ACTIVE_CLEAR + i / 8) ;;
            writel_relaxed (freertos_get_irqregval GICD_INT_EN_CLR_X32 0 i 32)
                           (base + GIC_DIST_ENABLE_CLEAR + i / 8)
       else writel_relaxed GICD_INT_EN_CLR_X32 (base + GIC_DIST_ACTIVE_CLEAR + i / 8) ;;
            writel_relaxed GICD_INT_EN_CLR_X32 (base + GIC_DIST_ENABLE_CLEAR + i / 8)) ;;
  call_sync_access sync_access.

Definition gic_cpu_config (fuel : nat) (base nr : Z) (sync_access : bool) : G unit :=
  (* disable all private interrupts, make sure everything is deactivated *)
  for_int fuel 0 32 nr
    (fun i =>
       writel_relaxed GICD_INT_EN_CLR_X32 (base + GIC_DIST_ACTIVE_CLEAR + i / 8) ;;
       writel_relaxed GICD_INT_EN_CLR_X32 (base + GIC_DIST_ENABLE_CLEAR + i / 8)) ;;
  (* Set priority on PPI and SGI interrupts *)
  for_int fuel 0 4 nr
    (fun i =>
       if i * 4 <=? INT_MAX
       then writel_relaxed GICD_INT_DEF_PRI_X4 (base + GIC_DIST_PRI + i * 4 / 4)
       else fun _ => None) ;;
  call_sync_access sync_access.

(** ** Trigger configuration *)

(** The trigger bit of interrupt [irq] in its configuration register. *)
Definition conf_bit (irq : Z) : Z := 2 * (irq mod 16) + 1.

Lemma confmask_bits (irq n : Z) :
  0 <= n ->
  Z.testbit (u32 (Z.shiftl 0x2 ((irq mod 16) * 2))) n = (n =? conf_bit irq).
Proof.
  intros Hn. unfold conf_bit.
  pose proof (Z.mod_pos_bound irq 16 ltac:(lia)) as Hk.
  rewrite Z.shiftl_mul_pow2 by lia.
  replace (2 * 2 ^ (irq mod 16 * 2)) with (2 ^ (2 * (irq mod 16) + 1))
    by (rewrite Z.pow_add_r, Z.pow_1_r by lia; rewrite (Z.mul_comm 2 (irq mod 16)); lia).
  rewrite testbit_u32, Z.pow2_bits_eqb by lia.
  destruct (Z.eqb_spec (2 * (irq mod 16) + 1) n) as [<- | Hne].
  - rewrite Z.eqb_refl.
    replace (2 * (irq mod 16) + 1 <? 32) with true by (symmetry; apply Z.ltb_lt; lia).
    reflexivity.
  - replace (n =? 2 * (irq mod 16) + 1) with false by (symmetry; apply Z.eqb_neq; lia).
    reflexivity.
Qed.

Lemma confoff_fits (irq : Z) : is_u32 irq -> u32 (irq / 16 * 4) = irq / 16 * 4.
Proof.
  intros [Hlo Hhi]. apply u32_id. unfold is_u32.
  assert (0 <= irq / 16) by (apply Z.div_pos; lia).
  assert (irq / 16 * 16 <= irq) by (rewrite Z.mul_comm; apply Z.mul_div_le; lia).
  lia.
Qed.

(** The configuration the code computes from the old one. *)
Definition new_conf (irq type old : Z) : Z :=
  if negb (Z.land type IRQ_TYPE_LEVEL_MASK =? 0)
  then Z.land old (u32_not (u32 (Z.shiftl 0x2 ((irq mod 16) * 2))))
  else if negb (Z.land type IRQ_TYPE_EDGE_BOTH =? 0)
       then Z.lor old (u32 (Z.shiftl 0x2 ((irq mod 16) * 2)))
       else old.

Lemma new_conf_bits (irq type old n : Z) :
  0 <= n ->
  Z.testbit (new_conf irq type (u32 old)) n =
  if n =? conf_bit irq
  then (if negb (Z.land type IRQ_TYPE_LEVEL_MASK =? 0) then false
        else if negb (Z.land type IRQ_TYPE_EDGE_BOTH =? 0) then true
             else Z.testbit (u32 old) n)
  else Z.testbit (u32 old) n.
Proof.
  intros Hn. unfold new_conf.
  destruct (negb (Z.land type IRQ_TYPE_LEVEL_MASK =? 0)).
  - rewrite Z.land_spec, testbit_u32_not, confmask_bits, testbit_u32 by lia.
    destruct (n =? conf_bit irq), (Z.testbit old n), (n <? 32); reflexivity.
  - destruct (negb (Z.land type IRQ_TYPE_EDGE_BOTH =? 0)).
    + rewrite Z.lor_spec, confmask_bits by lia.
      destruct (n =? conf_bit irq); [apply orb_true_r | apply orb_false_r].
    + now destruct (n =? conf_bit irq).
Qed.

Lemma gic_configure_irq_run (irq type base : Z) (sync_access : bool) (g : gic) :
  irq_controller_lock g = false ->
  is_u32 irq ->
  let addr := base + irq / 16 * 4 in
  let old := u32 (gmmio g addr) in
  let val := new_conf irq type old in
  gic_configure_irq irq type base sync_access g =
  if val =? old
  then Some (0, mk_gic (gmmio g) false, [GLock; GRead addr old; GUnlock])
  else
    let kept := hw_write addr (gmmio g addr) (u32 val) in
    Some (if negb (u32 kept =? val) then - EINVAL else 0,
          mk_gic (poke (gmmio g) addr kept) false,
          [GLock; GRead addr old; GWrite (u32 val) addr; GRead addr (u32 kept); GUnlock]
            ++ (if sync_access then [GSync] else [])).
Proof.
  intros Hfree Hirq addr old val. subst addr old val.
  unfold gic_configure_irq, new_conf. rewrite (confoff_fits irq Hirq).
  unfold gbind at 1. unfold raw_spin_lock_irqsave at 1. rewrite Hfree.
  unfold gbind at 1. unfold readl_relaxed at 1. cbn [gmmio irq_controller_lock].
  match goal with
  | |- context [if ?c =? ?o then _ else _] => destruct (c =? o)
  end.
  - reflexivity.
  - unfold gbind, writel_relaxed, readl_relaxed, raw_spin_unlock_irqrestore,
      call_sync_access, gret.
    cbn [gmmio irq_controller_lock app]. rewrite poke_same.
    destruct sync_access; reflexivity.
Qed.
(** The trigger bit the type asks for, given what the bit is now. *)
Definition wanted_bit (type : Z) (now : bool) : bool :=
  if negb (Z.land type IRQ_TYPE_LEVEL_MASK =? 0) then false
  else if negb (Z.land type IRQ_TYPE_EDGE_BOTH =? 0) then true
       else now.

Lemma new_conf_range (irq type old : Z) : is_u32 (new_conf irq type (u32 old)).
Proof.
  unfold new_conf.
  destruct (negb (Z.land type IRQ_TYPE_LEVEL_MASK =? 0)).
  - apply land_fits_l, u32_range.
  - destruct (negb (Z.land type IRQ_TYPE_EDGE_BOTH =? 0)); [|apply u32_range].
    rewrite <- u32_lor_fits by apply u32_range. apply u32_range.
Qed.

Lemma new_conf_same (irq type old : Z) :
  new_conf irq type (u32 old) = u32 old <->
  wanted_bit type (Z.testbit (u32 old) (conf_bit irq)) = Z.testbit (u32 old) (conf_bit irq).
Proof.
  assert (Hcb : 0 <= conf_bit irq)
    by (unfold conf_bit; pose proof (Z.mod_pos_bound irq 16 ltac:(lia)); lia).
  split.
  - intros Heq. rewrite <- Heq at 2. rewrite new_conf_bits, Z.eqb_refl by exact Hcb.
    reflexivity.
  - intros Hbit. apply Z.bits_inj'. intros n Hn. rewrite new_conf_bits by exact Hn.
    destruct (Z.eqb_spec n (conf_bit irq)) as [-> | Hne]; [exact Hbit | reflexivity].
Qed.

(** X11: gic_configure_irq returns when the controller lock is free, and
    releases it.  If it writes at all, it writes the configuration
    register of the interrupt, once, and the value written is the value
    read with one bit changed: the trigger bit of this interrupt, cleared
    for a level type, set for an edge type; the configuration of the
    fifteen other interrupts of the register is written back as read, and
    no other cell of the distributor is written. *)
Theorem gic_configure_irq_one_bit (irq type base : Z) (sync_access : bool) (g : gic) :
  irq_controller_lock g = false ->
  is_u32 irq ->
  let addr := base + irq / 16 * 4 in
  exists r g' tr,
    gic_configure_irq irq type base sync_access g = Some (r, g', tr) /\
    irq_controller_lock g' = false /\
    (forall v a, In (GWrite v a) tr ->
       a = addr /\
       Z.testbit v (conf_bit irq) = (Z.land type IRQ_TYPE_LEVEL_MASK =? 0) /\
       Z.testbit (u32 (gmmio g addr)) (conf_bit irq) =
         negb (Z.land type IRQ_TYPE_LEVEL_MASK =? 0) /\
       forall n, 0 <= n -> n <> conf_bit irq ->
                 Z.testbit v n = Z.testbit (u32 (gmmio g addr)) n) /\
    (forall a, a <> addr -> gmmio g' a = gmmio g a).
Proof.
  intros Hfree Hirq addr.
  pose proof (gic_configure_irq_run irq type base sync_access g Hfree Hirq) as Hrun.
  cbv zeta in Hrun. fold addr in Hrun.
  assert (Hcb : 0 <= conf_bit irq)
    by (unfold conf_bit; pose proof (Z.mod_pos_bound irq 16 ltac:(lia)); lia).
  destruct (Z.eqb_spec (new_conf irq type (u32 (gmmio g addr))) (u32 (gmmio g addr)))
    as [Hsame | Hdiff].
  - do 3 eexists. split; [exact Hrun|]. split; [reflexivity|]. split.
    + intros v a [H | [H | [H | []]]]; discriminate H.
    + reflexivity.
  - do 3 eexists. split; [exact Hrun|]. split; [reflexivity|]. split.
    + intros v a Hin.
      assert (Hva : v = u32 (new_conf irq type (u32 (gmmio g addr))) /\ a = addr).
      { cbn [app In] in Hin.
        destruct Hin as [H | [H | [H | [H | [H | H]]]]]; try discriminate H.
        - injection H as <- <-. now split.
        - destruct sync_access; cbn [In] in H; [destruct H as [H | []]; discriminate H|].
          contradiction. }
      destruct Hva as [-> ->]. rewrite (u32_id _ (new_conf_range _ _ _)).
      assert (Hne : wanted_bit type (Z.testbit (u32 (gmmio g addr)) (conf_bit irq)) <>
                    Z.testbit (u32 (gmmio g addr)) (conf_bit irq))
        by (intros H; apply Hdiff; now apply new_conf_same).
      split; [reflexivity|]. split; [|split].
      * rewrite new_conf_bits, Z.eqb_refl by exact Hcb. unfold wanted_bit in Hne.
        destruct (Z.land type IRQ_TYPE_LEVEL_MASK =? 0); cbn [negb] in *; [|reflexivity].
        destruct (negb (Z.land type IRQ_TYPE_EDGE_BOTH =? 0)); [reflexivity|congruence].
      * unfold wanted_bit in Hne.
        destruct (Z.land type IRQ_TYPE_LEVEL_MASK =? 0); cbn [negb] in *.
        -- destruct (negb (Z.land type IRQ_TYPE_EDGE_BOTH =? 0)); [|congruence].
           destruct (Z.testbit (u32 (gmmio g addr)) (conf_bit irq)); congruence.
        -- destruct (Z.testbit (u32 (gmmio g addr)) (conf_bit irq)); congruence.
      * intros n Hn Hnb. rewrite new_conf_bits by exact Hn.
        now replace (n =? conf_bit irq) with false by (symmetry; apply Z.eqb_neq; lia).
    + intros a Ha. cbn [gmmio]. now apply poke_other.
Qed.

(** X12: the result of gic_configure_irq.  When the register already has
    the trigger the type asks for (or the type asks for none), it returns
    0 after one read, without writing and without calling sync_access,
    even when one is given.  Otherwise it writes once, reads back once,
    and returns 0 if the register reads the written value and -EINVAL if
    not; sync_access is then called, after the unlock, exactly when
    given. *)
Theorem gic_configure_irq_result (irq type base : Z) (sync_access : bool) (g : gic) :
  irq_controller_lock g = false ->
  is_u32 irq ->
  let addr := base + irq / 16 * 4 in
  let old := u32 (gmmio g addr) in
  exists r g' tr,
    gic_configure_irq irq type base sync_access g = Some (r, g', tr) /\
    (wanted_bit type (Z.testbit old (conf_bit irq)) = Z.testbit old (conf_bit irq) ->
     r = 0 /\ g' = mk_gic (gmmio g) false /\ tr = [GLock; GRead addr old; GUnlock]) /\
    (wanted_bit type (Z.testbit old (conf_bit irq)) <> Z.testbit old (conf_bit irq) ->
     exists val back,
       tr = [GLock; GRead addr old; GWrite val addr; GRead addr back; GUnlock]
              ++ (if sync_access then [GSync] else []) /\
       back = u32 (gmmio g' addr) /\
       r = (if back =? val then 0 else - EINVAL)).
Proof.
  intros Hfree Hirq addr old.
  pose proof (gic_configure_irq_run irq type base sync_access g Hfree Hirq) as Hrun.
  cbv zeta in Hrun. fold addr old in Hrun.
  destruct (Z.eqb_spec (new_conf irq type old) old) as [Hsame | Hdiff].
  - do 3 eexists. split; [exact Hrun|]. split.
    + intros _. repeat split.
    + intros Hne. contradiction Hne. now apply new_conf_same.
  - do 3 eexists. split; [exact Hrun|]. split.
    + intros Hkeep. contradiction Hdiff. now apply new_conf_same.
    + intros _. do 2 eexists. split; [reflexivity|]. cbn [gmmio]. rewrite poke_same.
      split; [reflexivity|].
      rewrite (u32_id (new_conf irq type old)) by apply new_conf_range.
      now destruct (u32 (hw_write addr (gmmio g addr) (new_conf irq type old))
                    =? new_conf irq type old).
Qed.

(** X13: on a distributor that keeps what is written, gic_configure_irq
    returns 0 and leaves the trigger bit of the interrupt as the type
    asks, every other bit of the register as it was; a second call with
    the same type then finds nothing to do: it reads once and writes
    nothing. *)
Theorem gic_configure_irq_settles (irq type base : Z) (s1 s2 : bool) (g : gic) :
  (forall a o d, hw_write a o d = d) ->
  irq_controller_lock g = false ->
  is_u32 irq ->
  let addr := base + irq / 16 * 4 in
  exists g' tr,
    gic_configure_irq irq type base s1 g = Some (0, g', tr) /\
    (forall n, 0 <= n ->
       Z.testbit (u32 (gmmio g' addr)) n =
       if n =? conf_bit irq
       then wanted_bit type (Z.testbit (u32 (gmmio g addr)) n)
       else Z.testbit (u32 (gmmio g addr)) n) /\
    gic_configure_irq irq type base s2 g' =
      Some (0, g', [GLock; GRead addr (u32 (gmmio g' addr)); GUnlock]).
Proof.
  intros Hhw Hfree Hirq addr.
  pose proof (gic_configure_irq_run irq type base s1 g Hfree Hirq) as Hrun.
  cbv zeta in Hrun. fold addr in Hrun.
  assert (Hbits : forall n, 0 <= n ->
            Z.testbit (new_conf irq type (u32 (gmmio g addr))) n =
            if n =? conf_bit irq
            then wanted_bit type (Z.testbit (u32 (gmmio g addr)) n)
            else Z.testbit (u32 (gmmio g addr)) n).
  { intros n Hn. rewrite new_conf_bits by exact Hn. reflexivity. }
  assert (Hagain : forall x, x = new_conf irq type (u32 (gmmio g addr)) ->
            new_conf irq type x = x).
  { intros x ->. rewrite <- (u32_id _ (new_conf_range irq type (gmmio g addr))).
    apply new_conf_same. rewrite (u32_id _ (new_conf_range irq type (gmmio g addr))).
    assert (Hcb : 0 <= conf_bit irq)
      by (unfold conf_bit; pose proof (Z.mod_pos_bound irq 16 ltac:(lia)); lia).
    rewrite Hbits, Z.eqb_refl by exact Hcb. unfold wanted_bit.
    destruct (negb (Z.land type IRQ_TYPE_LEVEL_MASK =? 0)); [reflexivity|].
    destruct (negb (Z.land type IRQ_TYPE_EDGE_BOTH =? 0)); reflexivity. }
  destruct (Z.eqb_spec (new_conf irq type (u32 (gmmio g addr))) (u32 (gmmio g addr)))
    as [Hsame | Hdiff].
  - do 2 eexists. split; [exact Hrun|]. cbn [gmmio]. split.
    + intros n Hn. rewrite <- Hsame at 1. now apply Hbits.
    + rewrite (gic_configure_irq_run irq type base s2 (mk_gic (gmmio g) false) eq_refl Hirq).
      cbv zeta. cbn [gmmio]. fold addr. rewrite Hsame, Z.eqb_refl. reflexivity.
  - rewrite Hhw, (u32_id _ (u32_range _)) in Hrun.
    rewrite (u32_id _ (new_conf_range _ _ _)), Z.eqb_refl in Hrun. cbn [negb] in Hrun.
    do 2 eexists. split; [exact Hrun|]. cbn [gmmio]. rewrite poke_same.
    rewrite (u32_id _ (new_conf_range _ _ _)). split; [exact Hbits|].
    match goal with
    | |- gic_configure_irq _ _ _ _ ?g1 = _ =>
        rewrite (gic_configure_irq_run irq type base s2 g1 eq_refl Hirq)
    end.
    cbv zeta. cbn [gmmio]. fold addr. rewrite poke_same.
    rewrite (u32_id _ (new_conf_range _ _ _)).
    rewrite (Hagain _ eq_refl), Z.eqb_refl. reflexivity.
Qed.
(** ** The loops *)

Lemma gbind_run {A B : Type} (m : G A) (f : A -> G B) (g : gic) a g1 t1 b g2 t2 :
  m g = Some (a, g1, t1) -> f a g1 = Some (b, g2, t2) ->
  gbind m f g = Some (b, g2, t1 ++ t2).
Proof. intros H1 H2. unfold gbind. now rewrite H1, H2. Qed.

Lemma writel_relaxed_run (data addr : Z) (g : gic) :
  writel_relaxed data addr g =
  Some (tt, mk_gic (poke (gmmio g) addr (hw_write addr (gmmio g addr) (u32 data)))
                   (irq_controller_lock g),
        [GWrite (u32 data) addr]).
Proof. reflexivity. Qed.

(** What a counted loop over a body that returns does, once it is given
    rounds enough: it returns; each event is an event of a round of an
    index visited; each index visited has a round, whose events are in
    the trace and after which whatever the rounds keep is kept; and what
    the rounds keep, the loop keeps. *)
Definition loop_spec (body : Z -> G unit) (idx : Z -> Prop) (g : gic)
           (r : option (unit * gic * list gevent)) : Prop :=
  exists g' tr,
    r = Some (tt, g', tr) /\
    (forall e, In e tr ->
       exists i g0 g1 t, idx i /\ body i g0 = Some (tt, g1, t) /\ In e t) /\
    (forall i, idx i ->
       exists g0 g1 t,
         body i g0 = Some (tt, g1, t) /\ incl t tr /\
         forall R : gic -> Prop,
           (forall j g2 g3 t', idx j -> body j g2 = Some (tt, g3, t') -> R g2 -> R g3) ->
           R g1 -> R g') /\
    (forall I : gic -> Prop,
       (forall j g2 g3 t', idx j -> body j g2 = Some (tt, g3, t') -> I g2 -> I g3) ->
       I g -> I g').

Lemma loop_spec_idx (body : Z -> G unit) (idx idx' : Z -> Prop) g r :
  (forall i, idx i <-> idx' i) -> loop_spec body idx g r -> loop_spec body idx' g r.
Proof.
  intros Hi (g' & tr & Hr & Hev & Hvis & Hinv). exists g', tr. split; [exact Hr|].
  split; [|split].
  - intros e He. destruct (Hev e He) as (i & g0 & g1 & t & Hidx & Hb & Hin).
    exists i, g0, g1, t. split; [now apply Hi | now split].
  - intros i Hidx. apply Hi in Hidx. destruct (Hvis i Hidx) as (g0 & g1 & t & Hb & Hincl & HR).
    exists g0, g1, t. split; [exact Hb|]. split; [exact Hincl|].
    intros R HRk. apply HR. intros j g2 g3 t' Hj. apply HRk. now apply Hi.
  - intros I HI. apply Hinv. intros j g2 g3 t' Hj. apply HI. now apply Hi.
Qed.

Lemma loop_step (body : Z -> G unit) (start step bound : Z) (g g1 : gic) t1 rest r :
  0 < step -> start < bound ->
  body start g = Some (tt, g1, t1) ->
  loop_spec body (visited (start + step) step bound) g1 (rest g1) ->
  r = gbind (body start) (fun _ => rest) g ->
  loop_spec body (visited start step bound) g r.
Proof.
  intros Hs Hlt Hb (g' & tr & Hr & Hev & Hvis & Hinv) ->.
  exists g', (t1 ++ tr). split; [now apply gbind_run with (g1 := g1) (a := tt)|].
  split; [|split].
  - intros e He. apply in_app_or in He. destruct He as [He | He].
    + exists start, g, g1, t1. split; [now apply visited_first | now split].
    + destruct (Hev e He) as (i & g0 & g2 & t & Hidx & Hbi & Hin).
      exists i, g0, g2, t. split; [now apply visited_next | now split].
  - intros i Hidx. destruct (visited_cases _ _ _ _ Hs Hidx) as [-> | Hidx'].
    + exists g, g1, t1. split; [exact Hb|]. split; [now apply incl_appl, incl_refl|].
      intros R HRk HR1. apply (Hinv R); [|exact HR1].
      intros j g2 g3 t' Hj. apply HRk. now apply visited_next.
    + destruct (Hvis i Hidx') as (g0 & g2 & t & Hbi & Hincl & HR).
      exists g0, g2, t. split; [exact Hbi|]. split; [now apply incl_appr|].
      intros R HRk. apply HR. intros j g3 g4 t' Hj. apply HRk. now apply visited_next.
  - intros I HI Hg. apply (Hinv I).
    + intros j g2 g3 t' Hj. apply HI. now apply visited_next.
    + apply (HI start g g1 t1); [now apply visited_first | exact Hb | exact Hg].
Qed.

Lemma loop_done (body : Z -> G unit) (start step bound : Z) (g : gic) :
  bound <= start -> loop_spec body (visited start step bound) g (gret tt g).
Proof.
  intros Hle. exists g, []. split; [reflexivity|]. split; [|split].
  - intros e [].
  - intros i [Hr _]. lia.
  - intros I _ Hg. exact Hg.
Qed.

Lemma for_uint_spec (step bound : Z) (body : Z -> G unit) :
  0 < step -> bound + step <= 2 ^ 32 ->
  (forall i g, 0 <= i < bound -> exists g' t, body i g = Some (tt, g', t)) ->
  forall (fuel : nat) (i : Z) (g : gic),
    0 <= i -> Z.max 0 (bound - i) + step <= step * Z.of_nat fuel ->
    loop_spec body (visited i step bound) g (for_uint fuel i step bound body g).
Proof.
  intros Hs Hb Hbody fuel. induction fuel as [|fuel IH]; intros i g Hi Hfuel; [lia|].
  rewrite Nat2Z.inj_succ in Hfuel. cbn [for_uint]. destruct (Z.ltb_spec i bound) as [Hlt | Hge].
  - destruct (Hbody i g ltac:(lia)) as (g1 & t1 & Hrun).
    assert (Hnext : u32 (i + step) = i + step) by (apply u32_id; unfold is_u32; lia).
    rewrite Hnext.
    apply loop_step with (g1 := g1) (t1 := t1)
                         (rest := for_uint fuel (i + step) step bound body);
      try assumption; [|reflexivity].
    apply IH; [lia|]. rewrite Z.mul_succ_r in Hfuel.
    destruct fuel as [|fuel']; [lia|]. rewrite Nat2Z.inj_succ, Z.mul_succ_r in *. nia.
  - now apply loop_done.
Qed.

Lemma for_int_spec (step bound : Z) (body : Z -> G unit) :
  0 < step -> bound + step <= INT_MAX + 1 ->
  (forall i g, 0 <= i < bound -> exists g' t, body i g = Some (tt, g', t)) ->
  forall (fuel : nat) (i : Z) (g : gic),
    0 <= i -> Z.max 0 (bound - i) + step <= step * Z.of_nat fuel ->
    loop_spec body (visited i step bound) g (for_int fuel i step bound body g).
Proof.
  intros Hs Hb Hbody fuel. induction fuel as [|fuel IH]; intros i g Hi Hfuel; [lia|].
  rewrite Nat2Z.inj_succ in Hfuel. cbn [for_int]. destruct (Z.ltb_spec i bound) as [Hlt | Hge].
  - destruct (Hbody i g ltac:(lia)) as (g1 & t1 & Hrun).
    replace (i + step <=? INT_MAX) with true by (symmetry; apply Z.leb_le; lia).
    apply loop_step with (g1 := g1) (t1 := t1)
                         (rest := for_int fuel (i + step) step bound body);
      try assumption; [|reflexivity].
    apply IH; [lia|]. rewrite Z.mul_succ_r in Hfuel.
    destruct fuel as [|fuel']; [lia|]. rewrite Nat2Z.inj_succ, Z.mul_succ_r in *. nia.
  - now apply loop_done.
Qed.
(** ** gic_dist_config and gic_cpu_config *)

(** The distributor registers of an interrupt: a configuration word for
    every sixteen interrupts, a priority word for every four, a bit of
    the clear-active and clear-enable words for every thirty-two.
    [conf_reg] is the word [gic_configure_irq] addresses from
    [base + GIC_DIST_CONFIG]. *)
Definition conf_reg (base irq : Z) : Z := base + GIC_DIST_CONFIG + irq / 16 * 4.
Definition pri_reg (base irq : Z) : Z := base + GIC_DIST_PRI + irq / 4 * 4.
Definition active_clear_reg (base irq : Z) : Z :=
  base + GIC_DIST_ACTIVE_CLEAR + irq / 32 * 4.
Definition enable_clear_reg (base irq : Z) : Z :=
  base + GIC_DIST_ENABLE_CLEAR + irq / 32 * 4.

Definition spi_reg (base irq a : Z) : Prop :=
  a = conf_reg base irq \/ a = pri_reg base irq \/
  a = active_clear_reg base irq \/ a = enable_clear_reg base irq.

(** The cell of a bus access. *)
Definition gevent_addr (e : gevent) : option Z :=
  match e with
  | GRead a _ => Some a
  | GWrite _ a => Some a
  | _ => None
  end.

(** The rounds of the three loops of [gic_dist_config]. *)
Definition dist_conf_round (base i : Z) : G unit :=
  if CONFIG_AMLOGIC_FREERTOS
  then tmp <- readl_relaxed (base + GIC_DIST_CONFIG + i / 4) ;;
       let tmp := freertos_get_irqregval GICD_INT_ACTLOW_LVLTRIG tmp i 16 in
       writel_relaxed tmp (base + GIC_DIST_CONFIG + i / 4)
  else writel_relaxed GICD_INT_ACTLOW_LVLTRIG (base + GIC_DIST_CONFIG + i / 4).

Definition dist_pri_round (base i : Z) : G unit :=
  if CONFIG_AMLOGIC_FREERTOS
  then tmp <- readl_relaxed (base + GIC_DIST_PRI + i) ;;
       let tmp := freertos_get_irqregval GICD_INT_DEF_PRI_X4 tmp i 4 in
       writel_relaxed tmp (base + GIC_DIST_PRI + i)
  else writel_relaxed GICD_INT_DEF_PRI_X4 (base + GIC_DIST_PRI + i).

Definition dist_clear_round (base i : Z) : G unit :=
  if CONFIG_AMLOGIC_FREERTOS
  then writel_relaxed (freertos_get_irqregval GICD_INT_EN_CLR_X32 0 i 32)
                      (base + GIC_DIST_ACTIVE_CLEAR + i / 8) ;;
       writel_relaxed (freertos_get_irqregval GICD_INT_EN_CLR_X32 0 i 32)
                      (base + GIC_DIST_ENABLE_CLEAR + i / 8)
  else writel_relaxed GICD_INT_EN_CLR_X32 (base + GIC_DIST_ACTIVE_CLEAR + i / 8) ;;
       writel_relaxed GICD_INT_EN_CLR_X32 (base + GIC_DIST_ENABLE_CLEAR + i / 8).

Lemma gic_dist_config_rounds (fuel : nat) (base gic_irqs : Z) (sync_access : bool) :
  gic_dist_config fuel base gic_irqs sync_access =
  (for_uint fuel 32 16 (u32 gic_irqs) (dist_conf_round base) ;;
   for_uint fuel 32 4 (u32 gic_irqs) (dist_pri_round base) ;;
   for_uint fuel 32 32 (u32 gic_irqs) (dist_clear_round base) ;;
   call_sync_access sync_access).
Proof. reflexivity. Qed.

(** The rounds of the two loops of [gic_cpu_config]. *)
Definition cpu_clear_round (base i : Z) : G unit :=
  writel_relaxed GICD_INT_EN_CLR_X32 (base + GIC_DIST_ACTIVE_CLEAR + i / 8) ;;
  writel_relaxed GICD_INT_EN_CLR_X32 (base + GIC_DIST_ENABLE_CLEAR + i / 8).

Definition cpu_pri_round (base i : Z) : G unit :=
  if i * 4 <=? INT_MAX
  then writel_relaxed GICD_INT_DEF_PRI_X4 (base + GIC_DIST_PRI + i * 4 / 4)
  else fun _ => None.

Lemma gic_cpu_config_rounds (fuel : nat) (base nr : Z) (sync_access : bool) :
  gic_cpu_config fuel base nr sync_access =
  (for_int fuel 0 32 nr (cpu_clear_round base) ;;
   for_int fuel 0 4 nr (cpu_pri_round base) ;;
   call_sync_access sync_access).
Proof. reflexivity. Qed.

(** *** The rounds *)

Lemma dist_conf_round_run (base i : Z) (g : gic) :
  exists g' t, dist_conf_round base i g = Some (tt, g', t).
Proof.
  unfold dist_conf_round. destruct CONFIG_AMLOGIC_FREERTOS; do 2 eexists; reflexivity.
Qed.

Lemma dist_pri_round_run (base i : Z) (g : gic) :
  exists g' t, dist_pri_round base i g = Some (tt, g', t).
Proof.
  unfold dist_pri_round. destruct CONFIG_AMLOGIC_FREERTOS; do 2 eexists; reflexivity.
Qed.

Lemma dist_clear_round_run (base i : Z) (g : gic) :
  exists g' t, dist_clear_round base i g = Some (tt, g', t).
Proof.
  unfold dist_clear_round. destruct CONFIG_AMLOGIC_FREERTOS; do 2 eexists; reflexivity.
Qed.

Lemma cpu_clear_round_run (base i : Z) (g : gic) :
  exists g' t, cpu_clear_round base i g = Some (tt, g', t).
Proof. do 2 eexists; reflexivity. Qed.

Lemma cpu_pri_round_run (base i : Z) (g : gic) :
  i * 4 <= INT_MAX -> exists g' t, cpu_pri_round base i g = Some (tt, g', t).
Proof.
  intros Hi. unfold cpu_pri_round.
  replace (i * 4 <=? INT_MAX) with true by (symmetry; now apply Z.leb_le).
  do 2 eexists; reflexivity.
Qed.

(** A round on one cell: it keeps the lock and every other cell, all its
    accesses are to the cell, and it writes the cell once, last. *)
Definition round_on (a : Z) (plain : Z) (g0 g1 : gic) (t : list gevent) : Prop :=
  irq_controller_lock g1 = irq_controller_lock g0 /\
  (forall x, x <> a -> gmmio g1 x = gmmio g0 x) /\
  (forall e, In e t -> gevent_addr e = Some a) /\
  (exists v, In (GWrite v a) t /\ gmmio g1 a = hw_write a (gmmio g0 a) v /\
             (CONFIG_AMLOGIC_FREERTOS = false -> v = u32 plain)) /\
  (CONFIG_AMLOGIC_FREERTOS = false -> t = [GWrite (u32 plain) a]).

(** A round on two cells, written in this order. *)
Definition round_on2 (a1 a2 : Z) (plain : Z) (g0 g1 : gic) (t : list gevent) : Prop :=
  irq_controller_lock g1 = irq_controller_lock g0 /\
  (forall x, x <> a1 -> x <> a2 -> gmmio g1 x = gmmio g0 x) /\
  (forall e, In e t -> gevent_addr e = Some a1 \/ gevent_addr e = Some a2) /\
  (exists v1 v2, In (GWrite v1 a1) t /\ In (GWrite v2 a2) t) /\
  (CONFIG_AMLOGIC_FREERTOS = false ->
   t = [GWrite (u32 plain) a1; GWrite (u32 plain) a2]).

Lemma dist_conf_round_inv (base i : Z) (g0 g1 : gic) (t : list gevent) :
  dist_conf_round base i g0 = Some (tt, g1, t) ->
  round_on (base + GIC_DIST_CONFIG + i / 4) GICD_INT_ACTLOW_LVLTRIG g0 g1 t.
Proof.
  unfold dist_conf_round, round_on.
  destruct CONFIG_AMLOGIC_FREERTOS; cbv [gbind readl_relaxed writel_relaxed];
    cbn [app]; intros H; injection H as <- <-; cbn [gmmio irq_controller_lock].
  - split; [reflexivity|]. split; [intros x Hx; now apply poke_other|].
    split; [intros e [<- | [<- | []]]; reflexivity|].
    split; [|discriminate].
    eexists. split; [right; left; reflexivity|]. split; [now rewrite poke_same | discriminate].
  - split; [reflexivity|]. split; [intros x Hx; now apply poke_other|].
    split; [intros e [<- | []]; reflexivity|].
    split; [|reflexivity].
    eexists. split; [left; reflexivity|]. split; [now rewrite poke_same | reflexivity].
Qed.

Lemma dist_pri_round_inv (base i : Z) (g0 g1 : gic) (t : list gevent) :
  dist_pri_round base i g0 = Some (tt, g1, t) ->
  round_on (base + GIC_DIST_PRI + i) GICD_INT_DEF_PRI_X4 g0 g1 t.
Proof.
  unfold dist_pri_round, round_on.
  destruct CONFIG_AMLOGIC_FREERTOS; cbv [gbind readl_relaxed writel_relaxed];
    cbn [app]; intros H; injection H as <- <-; cbn [gmmio irq_controller_lock].
  - split; [reflexivity|]. split; [intros x Hx; now apply poke_other|].
    split; [intros e [<- | [<- | []]]; reflexivity|].
    split; [|discriminate].
    eexists. split; [right; left; reflexivity|]. split; [now rewrite poke_same | discriminate].
  - split; [reflexivity|]. split; [intros x Hx; now apply poke_other|].
    split; [intros e [<- | []]; reflexivity|].
    split; [|reflexivity].
    eexists. split; [left; reflexivity|]. split; [now rewrite poke_same | reflexivity].
Qed.

Lemma dist_clear_round_inv (base i : Z) (g0 g1 : gic) (t : list gevent) :
  dist_clear_round base i g0 = Some (tt, g1, t) ->
  round_on2 (base + GIC_DIST_ACTIVE_CLEAR + i / 8) (base + GIC_DIST_ENABLE_CLEAR + i / 8)
            GICD_INT_EN_CLR_X32 g0 g1 t.
Proof.
  unfold dist_clear_round, round_on2.
  destruct CONFIG_AMLOGIC_FREERTOS; cbv [gbind writel_relaxed];
    cbn [app]; intros H; injection H as <- <-; cbn [gmmio irq_controller_lock].
  - split; [reflexivity|].
    split; [intros x Hx1 Hx2; rewrite poke_other by exact Hx2; now apply poke_other|].
    split; [intros e [<- | [<- | []]]; [left | right]; reflexivity|].
    split; [|discriminate].
    do 2 eexists. split; [left; reflexivity | right; left; reflexivity].
  - split; [reflexivity|].
    split; [intros x Hx1 Hx2; rewrite poke_other by exact Hx2; now apply poke_other|].
    split; [intros e [<- | [<- | []]]; [left | right]; reflexivity|].
    split; [|reflexivity].
    do 2 eexists. split; [left; reflexivity | right; left; reflexivity].
Qed.

Lemma cpu_clear_round_inv (base i : Z) (g0 g1 : gic) (t : list gevent) :
  cpu_clear_round base i g0 = Some (tt, g1, t) ->
  irq_controller_lock g1 = irq_controller_lock g0 /\
  t = [GWrite (u32 GICD_INT_EN_CLR_X32) (base + GIC_DIST_ACTIVE_CLEAR + i / 8);
       GWrite (u32 GICD_INT_EN_CLR_X32) (base + GIC_DIST_ENABLE_CLEAR + i / 8)].
Proof.
  unfold cpu_clear_round. cbv [gbind writel_relaxed]. cbn [app].
  intros H; injection H as <- <-. now split.
Qed.

Lemma cpu_pri_round_inv (base i : Z) (g0 g1 : gic) (t : list gevent) :
  cpu_pri_round base i g0 = Some (tt, g1, t) ->
  irq_controller_lock g1 = irq_controller_lock g0 /\
  t = [GWrite (u32 GICD_INT_DEF_PRI_X4) (base + GIC_DIST_PRI + i)].
Proof.
  unfold cpu_pri_round. destruct (i * 4 <=? INT_MAX); [|discriminate].
  cbv [writel_relaxed]. rewrite Z.div_mul by lia.
  intros H; injection H as <- <-. now split.
Qed.

(** *** The three loops of gic_dist_config in a row *)

Lemma gic_dist_config_run (fuel : nat) (base gic_irqs : Z) (sync_access : bool) (g : gic) :
  0 <= gic_irqs -> gic_irqs + 32 <= 2 ^ 32 ->
  Z.max 0 (gic_irqs - 32) + 4 <= 4 * Z.of_nat fuel ->
  exists g1 g2 g3 t1 t2 t3,
    gic_dist_config fuel base gic_irqs sync_access g =
      Some (tt, g3, (t1 ++ t2 ++ t3) ++ (if sync_access then [GSync] else [])) /\
    loop_spec (dist_conf_round base) (visited 32 16 gic_irqs) g (Some (tt, g1, t1)) /\
    loop_spec (dist_pri_round base) (visited 32 4 gic_irqs) g1 (Some (tt, g2, t2)) /\
    loop_spec (dist_clear_round base) (visited 32 32 gic_irqs) g2 (Some (tt, g3, t3)).
Proof.
  intros Hn Hmax Hfuel. rewrite gic_dist_config_rounds.
  rewrite (u32_id gic_irqs) by (unfold is_u32; lia).
  pose proof (for_uint_spec 16 gic_irqs (dist_conf_round base) ltac:(lia) ltac:(lia)
                (fun i g0 _ => dist_conf_round_run base i g0) fuel 32 g
                ltac:(lia) ltac:(lia)) as L1.
  destruct L1 as (g1 & t1 & H1 & L1).
  pose proof (for_uint_spec 4 gic_irqs (dist_pri_round base) ltac:(lia) ltac:(lia)
                (fun i g0 _ => dist_pri_round_run base i g0) fuel 32 g1
                ltac:(lia) ltac:(lia)) as L2.
  destruct L2 as (g2 & t2 & H2 & L2).
  pose proof (for_uint_spec 32 gic_irqs (dist_clear_round base) ltac:(lia) ltac:(lia)
                (fun i g0 _ => dist_clear_round_run base i g0) fuel 32 g2
                ltac:(lia) ltac:(lia)) as L3.
  destruct L3 as (g3 & t3 & H3 & L3).
  exists g1, g2, g3, t1, t2, t3. split.
  - unfold gbind at 1. rewrite H1. unfold gbind at 1. rewrite H2.
    unfold gbind at 1. rewrite H3. unfold call_sync_access.
    now rewrite <- !app_assoc.
  - split; [exists g1, t1; split; [reflexivity | exact L1]|].
    split; [exists g2, t2; split; [reflexivity | exact L2]|].
    exists g3, t3; split; [reflexivity | exact L3].
Qed.
Lemma loop_spec_some (body : Z -> G unit) (idx : Z -> Prop) (g g' : gic) tr :
  loop_spec body idx g (Some (tt, g', tr)) ->
  (forall e, In e tr ->
     exists i g0 g1 t, idx i /\ body i g0 = Some (tt, g1, t) /\ In e t) /\
  (forall i, idx i ->
     exists g0 g1 t,
       body i g0 = Some (tt, g1, t) /\ incl t tr /\
       forall R : gic -> Prop,
         (forall j g2 g3 t', idx j -> body j g2 = Some (tt, g3, t') -> R g2 -> R g3) ->
         R g1 -> R g') /\
  (forall I : gic -> Prop,
     (forall j g2 g3 t', idx j -> body j g2 = Some (tt, g3, t') -> I g2 -> I g3) ->
     I g -> I g').
Proof. intros (g1 & t1 & Heq & H). injection Heq as <- <-. exact H. Qed.

Lemma gic_dist_config_lock (base gic_irqs : Z) (g g1 g2 g3 : gic) t1 t2 t3 :
  loop_spec (dist_conf_round base) (visited 32 16 gic_irqs) g (Some (tt, g1, t1)) ->
  loop_spec (dist_pri_round base) (visited 32 4 gic_irqs) g1 (Some (tt, g2, t2)) ->
  loop_spec (dist_clear_round base) (visited 32 32 gic_irqs) g2 (Some (tt, g3, t3)) ->
  irq_controller_lock g3 = irq_controller_lock g.
Proof.
  intros L1 L2 L3. apply loop_spec_some in L1, L2, L3.
  destruct L1 as (_ & _ & Hinv1), L2 as (_ & _ & Hinv2), L3 as (_ & _ & Hinv3).
  transitivity (irq_controller_lock g2); [|transitivity (irq_controller_lock g1)].
  - apply (Hinv3 (fun x => irq_controller_lock x = irq_controller_lock g2));
      [|reflexivity].
    intros j x y t' _ Hb Hx. apply dist_clear_round_inv in Hb.
    destruct Hb as (Hl & _). congruence.
  - apply (Hinv2 (fun x => irq_controller_lock x = irq_controller_lock g1));
      [|reflexivity].
    intros j x y t' _ Hb Hx. apply dist_pri_round_inv in Hb.
    destruct Hb as (Hl & _). congruence.
  - apply (Hinv1 (fun x => irq_controller_lock x = irq_controller_lock g));
      [|reflexivity].
    intros j x y t' _ Hb Hx. apply dist_conf_round_inv in Hb.
    destruct Hb as (Hl & _). congruence.
Qed.

(** X14: gic_dist_config returns, given a count of interrupts that is not
    negative, without taking the controller lock.  Before the call of
    sync_access, which comes last and only when given, all it does is
    read and write registers of the shared interrupts, those from 32 up
    to the count: each access is to the configuration, priority,
    clear-active or clear-enable register of such an interrupt, and each
    of these four registers of each such interrupt is written.  With a
    count of 32 or less it touches nothing. *)
Theorem gic_dist_config_spi_registers (fuel : nat) (base gic_irqs : Z)
        (sync_access : bool) (g : gic) :
  0 <= gic_irqs -> gic_irqs + 32 <= 2 ^ 32 ->
  Z.max 0 (gic_irqs - 32) + 4 <= 4 * Z.of_nat fuel ->
  exists g' tr,
    gic_dist_config fuel base gic_irqs sync_access g =
      Some (tt, g', tr ++ (if sync_access then [GSync] else [])) /\
    irq_controller_lock g' = irq_controller_lock g /\
    (forall e, In e tr ->
       exists irq a, 32 <= irq < gic_irqs /\ gevent_addr e = Some a /\ spi_reg base irq a) /\
    (forall irq a, 32 <= irq < gic_irqs -> spi_reg base irq a ->
       exists v, In (GWrite v a) tr) /\
    (gic_irqs <= 32 -> tr = [] /\ g' = g).
Proof.
  intros Hn Hmax Hfuel.
  destruct (gic_dist_config_run fuel base gic_irqs sync_access g Hn Hmax Hfuel)
    as (g1 & g2 & g3 & t1 & t2 & t3 & Hrun & L1 & L2 & L3).
  pose proof (loop_spec_some _ _ _ _ _ L1) as (Hev1 & Hvis1 & Hinv1).
  pose proof (loop_spec_some _ _ _ _ _ L2) as (Hev2 & Hvis2 & Hinv2).
  pose proof (loop_spec_some _ _ _ _ _ L3) as (Hev3 & Hvis3 & Hinv3).
  exists g3, (t1 ++ t2 ++ t3). split; [exact Hrun|].
  assert (Honly : forall e, In e (t1 ++ t2 ++ t3) ->
            exists irq a, 32 <= irq < gic_irqs /\ gevent_addr e = Some a /\
                          spi_reg base irq a).
  { intros e He. apply in_app_or in He. destruct He as [He | He];
      [|apply in_app_or in He; destruct He as [He | He]].
    - destruct (Hev1 e He) as (i & g0 & g0' & t & Hidx & Hb & Hin).
      apply dist_conf_round_inv in Hb. destruct Hb as (_ & _ & Hat & _).
      apply visited_16 in Hidx. destruct Hidx as [Hr Hq].
      exists i, (base + GIC_DIST_CONFIG + i / 4). split; [exact Hr|].
      split; [now apply Hat|]. left. unfold conf_reg. now rewrite Hq.
    - destruct (Hev2 e He) as (i & g0 & g0' & t & Hidx & Hb & Hin).
      apply dist_pri_round_inv in Hb. destruct Hb as (_ & _ & Hat & _).
      apply visited_4 in Hidx; [|now right]. destruct Hidx as [Hr Hq].
      exists i, (base + GIC_DIST_PRI + i). split; [exact Hr|].
      split; [now apply Hat|]. right; left. unfold pri_reg. now rewrite <- Hq.
    - destruct (Hev3 e He) as (i & g0 & g0' & t & Hidx & Hb & Hin).
      apply dist_clear_round_inv in Hb. destruct Hb as (_ & _ & Hat & _).
      apply visited_32 in Hidx; [|now right]. destruct Hidx as [Hr Hq].
      destruct (Hat e Hin) as [Ha | Ha].
      + exists i, (base + GIC_DIST_ACTIVE_CLEAR + i / 8). split; [exact Hr|].
        split; [exact Ha|]. right; right; left. unfold active_clear_reg. now rewrite Hq.
      + exists i, (base + GIC_DIST_ENABLE_CLEAR + i / 8). split; [exact Hr|].
        split; [exact Ha|]. right; right; right. unfold enable_clear_reg. now rewrite Hq. }
  split; [|split; [exact Honly|split]].
  - exact (gic_dist_config_lock base gic_irqs g g1 g2 g3 t1 t2 t3 L1 L2 L3).
  - intros irq a Hr [-> | [-> | [-> | ->]]].
    + destruct (visits_16 gic_irqs irq Hr) as [Hidx Hq].
      destruct (Hvis1 _ Hidx) as (g0 & g0' & t & Hb & Hincl & _).
      apply dist_conf_round_inv in Hb. destruct Hb as (_ & _ & _ & (v & Hin & _) & _).
      exists v. apply in_or_app. left. apply Hincl. unfold conf_reg. now rewrite <- Hq.
    + destruct (visits_4 32 gic_irqs irq ltac:(now right) Hr) as [Hidx Hq].
      destruct (Hvis2 _ Hidx) as (g0 & g0' & t & Hb & Hincl & _).
      apply dist_pri_round_inv in Hb. destruct Hb as (_ & _ & _ & (v & Hin & _) & _).
      exists v. apply in_or_app. right. apply in_or_app. left. apply Hincl. exact Hin.
    + destruct (visits_32 32 gic_irqs irq ltac:(now right) Hr) as [Hidx Hq].
      destruct (Hvis3 _ Hidx) as (g0 & g0' & t & Hb & Hincl & _).
      apply dist_clear_round_inv in Hb. destruct Hb as (_ & _ & _ & (v1 & v2 & Hin1 & Hin2) & _).
      exists v1. apply in_or_app. right. apply in_or_app. right. apply Hincl.
      unfold active_clear_reg. now rewrite <- Hq.
    + destruct (visits_32 32 gic_irqs irq ltac:(now right) Hr) as [Hidx Hq].
      destruct (Hvis3 _ Hidx) as (g0 & g0' & t & Hb & Hincl & _).
      apply dist_clear_round_inv in Hb. destruct Hb as (_ & _ & _ & (v1 & v2 & Hin1 & Hin2) & _).
      exists v2. apply in_or_app. right. apply in_or_app. right. apply Hincl.
      unfold enable_clear_reg. now rewrite <- Hq.
  - intros Hle. split.
    + destruct (t1 ++ t2 ++ t3) as [|e rest]; [reflexivity|].
      destruct (Honly e (or_introl eq_refl)) as (irq & _ & Hr & _). lia.
    + assert (Hnone : forall s j, ~ visited 32 s gic_irqs j)
        by (intros s j [Hr _]; lia).
      transitivity g2; [|transitivity g1].
      * apply (Hinv3 (fun x => x = g2)); [|reflexivity].
        intros j x y t' Hj. now apply Hnone in Hj.
      * apply (Hinv2 (fun x => x = g1)); [|reflexivity].
        intros j x y t' Hj. now apply Hnone in Hj.
      * apply (Hinv1 (fun x => x = g)); [|reflexivity].
        intros j x y t' Hj. now apply Hnone in Hj.
Qed.

(** X15: built without CONFIG_AMLOGIC_FREERTOS, gic_dist_config only
    writes, and what it writes is, for each shared interrupt from 32 up
    to the count and for no other: GICD_INT_ACTLOW_LVLTRIG to its
    configuration register, GICD_INT_DEF_PRI_X4 to its priority register
    and GICD_INT_EN_CLR_X32 to its clear-active and clear-enable
    registers. *)
Theorem gic_dist_config_writes (fuel : nat) (base gic_irqs : Z)
        (sync_access : bool) (g : gic) :
  CONFIG_AMLOGIC_FREERTOS = false ->
  0 <= gic_irqs -> gic_irqs + 32 <= 2 ^ 32 ->
  Z.max 0 (gic_irqs - 32) + 4 <= 4 * Z.of_nat fuel ->
  exists g' tr,
    gic_dist_config fuel base gic_irqs sync_access g =
      Some (tt, g', tr ++ (if sync_access then [GSync] else [])) /\
    forall e, In e tr <->
      exists irq, 32 <= irq < gic_irqs /\
        (e = GWrite (u32 GICD_INT_ACTLOW_LVLTRIG) (conf_reg base irq) \/
         e = GWrite (u32 GICD_INT_DEF_PRI_X4) (pri_reg base irq) \/
         e = GWrite (u32 GICD_INT_EN_CLR_X32) (active_clear_reg base irq) \/
         e = GWrite (u32 GICD_INT_EN_CLR_X32) (enable_clear_reg base irq)).
Proof.
  intros Hplain Hn Hmax Hfuel.
  destruct (gic_dist_config_run fuel base gic_irqs sync_access g Hn Hmax Hfuel)
    as (g1 & g2 & g3 & t1 & t2 & t3 & Hrun & L1 & L2 & L3).
  apply loop_spec_some in L1, L2, L3.
  destruct L1 as (Hev1 & Hvis1 & _), L2 as (Hev2 & Hvis2 & _), L3 as (Hev3 & Hvis3 & _).
  exists g3, (t1 ++ t2 ++ t3). split; [exact Hrun|].
  intros e. split.
  - intros He. apply in_app_or in He. destruct He as [He | He];
      [|apply in_app_or in He; destruct He as [He | He]].
    + destruct (Hev1 e He) as (i & g0 & g0' & t & Hidx & Hb & Hin).
      apply dist_conf_round_inv in Hb. destruct Hb as (_ & _ & _ & _ & Ht).
      rewrite (Ht Hplain) in Hin. destruct Hin as [<- | []].
      apply visited_16 in Hidx. destruct Hidx as [Hr Hq].
      exists i. split; [exact Hr|]. left. unfold conf_reg. now rewrite Hq.
    + destruct (Hev2 e He) as (i & g0 & g0' & t & Hidx & Hb & Hin).
      apply dist_pri_round_inv in Hb. destruct Hb as (_ & _ & _ & _ & Ht).
      rewrite (Ht Hplain) in Hin. destruct Hin as [<- | []].
      apply visited_4 in Hidx; [|now right]. destruct Hidx as [Hr Hq].
      exists i. split; [exact Hr|]. right; left. unfold pri_reg. now rewrite <- Hq.
    + destruct (Hev3 e He) as (i & g0 & g0' & t & Hidx & Hb & Hin).
      apply dist_clear_round_inv in Hb. destruct Hb as (_ & _ & _ & _ & Ht).
      rewrite (Ht Hplain) in Hin.
      apply visited_32 in Hidx; [|now right]. destruct Hidx as [Hr Hq].
      exists i. split; [exact Hr|].
      destruct Hin as [<- | [<- | []]]; [right; right; left | right; right; right].
      * unfold active_clear_reg. now rewrite Hq.
      * unfold enable_clear_reg. now rewrite Hq.
  - intros (irq & Hr & [-> | [-> | [-> | ->]]]).
    + destruct (visits_16 gic_irqs irq Hr) as [Hidx Hq].
      destruct (Hvis1 _ Hidx) as (g0 & g0' & t & Hb & Hincl & _).
      apply dist_conf_round_inv in Hb. destruct Hb as (_ & _ & _ & _ & Ht).
      apply in_or_app. left. apply Hincl. rewrite (Ht Hplain), Hq. now left.
    + destruct (visits_4 32 gic_irqs irq ltac:(now right) Hr) as [Hidx Hq].
      destruct (Hvis2 _ Hidx) as (g0 & g0' & t & Hb & Hincl & _).
      apply dist_pri_round_inv in Hb. destruct Hb as (_ & _ & _ & _ & Ht).
      apply in_or_app. right. apply in_or_app. left. apply Hincl.
      rewrite (Ht Hplain). now left.
    + destruct (visits_32 32 gic_irqs irq ltac:(now right) Hr) as [Hidx Hq].
      destruct (Hvis3 _ Hidx) as (g0 & g0' & t & Hb & Hincl & _).
      apply dist_clear_round_inv in Hb. destruct Hb as (_ & _ & _ & _ & Ht).
      apply in_or_app. right. apply in_or_app. right. apply Hincl.
      rewrite (Ht Hplain), Hq. now left.
    + destruct (visits_32 32 gic_irqs irq ltac:(now right) Hr) as [Hidx Hq].
      destruct (Hvis3 _ Hidx) as (g0 & g0' & t & Hb & Hincl & _).
      apply dist_clear_round_inv in Hb. destruct Hb as (_ & _ & _ & _ & Ht).
      apply in_or_app. right. apply in_or_app. right. apply Hincl.
      rewrite (Ht Hplain), Hq. right. now left.
Qed.
(** X16: gic_dist_config followed by gic_configure_irq.  Built without
    CONFIG_AMLOGIC_FREERTOS, on a distributor whose configuration
    registers keep what is written and lie above the priority and clear
    registers as in the header, with GICD_INT_ACTLOW_LVLTRIG zero:
    after gic_dist_config the configuration register of every shared
    interrupt below the count reads zero, so that setting such an
    interrupt to a level type with gic_configure_irq is one read, no
    write, and returns 0. *)
Theorem gic_dist_config_then_level (fuel : nat) (base gic_irqs : Z)
        (s1 s2 : bool) (g : gic) (irq type : Z) :
  CONFIG_AMLOGIC_FREERTOS = false ->
  (forall i o d, hw_write (conf_reg base i) o d = d) ->
  GIC_DIST_ENABLE_CLEAR <= GIC_DIST_PRI ->
  GIC_DIST_ACTIVE_CLEAR <= GIC_DIST_PRI ->
  GIC_DIST_PRI + gic_irqs <= GIC_DIST_CONFIG ->
  u32 GICD_INT_ACTLOW_LVLTRIG = 0 ->
  irq_controller_lock g = false ->
  0 <= gic_irqs -> gic_irqs + 32 <= 2 ^ 32 ->
  Z.max 0 (gic_irqs - 32) + 4 <= 4 * Z.of_nat fuel ->
  32 <= irq < gic_irqs ->
  Z.land type IRQ_TYPE_LEVEL_MASK <> 0 ->
  exists g' tr,
    gic_dist_config fuel base gic_irqs s1 g = Some (tt, g', tr) /\
    u32 (gmmio g' (conf_reg base irq)) = 0 /\
    gic_configure_irq irq type (base + GIC_DIST_CONFIG) s2 g' =
      Some (0, g', [GLock; GRead (conf_reg base irq) 0; GUnlock]).
Proof.
  intros Hplain Hkeep Hec Hac Hpri Hzero Hfree Hn Hmax Hfuel Hirq Hlevel.
  destruct (gic_dist_config_run fuel base gic_irqs s1 g Hn Hmax Hfuel)
    as (g1 & g2 & g3 & t1 & t2 & t3 & Hrun & L1 & L2 & L3).
  pose proof (gic_dist_config_lock base gic_irqs g g1 g2 g3 t1 t2 t3 L1 L2 L3) as Hlock.
  apply loop_spec_some in L1, L2, L3.
  destruct L1 as (_ & Hvis1 & _), L2 as (_ & _ & Hinv2), L3 as (_ & _ & Hinv3).
  assert (Hdiv : 8 <= irq / 16 * 4) by (Z.div_mod_to_equations; lia).
  assert (Hcell : gmmio g3 (conf_reg base irq) = 0).
  { apply (Hinv3 (fun x => gmmio x (conf_reg base irq) = 0)).
    { intros j x y t' Hj Hb Hx. apply dist_clear_round_inv in Hb.
      destruct Hb as (_ & Hframe & _). rewrite Hframe; [exact Hx| |];
        apply visited_range in Hj; unfold conf_reg;
        assert (0 <= j / 8 <= j) by (Z.div_mod_to_equations; lia); lia. }
    apply (Hinv2 (fun x => gmmio x (conf_reg base irq) = 0)).
    { intros j x y t' Hj Hb Hx. apply dist_pri_round_inv in Hb.
      destruct Hb as (_ & Hframe & _). rewrite Hframe; [exact Hx|].
      apply visited_range in Hj. unfold conf_reg. lia. }
    destruct (visits_16 gic_irqs irq Hirq) as [Hidx Hq].
    destruct (Hvis1 _ Hidx) as (g0 & g0' & t & Hb & _ & HR).
    apply (HR (fun x => gmmio x (conf_reg base irq) = 0)).
    - intros j x y t' Hj Hb' Hx. apply dist_conf_round_inv in Hb'.
      destruct Hb' as (_ & Hframe & _ & (v & _ & Hv & Hval) & _).
      apply visited_16 in Hj. destruct Hj as [_ Hqj].
      destruct (Z.eq_dec (conf_reg base irq) (base + GIC_DIST_CONFIG + j / 4)) as [Heq | Hne].
      + rewrite Heq, Hv. rewrite Hqj. fold (conf_reg base j).
        rewrite Hkeep, (Hval Hplain). exact Hzero.
      + now rewrite Hframe.
    - apply dist_conf_round_inv in Hb.
      destruct Hb as (_ & _ & _ & (v & _ & Hv & Hval) & _).
      rewrite Hq in Hv. fold (conf_reg base irq) in Hv.
      rewrite Hv, Hkeep, (Hval Hplain). exact Hzero. }
  do 2 eexists. split; [exact Hrun|]. split; [rewrite Hcell; reflexivity|].
  rewrite Hfree in Hlock.
  assert (Hu : is_u32 irq) by (unfold is_u32; lia).
  rewrite (gic_configure_irq_run irq type (base + GIC_DIST_CONFIG) s2 g3 Hlock Hu).
  cbv zeta. fold (conf_reg base irq). rewrite Hcell.
  change (u32 0) with 0.
  assert (Hnew : new_conf irq type 0 = 0).
  { unfold new_conf. apply Z.eqb_neq in Hlevel. rewrite Hlevel. reflexivity. }
  rewrite Hnew. cbn [Z.eqb]. destruct g3 as [m l]. cbn in Hlock. now subst l.
Qed.

(** X17: gic_cpu_config returns, for a count whose fourfold fits an int,
    without taking the controller lock and without reading.  Before the
    call of sync_access, which comes last and only when given, what it
    writes is, for each interrupt from 0 up to the count and for no
    other: GICD_INT_EN_CLR_X32 to its clear-active and clear-enable
    registers and GICD_INT_DEF_PRI_X4 to its priority register.  With a
    count of 0 or less it writes nothing. *)
Theorem gic_cpu_config_writes (fuel : nat) (base nr : Z) (sync_access : bool) (g : gic) :
  nr + 31 <= INT_MAX -> 4 * nr <= INT_MAX ->
  Z.max 0 nr + 4 <= 4 * Z.of_nat fuel ->
  exists g' tr,
    gic_cpu_config fuel base nr sync_access g =
      Some (tt, g', tr ++ (if sync_access then [GSync] else [])) /\
    irq_controller_lock g' = irq_controller_lock g /\
    (forall e, In e tr <->
       exists irq, 0 <= irq < nr /\
         (e = GWrite (u32 GICD_INT_EN_CLR_X32) (active_clear_reg base irq) \/
          e = GWrite (u32 GICD_INT_EN_CLR_X32) (enable_clear_reg base irq) \/
          e = GWrite (u32 GICD_INT_DEF_PRI_X4) (pri_reg base irq))) /\
    (nr <= 0 -> tr = [] /\ g' = g).
Proof.
  intros Hmax Hmul Hfuel. rewrite gic_cpu_config_rounds.
  pose proof (for_int_spec 32 nr (cpu_clear_round base) ltac:(lia) ltac:(lia)
                (fun i g0 _ => cpu_clear_round_run base i g0) fuel 0 g
                ltac:(lia) ltac:(lia)) as L1.
  destruct L1 as (g1 & t1 & H1 & Hev1 & Hvis1 & Hinv1).
  pose proof (for_int_spec 4 nr (cpu_pri_round base) ltac:(lia) ltac:(lia)
                (fun i g0 Hi => cpu_pri_round_run base i g0 ltac:(lia)) fuel 0 g1
                ltac:(lia) ltac:(lia)) as L2.
  destruct L2 as (g2 & t2 & H2 & Hev2 & Hvis2 & Hinv2).
  exists g2, (t1 ++ t2). split.
  { unfold gbind at 1. rewrite H1. unfold gbind at 1. rewrite H2.
    unfold call_sync_access. now rewrite <- !app_assoc. }
  assert (Hiff : forall e, In e (t1 ++ t2) <->
            exists irq, 0 <= irq < nr /\
              (e = GWrite (u32 GICD_INT_EN_CLR_X32) (active_clear_reg base irq) \/
               e = GWrite (u32 GICD_INT_EN_CLR_X32) (enable_clear_reg base irq) \/
               e = GWrite (u32 GICD_INT_DEF_PRI_X4) (pri_reg base irq))).
  { intros e. split.
    - intros He. apply in_app_or in He. destruct He as [He | He].
      + destruct (Hev1 e He) as (i & g0 & g0' & t & Hidx & Hb & Hin).
        apply cpu_clear_round_inv in Hb. destruct Hb as [_ ->].
        apply visited_32 in Hidx; [|now left]. destruct Hidx as [Hr Hq].
        exists i. split; [exact Hr|].
        destruct Hin as [<- | [<- | []]]; [left | right; left].
        * unfold active_clear_reg. now rewrite Hq.
        * unfold enable_clear_reg. now rewrite Hq.
      + destruct (Hev2 e He) as (i & g0 & g0' & t & Hidx & Hb & Hin).
        apply cpu_pri_round_inv in Hb. destruct Hb as [_ ->].
        apply visited_4 in Hidx; [|now left]. destruct Hidx as [Hr Hq].
        exists i. split; [exact Hr|]. destruct Hin as [<- | []].
        right; right. unfold pri_reg. now rewrite <- Hq.
    - intros (irq & Hr & [-> | [-> | ->]]).
      + destruct (visits_32 0 nr irq ltac:(now left) Hr) as [Hidx Hq].
        destruct (Hvis1 _ Hidx) as (g0 & g0' & t & Hb & Hincl & _).
        apply cpu_clear_round_inv in Hb. destruct Hb as [_ ->].
        apply in_or_app. left. apply Hincl. rewrite Hq. now left.
      + destruct (visits_32 0 nr irq ltac:(now left) Hr) as [Hidx Hq].
        destruct (Hvis1 _ Hidx) as (g0 & g0' & t & Hb & Hincl & _).
        apply cpu_clear_round_inv in Hb. destruct Hb as [_ ->].
        apply in_or_app. left. apply Hincl. rewrite Hq. right. now left.
      + destruct (visits_4 0 nr irq ltac:(now left) Hr) as [Hidx Hq].
        destruct (Hvis2 _ Hidx) as (g0 & g0' & t & Hb & Hincl & _).
        apply cpu_pri_round_inv in Hb. destruct Hb as [_ ->].
        apply in_or_app. right. apply Hincl. now left. }
  split; [|split; [exact Hiff|]].
  - transitivity (irq_controller_lock g1).
    + apply (Hinv2 (fun x => irq_controller_lock x = irq_controller_lock g1));
        [|reflexivity].
      intros j x y t' _ Hb Hx. apply cpu_pri_round_inv in Hb.
      destruct Hb as (Hl & _). congruence.
    + apply (Hinv1 (fun x => irq_controller_lock x = irq_controller_lock g));
        [|reflexivity].
      intros j x y t' _ Hb Hx. apply cpu_clear_round_inv in Hb.
      destruct Hb as (Hl & _). congruence.
  - intros Hle. split.
    + destruct (t1 ++ t2) as [|e rest]; [reflexivity|].
      destruct (proj1 (Hiff e) (or_introl eq_refl)) as (irq & Hr & _). lia.
    + assert (Hnone : forall s j, ~ visited 0 s nr j) by (intros s j [Hr _]; lia).
      transitivity g1.
      * apply (Hinv2 (fun x => x = g1)); [|reflexivity].
        intros j x y t' Hj. now apply Hnone in Hj.
      * apply (Hinv1 (fun x => x = g)); [|reflexivity].
        intros j x y t' Hj. now apply Hnone in Hj.
Qed.

Lemma for_uint_wraps (bound : Z) (body : Z -> G unit) :
  2 ^ 32 - 16 < bound ->
  (forall i g, exists g' t, body i g = Some (tt, g', t)) ->
  forall (fuel : nat) (i : Z) (g : gic),
    is_u32 i -> i mod 16 = 0 -> for_uint fuel i 16 bound body g = None.
Proof.
  intros Hb Hbody fuel. induction fuel as [|fuel IH]; intros i g Hi Hm; [reflexivity|].
  cbn [for_uint]. unfold is_u32 in Hi.
  change (2 ^ 32) with 4294967296 in *.
  replace (i <? bound) with true
    by (symmetry; apply Z.ltb_lt; Z.div_mod_to_equations; lia).
  destruct (Hbody i g) as (g1 & t1 & Hrun). unfold gbind. rewrite Hrun.
  rewrite IH; [reflexivity | apply u32_range |].
  rewrite u32_mod. change (2 ^ 32) with 4294967296.
  Z.div_mod_to_equations. lia.
Qed.

(** X18: a count from -15 to -1 is compared as an unsigned number, above
    every index the first loop of gic_dist_config can reach: the index
    wraps around from 2^32 - 16 to 0 and the loop goes on, so that
    gic_dist_config does not return, however many rounds it is given. *)
Theorem gic_dist_config_negative_count (base gic_irqs : Z) (sync_access : bool) (g : gic) :
  -16 < gic_irqs < 0 ->
  forall fuel : nat, gic_dist_config fuel base gic_irqs sync_access g = None.
Proof.
  intros Hn fuel. rewrite gic_dist_config_rounds. unfold gbind at 1.
  rewrite (for_uint_wraps (u32 gic_irqs) (dist_conf_round base)).
  - reflexivity.
  - rewrite u32_mod. change (2 ^ 32) with 4294967296.
    Z.div_mod_to_equations. lia.
  - intros i g0. apply dist_conf_round_run.
  - unfold is_u32. lia.
  - reflexivity.
Qed.
End Distributor.

(** ** The quirk tables *)

(** The entries of a table before its terminator, the entry without a
    description. *)
Fixpoint live {D : Type} (quirks : list (gic_quirk D)) : list (gic_quirk D) :=
  match quirks with
  | [] => []
  | q :: rest => if is_some (desc q) then q :: live rest else []
  end.

Definition terminated {D : Type} (quirks : list (gic_quirk D)) : bool :=
  existsb (fun q => negb (is_some (desc q))) quirks.

(** An entry for the device tree: it names a compatible string or a
    property, and the node has each one it names. *)
Definition of_match {D : Type} (np : device_node) (q : gic_quirk D) : bool :=
  (is_some (compatible q) || is_some (property q)) &&
  match compatible q with
  | Some c => of_device_is_compatible np c
  | None => true
  end &&
  match property q with
  | Some p => of_property_read_bool np p
  | None => true
  end.

(** An entry for the identification register: it names neither, and its
    [iidr] is the register under its mask. *)
Definition iidr_match {D : Type} (iidr0 : Z) (q : gic_quirk D) : bool :=
  negb (is_some (compatible q)) && negb (is_some (property q)) &&
  (iidr q =? Z.land (mask q) iidr0).

(** The entries given run in order, each on the data the one before
    left; the descriptions of those whose [init] returns true are logged. *)
Fixpoint run_quirks {D : Type} (qs : list (gic_quirk D)) (data : D) : D * list string :=
  match qs with
  | [] => (data, [])
  | q :: rest =>
      let (data', log) :=
        match desc q with
        | Some d => enable_quirk q d data
        | None => (data, [])
        end in
      let (data'', log') := run_quirks rest data' in
      (data'', log ++ log')
  end.

(** The entries of one kind, and the terminators. *)
Definition of_kind {D : Type} (q : gic_quirk D) : bool :=
  negb (is_some (desc q)) || is_some (compatible q) || is_some (property q).

Definition iidr_kind {D : Type} (q : gic_quirk D) : bool :=
  negb (is_some (desc q)) || negb (is_some (compatible q) || is_some (property q)).

(** X19: gic_enable_of_quirks runs, in the order of the table, the
    entries before the terminator that name a compatible string or a
    property and whose every named one the node has, each on the data
    left by the one before, and logs those whose init returns true;
    entries after the terminator are not looked at, and a table without
    a terminator is walked past its end. *)
Theorem gic_enable_of_quirks_selects {D : Type} (np : device_node)
        (quirks : list (gic_quirk D)) (data : D) :
  gic_enable_of_quirks np quirks data =
  if terminated quirks
  then Some (run_quirks (filter (of_match np) (live quirks)) data)
  else None.
Proof.
  revert data. induction quirks as [|q rest IH]; intros data; [reflexivity|].
  cbn [gic_enable_of_quirks live terminated existsb].
  destruct (desc q) as [d|] eqn:Hd; cbn [is_some negb orb]; [|reflexivity].
  fold (terminated rest). cbn [filter]. unfold of_match at 1.
  destruct (compatible q) as [c|], (property q) as [p|]; cbn [is_some negb andb orb].
  - destruct (of_device_is_compatible np c); cbn [negb andb]; [|apply IH].
    destruct (of_property_read_bool np p); cbn [negb]; [|apply IH].
    cbn [run_quirks]. rewrite Hd. destruct (enable_quirk q d data) as [data' log].
    rewrite IH. destruct (terminated rest); [|reflexivity].
    now destruct (run_quirks _ data').
  - destruct (of_device_is_compatible np c); cbn [negb andb]; [|apply IH].
    cbn [run_quirks]. rewrite Hd. destruct (enable_quirk q d data) as [data' log].
    rewrite IH. destruct (terminated rest); [|reflexivity].
    now destruct (run_quirks _ data').
  - destruct (of_property_read_bool np p); cbn [negb]; [|apply IH].
    cbn [run_quirks]. rewrite Hd. destruct (enable_quirk q d data) as [data' log].
    rewrite IH. destruct (terminated rest); [|reflexivity].
    now destruct (run_quirks _ data').
  - apply IH.
Qed.

(** X20: gic_enable_quirks runs, in the order of the table, the entries
    before the terminator that name neither a compatible string nor a
    property and whose iidr is the identification register under their
    mask, each on the data left by the one before, and logs those whose
    init returns true; a table without a terminator is walked past its
    end. *)
Theorem gic_enable_quirks_selects {D : Type} (iidr0 : Z)
        (quirks : list (gic_quirk D)) (data : D) :
  gic_enable_quirks iidr0 quirks data =
  if terminated quirks
  then Some (run_quirks (filter (iidr_match iidr0) (live quirks)) data)
  else None.
Proof.
  revert data. induction quirks as [|q rest IH]; intros data; [reflexivity|].
  cbn [gic_enable_quirks live terminated existsb].
  destruct (desc q) as [d|] eqn:Hd; cbn [is_some negb orb]; [|reflexivity].
  fold (terminated rest). cbn [filter]. unfold iidr_match at 1.
  destruct (is_some (compatible q)); cbn [negb andb orb]; [apply IH|].
  destruct (is_some (property q)); cbn [negb andb]; [apply IH|].
  destruct (iidr q =? Z.land (mask q) iidr0); cbn [negb]; [|apply IH].
  cbn [run_quirks]. rewrite Hd. destruct (enable_quirk q d data) as [data' log].
  rewrite IH. destruct (terminated rest); [|reflexivity].
  now destruct (run_quirks _ data').
Qed.

(** X21: the two walks share a table without meeting.  Taking out of a
    table the entries that name neither a compatible string nor a
    property changes nothing for gic_enable_of_quirks, and taking out
    those that name one changes nothing for gic_enable_quirks: no entry
    is run by both. *)
Theorem quirk_kinds_apart {D : Type} (np : device_node) (iidr0 : Z)
        (quirks : list (gic_quirk D)) (data : D) :
  gic_enable_of_quirks np (filter of_kind quirks) data =
    gic_enable_of_quirks np quirks data /\
  gic_enable_quirks iidr0 (filter iidr_kind quirks) data =
    gic_enable_quirks iidr0 quirks data.
Proof.
  split; revert data; induction quirks as [|q rest IH]; intros data; try reflexivity.
  - cbn [filter]. unfold of_kind at 1.
    destruct (desc q) as [d|] eqn:Hd; cbn [is_some negb orb].
    + destruct (compatible q) as [c|] eqn:Hc, (property q) as [p|] eqn:Hp;
        cbn [is_some orb];
        (cbn [gic_enable_of_quirks]; rewrite Hd, Hc, Hp; cbn [is_some negb andb];
             repeat match goal with
                    | |- context [if negb ?b then _ else _] => destruct b; cbn [negb]
                    end;
             try apply IH;
             destruct (enable_quirk q d data) as [data' log]; now rewrite IH).
    + cbn [gic_enable_of_quirks]. now rewrite Hd.
  - cbn [filter]. unfold iidr_kind at 1.
    destruct (desc q) as [d|] eqn:Hd; cbn [is_some negb orb].
    + destruct (is_some (compatible q) || is_some (property q)) eqn:Hk; cbn [negb].
      * cbn [gic_enable_quirks]. rewrite Hd, Hk. apply IH.
      * cbn [gic_enable_quirks]. rewrite Hd, Hk.
        destruct (negb (iidr q =? Z.land (mask q) iidr0)); [apply IH|].
        destruct (enable_quirk q d data) as [data' log]. now rewrite IH.
    + cbn [gic_enable_quirks]. now rewrite Hd.
Qed.

End Gic.

(* ------------------------------------------------------------------ *)
(** * The interrupt controller at work *)

(** The values the kernel's headers give the constants (linux/irq.h,
    linux/irqchip/arm-gic.h, the errno and limits headers); the theorems
    hold for any. *)
Module GicHeader.
Definition IRQ_TYPE_EDGE_RISING : Z := 0x1.
Definition IRQ_TYPE_EDGE_BOTH : Z := 0x3.
Definition IRQ_TYPE_LEVEL_HIGH : Z := 0x4.
Definition IRQ_TYPE_LEVEL_MASK : Z := 0xc.
Definition EINVAL : Z := 22.
Definition INT_MAX : Z := 2147483647.
Definition GIC_DIST_ENABLE_CLEAR : Z := 0x180.
Definition GIC_DIST_ACTIVE_CLEAR : Z := 0x380.
Definition GIC_DIST_PRI : Z := 0x400.
Definition GIC_DIST_CONFIG : Z := 0xc00.
Definition GICD_INT_ACTLOW_LVLTRIG : Z := 0x0.
Definition GICD_INT_DEF_PRI_X4 : Z := 0xa0a0a0a0.
Definition GICD_INT_EN_CLR_X32 : Z := 0xffffffff.
End GicHeader.

(** A distributor that keeps what is written, all cells zero, the lock
    free; a vendor helper that passes the value through. *)
Definition hw_keeps (addr old data : Z) : Z := data.

Definition gic_boot : Gic.gic := Gic.mk_gic (fun _ => 0) false.

Definition irqregval_plain (val old irq n : Z) : Z := val.

Lemma gic_configure_irq_one_bit_witness :
  Gic.irq_controller_lock gic_boot = false /\
  is_u32 37 /\
  exists r g' tr,
    Gic.gic_configure_irq hw_keeps GicHeader.IRQ_TYPE_LEVEL_MASK
      GicHeader.IRQ_TYPE_EDGE_BOTH GicHeader.EINVAL
      37 GicHeader.IRQ_TYPE_EDGE_RISING GicHeader.GIC_DIST_CONFIG true gic_boot =
      Some (r, g', tr) /\
    Gic.irq_controller_lock g' = false.
Proof.
  assert (H1 : Gic.irq_controller_lock gic_boot = false) by reflexivity.
  assert (H2 : is_u32 37) by (unfold is_u32; lia).
  split; [exact H1|]. split; [exact H2|].
  destruct (Gic.gic_configure_irq_one_bit hw_keeps GicHeader.IRQ_TYPE_LEVEL_MASK
              GicHeader.IRQ_TYPE_EDGE_BOTH GicHeader.EINVAL
              37 GicHeader.IRQ_TYPE_EDGE_RISING GicHeader.GIC_DIST_CONFIG true
              gic_boot H1 H2) as (r & g' & tr & Hrun & Hlock & _).
  exists r, g', tr. split; assumption.
Defined.

Lemma gic_configure_irq_result_witness :
  Gic.irq_controller_lock gic_boot = false /\
  is_u32 37 /\
  exists r g' tr,
    Gic.gic_configure_irq hw_keeps GicHeader.IRQ_TYPE_LEVEL_MASK
      GicHeader.IRQ_TYPE_EDGE_BOTH GicHeader.EINVAL
      37 GicHeader.IRQ_TYPE_LEVEL_HIGH GicHeader.GIC_DIST_CONFIG true gic_boot =
      Some (r, g', tr).
Proof.
  assert (H1 : Gic.irq_controller_lock gic_boot = false) by reflexivity.
  assert (H2 : is_u32 37) by (unfold is_u32; lia).
  split; [exact H1|]. split; [exact H2|].
  destruct (Gic.gic_configure_irq_result hw_keeps GicHeader.IRQ_TYPE_LEVEL_MASK
              GicHeader.IRQ_TYPE_EDGE_BOTH GicHeader.EINVAL
              37 GicHeader.IRQ_TYPE_LEVEL_HIGH GicHeader.GIC_DIST_CONFIG true
              gic_boot H1 H2) as (r & g' & tr & Hrun & _).
  exists r, g', tr. exact Hrun.
Defined.

Lemma gic_configure_irq_settles_witness :
  (forall a o d, hw_keeps a o d = d) /\
  Gic.irq_controller_lock gic_boot = false /\
  is_u32 37 /\
  exists g' tr,
    Gic.gic_configure_irq hw_keeps GicHeader.IRQ_TYPE_LEVEL_MASK
      GicHeader.IRQ_TYPE_EDGE_BOTH GicHeader.EINVAL
      37 GicHeader.IRQ_TYPE_EDGE_RISING GicHeader.GIC_DIST_CONFIG true gic_boot =
      Some (0, g', tr).
Proof.
  assert (H0 : forall a o d, hw_keeps a o d = d) by reflexivity.
  assert (H1 : Gic.irq_controller_lock gic_boot = false) by reflexivity.
  assert (H2 : is_u32 37) by (unfold is_u32; lia).
  split; [exact H0|]. split; [exact H1|]. split; [exact H2|].
  destruct (Gic.gic_configure_irq_settles hw_keeps GicHeader.IRQ_TYPE_LEVEL_MASK
              GicHeader.IRQ_TYPE_EDGE_BOTH GicHeader.EINVAL
              37 GicHeader.IRQ_TYPE_EDGE_RISING GicHeader.GIC_DIST_CONFIG true false
              gic_boot H0 H1 H2) as (g' & tr & Hrun & _).
  exists g', tr. exact Hrun.
Defined.

Lemma gic_dist_config_spi_registers_witness :
  0 <= 64 /\ 64 + 32 <= 2 ^ 32 /\ Z.max 0 (64 - 32) + 4 <= 4 * Z.of_nat 16 /\
  exists g' tr,
    Gic.gic_dist_config hw_keeps GicHeader.GIC_DIST_CONFIG GicHeader.GIC_DIST_PRI
      GicHeader.GIC_DIST_ACTIVE_CLEAR GicHeader.GIC_DIST_ENABLE_CLEAR
      GicHeader.GICD_INT_ACTLOW_LVLTRIG GicHeader.GICD_INT_DEF_PRI_X4
      GicHeader.GICD_INT_EN_CLR_X32 true irqregval_plain 16 0 64 true gic_boot =
      Some (tt, g', tr ++ [Gic.GSync]) /\
    Gic.irq_controller_lock g' = false.
Proof.
  assert (H1 : 0 <= 64) by lia.
  assert (H2 : 64 + 32 <= 2 ^ 32) by lia.
  assert (H3 : Z.max 0 (64 - 32) + 4 <= 4 * Z.of_nat 16) by lia.
  split; [exact H1|]. split; [exact H2|]. split; [exact H3|].
  destruct (Gic.gic_dist_config_spi_registers hw_keeps GicHeader.GIC_DIST_CONFIG
              GicHeader.GIC_DIST_PRI GicHeader.GIC_DIST_ACTIVE_CLEAR
              GicHeader.GIC_DIST_ENABLE_CLEAR GicHeader.GICD_INT_ACTLOW_LVLTRIG
              GicHeader.GICD_INT_DEF_PRI_X4 GicHeader.GICD_INT_EN_CLR_X32
              true irqregval_plain 16 0 64 true gic_boot H1 H2 H3)
    as (g' & tr & Hrun & Hlock & _).
  exists g', tr. split; assumption.
Defined.

Lemma gic_dist_config_writes_witness :
  false = false /\
  0 <= 64 /\ 64 + 32 <= 2 ^ 32 /\ Z.max 0 (64 - 32) + 4 <= 4 * Z.of_nat 16 /\
  exists g' tr,
    Gic.gic_dist_config hw_keeps GicHeader.GIC_DIST_CONFIG GicHeader.GIC_DIST_PRI
      GicHeader.GIC_DIST_ACTIVE_CLEAR GicHeader.GIC_DIST_ENABLE_CLEAR
      GicHeader.GICD_INT_ACTLOW_LVLTRIG GicHeader.GICD_INT_DEF_PRI_X4
      GicHeader.GICD_INT_EN_CLR_X32 false irqregval_plain 16 0 64 false gic_boot =
      Some (tt, g', tr ++ []) /\
    In (Gic.GWrite 0xa0a0a0a0 (0x400 + 60)) tr.
Proof.
  assert (H0 : false = false) by reflexivity.
  assert (H1 : 0 <= 64) by lia.
  assert (H2 : 64 + 32 <= 2 ^ 32) by lia.
  assert (H3 : Z.max 0 (64 - 32) + 4 <= 4 * Z.of_nat 16) by lia.
  split; [exact H0|]. split; [exact H1|]. split; [exact H2|]. split; [exact H3|].
  destruct (Gic.gic_dist_config_writes hw_keeps GicHeader.GIC_DIST_CONFIG
              GicHeader.GIC_DIST_PRI GicHeader.GIC_DIST_ACTIVE_CLEAR
              GicHeader.GIC_DIST_ENABLE_CLEAR GicHeader.GICD_INT_ACTLOW_LVLTRIG
              GicHeader.GICD_INT_DEF_PRI_X4 GicHeader.GICD_INT_EN_CLR_X32
              false irqregval_plain 16 0 64 false gic_boot H0 H1 H2 H3)
    as (g' & tr & Hrun & Hiff).
  exists g', tr. split; [exact Hrun|].
  apply Hiff. exists 63. split; [lia|]. right. left. reflexivity.
Defined.

Lemma gic_dist_config_then_level_witness :
  false = false /\
  (forall i o d, hw_keeps (Gic.conf_reg GicHeader.GIC_DIST_CONFIG 0 i) o d = d) /\
  GicHeader.GIC_DIST_ENABLE_CLEAR <= GicHeader.GIC_DIST_PRI /\
  GicHeader.GIC_DIST_ACTIVE_CLEAR <= GicHeader.GIC_DIST_PRI /\
  GicHeader.GIC_DIST_PRI + 64 <= GicHeader.GIC_DIST_CONFIG /\
  u32 GicHeader.GICD_INT_ACTLOW_LVLTRIG = 0 /\
  Gic.irq_controller_lock gic_boot = false /\
  0 <= 64 /\ 64 + 32 <= 2 ^ 32 /\ Z.max 0 (64 - 32) + 4 <= 4 * Z.of_nat 16 /\
  32 <= 37 < 64 /\
  Z.land GicHeader.IRQ_TYPE_LEVEL_HIGH GicHeader.IRQ_TYPE_LEVEL_MASK <> 0 /\
  exists g' tr,
    Gic.gic_dist_config hw_keeps GicHeader.GIC_DIST_CONFIG GicHeader.GIC_DIST_PRI
      GicHeader.GIC_DIST_ACTIVE_CLEAR GicHeader.GIC_DIST_ENABLE_CLEAR
      GicHeader.GICD_INT_ACTLOW_LVLTRIG GicHeader.GICD_INT_DEF_PRI_X4
      GicHeader.GICD_INT_EN_CLR_X32 false irqregval_plain 16 0 64 true gic_boot =
      Some (tt, g', tr) /\
    Gic.gic_configure_irq hw_keeps GicHeader.IRQ_TYPE_LEVEL_MASK
      GicHeader.IRQ_TYPE_EDGE_BOTH GicHeader.EINVAL
      37 GicHeader.IRQ_TYPE_LEVEL_HIGH (0 + GicHeader.GIC_DIST_CONFIG) true g' =
      Some (0, g', [Gic.GLock; Gic.GRead (0xc00 + 8) 0; Gic.GUnlock]).
Proof.
  assert (H0 : false = false) by reflexivity.
  assert (Hk : forall i o d,
             hw_keeps (Gic.conf_reg GicHeader.GIC_DIST_CONFIG 0 i) o d = d)
    by reflexivity.
  assert (Hec : GicHeader.GIC_DIST_ENABLE_CLEAR <= GicHeader.GIC_DIST_PRI)
    by (vm_compute; discriminate).
  assert (Hac : GicHeader.GIC_DIST_ACTIVE_CLEAR <= GicHeader.GIC_DIST_PRI)
    by (vm_compute; discriminate).
  assert (Hpri : GicHeader.GIC_DIST_PRI + 64 <= GicHeader.GIC_DIST_CONFIG)
    by (vm_compute; discriminate).
  assert (Hz : u32 GicHeader.GICD_INT_ACTLOW_LVLTRIG = 0) by reflexivity.
  assert (Hl : Gic.irq_controller_lock gic_boot = false) by reflexivity.
  assert (H1 : 0 <= 64) by lia.
  assert (H2 : 64 + 32 <= 2 ^ 32) by lia.
  assert (H3 : Z.max 0 (64 - 32) + 4 <= 4 * Z.of_nat 16) by lia.
  assert (H4 : 32 <= 37 < 64) by lia.
  assert (H5 : Z.land GicHeader.IRQ_TYPE_LEVEL_HIGH GicHeader.IRQ_TYPE_LEVEL_MASK <> 0)
    by (vm_compute; discriminate).
  split; [exact H0|]. split; [exact Hk|]. split; [exact Hec|]. split; [exact Hac|].
  split; [exact Hpri|]. split; [exact Hz|]. split; [exact Hl|]. split; [exact H1|].
  split; [exact H2|]. split; [exact H3|]. split; [exact H4|]. split; [exact H5|].
  destruct (Gic.gic_dist_config_then_level hw_keeps GicHeader.IRQ_TYPE_LEVEL_MASK
              GicHeader.IRQ_TYPE_EDGE_BOTH GicHeader.EINVAL GicHeader.GIC_DIST_CONFIG
              GicHeader.GIC_DIST_PRI GicHeader.GIC_DIST_ACTIVE_CLEAR
              GicHeader.GIC_DIST_ENABLE_CLEAR GicHeader.GICD_INT_ACTLOW_LVLTRIG
              GicHeader.GICD_INT_DEF_PRI_X4 GicHeader.GICD_INT_EN_CLR_X32
              false irqregval_plain 16 0 64 true true gic_boot 37
              GicHeader.IRQ_TYPE_LEVEL_HIGH
              H0 Hk Hec Hac Hpri Hz Hl H1 H2 H3 H4 H5)
    as (g' & tr & Hrun & _ & Hconf).
  exists g', tr. split; [exact Hrun | exact Hconf].
Defined.

Lemma gic_cpu_config_writes_witness :
  32 + 31 <= GicHeader.INT_MAX /\ 4 * 32 <= GicHeader.INT_MAX /\
  Z.max 0 32 + 4 <= 4 * Z.of_nat 16 /\
  exists g' tr,
    Gic.gic_cpu_config hw_keeps GicHeader.INT_MAX GicHeader.GIC_DIST_PRI
      GicHeader.GIC_DIST_ACTIVE_CLEAR GicHeader.GIC_DIST_ENABLE_CLEAR
      GicHeader.GICD_INT_DEF_PRI_X4 GicHeader.GICD_INT_EN_CLR_X32
      16 0 32 true gic_boot = Some (tt, g', tr ++ [Gic.GSync]) /\
    In (Gic.GWrite 0xffffffff 0x180) tr.
Proof.
  assert (H1 : 32 + 31 <= GicHeader.INT_MAX) by (vm_compute; discriminate).
  assert (H2 : 4 * 32 <= GicHeader.INT_MAX) by (vm_compute; discriminate).
  assert (H3 : Z.max 0 32 + 4 <= 4 * Z.of_nat 16) by lia.
  split; [exact H1|]. split; [exact H2|]. split; [exact H3|].
  destruct (Gic.gic_cpu_config_writes hw_keeps GicHeader.INT_MAX GicHeader.GIC_DIST_PRI
              GicHeader.GIC_DIST_ACTIVE_CLEAR GicHeader.GIC_DIST_ENABLE_CLEAR
              GicHeader.GICD_INT_DEF_PRI_X4 GicHeader.GICD_INT_EN_CLR_X32
              16 0 32 true gic_boot H1 H2 H3)
    as (g' & tr & Hrun & _ & Hiff & _).
  exists g', tr. split; [exact Hrun|].
  apply Hiff. exists 5. split; [lia|]. right. left. reflexivity.
Defined.

Lemma gic_dist_config_negative_count_witness :
  -16 < -1 < 0 /\
  forall fuel,
    Gic.gic_dist_config hw_keeps GicHeader.GIC_DIST_CONFIG GicHeader.GIC_DIST_PRI
      GicHeader.GIC_DIST_ACTIVE_CLEAR GicHeader.GIC_DIST_ENABLE_CLEAR
      GicHeader.GICD_INT_ACTLOW_LVLTRIG GicHeader.GICD_INT_DEF_PRI_X4
      GicHeader.GICD_INT_EN_CLR_X32 false irqregval_plain fuel 0 (-1) false gic_boot =
      None.
Proof.
  assert (H : -16 < -1 < 0) by lia.
  split; [exact H|].
  exact (Gic.gic_dist_config_negative_count hw_keeps GicHeader.GIC_DIST_CONFIG
           GicHeader.GIC_DIST_PRI GicHeader.GIC_DIST_ACTIVE_CLEAR
           GicHeader.GIC_DIST_ENABLE_CLEAR GicHeader.GICD_INT_ACTLOW_LVLTRIG
           GicHeader.GICD_INT_DEF_PRI_X4 GicHeader.GICD_INT_EN_CLR_X32
           false irqregval_plain 0 (-1) false gic_boot H).
Defined.
